(** * isort: a shallow embedding of [isort.py] and its checked properties

    The development follows [src/isort.py] (version 2.6.0 of the fork):
    the text helpers of Python's [str], the configuration, the section
    classifier [place_module], the scanner [_parse], the renderer
    [_add_formatted_imports], the constructor [SortImports.__init__], the
    six wrap functions and [_strip_comments].

    Text is modelled as [string], a sequence of code points below 256.
    A Python [set] is modelled as a duplicate-free list in insertion order
    and a [dict] as an association list in insertion order; [sorted] is the
    stable sort by key, so the order of a set shows only among names with
    the same key.  Messages printed to stderr are not modelled.

    The file has three parts: the program, the terms the properties are
    stated with, and the properties with their proofs. *)

From Stdlib Require Import Strings.String Strings.Ascii Lists.List.
From Stdlib Require Import Arith.Arith Arith.PeanoNat ZArith.ZArith Bool.Bool.
From Stdlib Require Import micromega.Lia Numbers.DecimalString.
From Stdlib Require Import Sorting.Sorted Sorting.Permutation.
Import ListNotations.

Open Scope string_scope.
Open Scope list_scope.

(** ** Python's [str] methods *)

Module PyStr.

Definition newline : ascii := "010"%char.

Definition nl : string := String newline "".

(** [c.isspace()] for a code point below 256 of a text string. *)
Definition isspace (c : ascii) : bool :=
  let n := nat_of_ascii c in
  (((9 <=? n) && (n <=? 13)) || ((28 <=? n) && (n <=? 32))
   || (n =? 133) || (n =? 160))%nat.

(** [c.lower()] for a code point below 256. *)
Definition lower_char (c : ascii) : ascii :=
  let n := nat_of_ascii c in
  if (((65 <=? n) && (n <=? 90))
      || ((192 <=? n) && (n <=? 222) && negb (n =? 215)))%nat
  then ascii_of_nat (n + 32) else c.

Fixpoint lower (s : string) : string :=
  match s with
  | "" => ""
  | String c s' => String (lower_char c) (lower s')
  end.

(** [s.startswith(p)] *)
Definition startswith (s p : string) : bool := String.prefix p s.

(** [sub in s] *)
Fixpoint contains (s sub : string) : bool :=
  String.prefix sub s ||
  match s with
  | "" => false
  | String _ s' => contains s' sub
  end.

(** [s.find(sub)], [-1] when [sub] does not occur. *)
Fixpoint find (s sub : string) : Z :=
  if String.prefix sub s then 0%Z
  else match s with
       | "" => (-1)%Z
       | String _ s' =>
           let i := find s' sub in
           if (i <? 0)%Z then (-1)%Z else (i + 1)%Z
       end.

(** [s[:i]], for a negative [i] counted from the end. *)
Definition slice_to (s : string) (i : Z) : string :=
  if (i <? 0)%Z
  then String.substring 0 (Z.to_nat (Z.of_nat (String.length s) + i)) s
  else String.substring 0 (Z.to_nat i) s.

(** [s[i:]] for [0 <= i]. *)
Fixpoint slice_from (s : string) (i : nat) : string :=
  match i, s with
  | 0, _ => s
  | S _, "" => ""
  | S i', String _ s' => slice_from s' i'
  end.

(** [s.replace(old, new)] for a non-empty [old]: occurrences are taken
    from the left and do not overlap; [skip] counts the characters of a
    matched occurrence still to be dropped. *)
Fixpoint replace_from (skip : nat) (old new s : string) : string :=
  match s with
  | "" => ""
  | String c s' =>
      match skip with
      | S k => replace_from k old new s'
      | 0 =>
          if String.prefix old s
          then new ++ replace_from (String.length old - 1) old new s'
          else String c (replace_from 0 old new s')
      end
  end.

Definition replace (s old new : string) : string := replace_from 0 old new s.

(** [s.split(sep)] for a one-character separator: never empty. *)
Fixpoint split (sep : ascii) (s : string) : list string :=
  match s with
  | "" => [""]
  | String c s' =>
      if Ascii.eqb c sep then "" :: split sep s'
      else match split sep s' with
           | h :: t => String c h :: t
           | [] => [String c ""]
           end
  end.

(** [s.split()]: the maximal runs of non-whitespace characters. *)
Fixpoint split_ws (s : string) : list string :=
  match s with
  | "" => []
  | String c s' =>
      if isspace c then split_ws s'
      else match s' with
           | "" => [String c ""]
           | String d _ =>
               if isspace d then String c "" :: split_ws s'
               else match split_ws s' with
                    | h :: t => String c h :: t
                    | [] => [String c ""]
                    end
           end
  end.

(** [sep.join(l)] *)
Definition join (sep : string) (l : list string) : string :=
  String.concat sep l.

Fixpoint lstrip (s : string) : string :=
  match s with
  | "" => ""
  | String c s' => if isspace c then lstrip s' else s
  end.

Fixpoint rstrip (s : string) : string :=
  match s with
  | "" => ""
  | String c s' =>
      match rstrip s' with
      | "" => if isspace c then "" else String c ""
      | r => String c r
      end
  end.

(** [s.strip()] *)
Definition strip (s : string) : string := lstrip (rstrip s).

(** [s.endswith(suffix)] *)
Fixpoint endswith (s suffix : string) : bool :=
  String.eqb s suffix ||
  match s with
  | "" => false
  | String _ s' => endswith s' suffix
  end.

(** [str(n)] for a natural number. *)
Definition str_of_nat (n : nat) : string :=
  NilEmpty.string_of_uint (Nat.to_uint n).

(** [x in l] for a list of strings. *)
Definition mem (x : string) (l : list string) : bool :=
  existsb (String.eqb x) l.

End PyStr.

Import PyStr.

(** ** Exceptions and results *)

Inductive exn : Type := IndexError | ValueError | KeyError.

(** The outcome of a computation that may raise. [OutOfFuel] is not a
    Python exception: it marks a loop of the model that was given too few
    iterations, and [parse_fuel_enough] shows [_parse] never produces it. *)
Inductive result (A : Type) : Type :=
| Ok (a : A)
| Raise (e : exn)
| OutOfFuel.

Arguments Ok {A} a.
Arguments Raise {A} e.
Arguments OutOfFuel {A}.

Definition bind {A B : Type} (m : result A) (k : A -> result B) : result B :=
  match m with
  | Ok a => k a
  | Raise e => Raise e
  | OutOfFuel => OutOfFuel
  end.

Notation "x <- m ;; k" := (bind m (fun x => k))
  (at level 61, m at next level, right associativity).

(** ** Sections and configuration *)

(** A key of [self.imports]: one of the integers of [SECTIONS] or a
    [forced_separate] string. *)
Inductive section_key : Type :=
| Std (n : nat)
| Forced (name : string).

Definition SECTION_NAMES : list string :=
  ["FUTURE"; "STDLIB"; "THIRDPARTY"; "FIRSTPARTY"; "LOCALFOLDER"].

Definition FUTURE : section_key := Std 0.
Definition STDLIB : section_key := Std 1.
Definition THIRDPARTY : section_key := Std 2.
Definition FIRSTPARTY : section_key := Std 3.
Definition LOCALFOLDER : section_key := Std 4.

Definition SECTIONS : list section_key :=
  [FUTURE; STDLIB; THIRDPARTY; FIRSTPARTY; LOCALFOLDER].

Definition section_key_eqb (a b : section_key) : bool :=
  match a, b with
  | Std n, Std m => Nat.eqb n m
  | Forced s, Forced t => String.eqb s t
  | _, _ => false
  end.

Record Config : Type := {
  force_to_top : list string;
  skip : list string;
  line_length : nat;
  known_standard_library : list string;
  known_third_party : list string;
  known_first_party : list string;
  multi_line_output : nat;
  forced_separate : list string;
  indent : string;
  length_sort : bool;
  add_imports : list string;
  remove_imports : list string;
  default_section : string
}.

Definition default_known_standard_library : list string :=
  ["abc"; "anydbm"; "argparse"; "array"; "asynchat"; "asyncore";
   "atexit"; "base64"; "BaseHTTPServer"; "bisect"; "bz2";
   "calendar"; "cgitb"; "cmd"; "codecs"; "collections"; "commands";
   "compileall"; "ConfigParser"; "contextlib"; "Cookie"; "copy";
   "cPickle"; "cProfile"; "cStringIO"; "csv"; "datetime"; "dbhash";
   "dbm"; "decimal"; "difflib"; "dircache"; "dis"; "doctest";
   "dumbdbm"; "EasyDialogs"; "errno"; "exceptions"; "filecmp";
   "fileinput"; "fnmatch"; "fractions"; "functools"; "gc"; "gdbm";
   "getopt"; "getpass"; "gettext"; "glob"; "grp"; "gzip";
   "hashlib"; "heapq"; "hmac"; "imaplib"; "imp"; "inspect";
   "itertools"; "json"; "linecache"; "locale"; "logging";
   "mailbox"; "math"; "mhlib"; "mmap"; "multiprocessing";
   "operator"; "optparse"; "os"; "pdb"; "pickle"; "pipes";
   "pkgutil"; "platform"; "plistlib"; "pprint"; "profile";
   "pstats"; "pwd"; "pyclbr"; "pydoc"; "Queue"; "random"; "re";
   "readline"; "resource"; "rlcompleter"; "robotparser"; "sched";
   "select"; "shelve"; "shlex"; "shutil"; "signal";
   "SimpleXMLRPCServer"; "site"; "sitecustomize"; "smtpd";
   "smtplib"; "socket"; "SocketServer"; "sqlite3"; "string";
   "StringIO"; "struct"; "subprocess"; "sys"; "sysconfig";
   "tabnanny"; "tarfile"; "tempfile"; "textwrap"; "threading";
   "time"; "timeit"; "trace"; "traceback"; "unittest"; "urllib";
   "urllib2"; "urlparse"; "usercustomize"; "uuid"; "warnings";
   "weakref"; "webbrowser"; "whichdb"; "xml"; "xmlrpclib";
   "zipfile"; "zipimport"; "zlib"].

(** [WrapModes.GRID] *)
Definition GRID : nat := 0.
(** [WrapModes.VERTICAL_GRID] *)
Definition VERTICAL_GRID : nat := 4.

(** The module-level dictionary [default]. *)
Definition default : Config := {|
  force_to_top := [];
  skip := ["__init__.py"];
  line_length := 80;
  known_standard_library := default_known_standard_library;
  known_third_party := ["google.appengine.api"];
  known_first_party := [];
  multi_line_output := GRID;
  forced_separate := [];
  indent := "    ";
  length_sort := false;
  add_imports := [];
  remove_imports := [];
  default_section := "FIRSTPARTY"
|}.

(** The part of the environment [place_module] looks at: [sys.path],
    [os.path.exists] and [os.path.isdir]. *)
Record FileSystem : Type := {
  PYTHONPATH : list string;
  path_exists : string -> bool;
  path_isdir : string -> bool
}.

(** A file system in which nothing is found. *)
Definition empty_fs : FileSystem := {|
  PYTHONPATH := [];
  path_exists := fun _ => false;
  path_isdir := fun _ => false
|}.

(** ** The section classifier *)

(** [x in l] where [x] may be [None] (the [firstPart] of [place_module]). *)
Definition opt_mem (x : option string) (l : list string) : bool :=
  match x with
  | Some s => mem s l
  | None => false
  end.

Definition opt_eqb (x : option string) (s : string) : bool :=
  match x with
  | Some t => String.eqb t s
  | None => false
  end.

(** [SECTION_NAMES.index(name)], a [ValueError] for an unknown name. *)
Fixpoint list_index (name : string) (l : list string) : result nat :=
  match l with
  | [] => Raise ValueError
  | x :: l' =>
      if String.eqb x name then Ok 0
      else (i <- list_index name l' ;; Ok (S i))
  end.

Section Classifier.

Variable config : Config.
Variable fs : FileSystem.

(** Lines 206-208: the first [forced_separate] entry that is a prefix of
    the module name. *)
Fixpoint forced_separate_match (moduleName : string) (l : list string)
  : option string :=
  match l with
  | [] => None
  | forced :: l' =>
      if startswith moduleName forced then Some forced
      else forced_separate_match moduleName l'
  end.

(** Lines 222-234: the probe of the module search path. *)
Fixpoint probe_paths (moduleName : string) (paths : list string)
  : option section_key :=
  match paths with
  | [] => None
  | prefix :: paths' =>
      let module_path := join "/" [prefix; replace moduleName "." "/"] in
      let package_path :=
        join "/" [prefix; hd "" (split "."%char moduleName)] in
      if path_exists fs (module_path ++ ".py")
         || path_exists fs (module_path ++ ".so")
         || (path_exists fs package_path && path_isdir fs package_path)
      then
        if contains prefix "site-packages" || contains prefix "dist-packages"
        then Some THIRDPARTY
        else if contains (lower prefix) "python2"
                || contains (lower prefix) "python3"
        then Some STDLIB
        else Some FIRSTPARTY
      else probe_paths moduleName paths'
  end.

(** [SortImports.place_module], lines 192-236. *)
Definition place_module (moduleName : string) : result section_key :=
  if startswith moduleName "." then Ok LOCALFOLDER
  else
    let index := find moduleName "." in
    let firstPart :=
      if (index =? 0)%Z then None else Some (slice_to moduleName index) in
    match forced_separate_match moduleName (forced_separate config) with
    | Some forced => Ok (Forced forced)
    | None =>
        if String.eqb moduleName "__future__" || opt_eqb firstPart "__future__"
        then Ok FUTURE
        else if mem moduleName (known_standard_library config)
                || opt_mem firstPart (known_standard_library config)
        then Ok STDLIB
        else if mem moduleName (known_third_party config)
                || opt_mem firstPart (known_third_party config)
        then Ok THIRDPARTY
        else if mem moduleName (known_first_party config)
                || opt_mem firstPart (known_first_party config)
        then Ok FIRSTPARTY
        else
          match probe_paths moduleName (PYTHONPATH fs) with
          | Some s => Ok s
          | None =>
              i <- list_index (default_section config) SECTION_NAMES ;;
              Ok (Std i)
          end
    end.

End Classifier.

(** ** Sort keys and [sorted] *)

(** [_module_key], lines 426-429. *)
Definition _module_key (module_name : string) (config : Config) : string :=
  let module_name := lower module_name in
  (if mem module_name (force_to_top config) then "A" else "B")
  ++ (if length_sort config
      then
        (* [x and y or z] falls to [z] when [y] is empty; [y] never is *)
        str_of_nat (String.length module_name) ++ ":" ++ module_name
      else module_name).

Section Sorted.

Variable key : string -> string.

(** Insertion before the first element with a key that is not smaller:
    equal keys keep their order. *)
Fixpoint insert_by_key (x : string) (l : list string) : list string :=
  match l with
  | [] => [x]
  | y :: l' =>
      if String.leb (key x) (key y) then x :: l
      else y :: insert_by_key x l'
  end.

(** [sorted(l, key=key)]: Python's sort is stable. *)
Definition sorted (l : list string) : list string :=
  fold_right insert_by_key [] l.

End Sorted.

(** ** Sets and dictionaries *)

(** [s.add(x)] on a set kept as a duplicate-free list. Python iterates a
    set in the order of its hash table; the list keeps the order of
    insertion. The order shows only among names with the same sort key,
    which [sorted] leaves as it finds them: a property that depends on it
    asks for untied names ([untied_imports], [untied_order_free]). *)
Definition set_add (x : string) (s : list string) : list string :=
  if mem x s then s else s ++ [x].

(** [s.update(l)]; [set(l)] is [set_update l []]. *)
Definition set_update (l : list string) (s : list string) : list string :=
  fold_left (fun acc x => set_add x acc) l s.

Section Dict.

Context {K V : Type}.
Variable eqb : K -> K -> bool.

(** [d.get(k)] *)
Fixpoint dict_get (k : K) (d : list (K * V)) : option V :=
  match d with
  | [] => None
  | (k', v) :: d' => if eqb k' k then Some v else dict_get k d'
  end.

(** [d[k] = v]: an existing key keeps its place. *)
Fixpoint dict_set (k : K) (v : V) (d : list (K * V)) : list (K * V) :=
  match d with
  | [] => [(k, v)]
  | (k', v') :: d' =>
      if eqb k' k then (k', v) :: d' else (k', v') :: dict_set k v d'
  end.

End Dict.

(** ** The state of a [SortImports] object *)

(** [{'straight': set(), 'from': {}}] *)
Record Bucket : Type := {
  straight : list string;
  from : list (string * list string)
}.

Definition empty_bucket : Bucket := {| straight := []; from := [] |}.

Inductive import_kind : Type := Straight | From.

(** The attributes [_parse] and [_add_formatted_imports] work on.
    [import_index] is [None] where the source holds [-1]. *)
Record State : Type := {
  in_lines : list string;
  index : nat;
  number_of_lines : nat;
  out_lines : list string;
  imports : list (section_key * Bucket);
  as_map : list (string * string);
  import_index : option nat
}.

Definition set_index (st : State) (i : nat) : State :=
  {| in_lines := in_lines st; index := i;
     number_of_lines := number_of_lines st; out_lines := out_lines st;
     imports := imports st; as_map := as_map st;
     import_index := import_index st |}.

Definition set_out_lines (st : State) (l : list string) : State :=
  {| in_lines := in_lines st; index := index st;
     number_of_lines := number_of_lines st; out_lines := l;
     imports := imports st; as_map := as_map st;
     import_index := import_index st |}.

Definition set_imports (st : State) (m : list (section_key * Bucket)) : State :=
  {| in_lines := in_lines st; index := index st;
     number_of_lines := number_of_lines st; out_lines := out_lines st;
     imports := m; as_map := as_map st;
     import_index := import_index st |}.

Definition set_as_map (st : State) (m : list (string * string)) : State :=
  {| in_lines := in_lines st; index := index st;
     number_of_lines := number_of_lines st; out_lines := out_lines st;
     imports := imports st; as_map := m;
     import_index := import_index st |}.

Definition set_import_index (st : State) (i : option nat) : State :=
  {| in_lines := in_lines st; index := index st;
     number_of_lines := number_of_lines st; out_lines := out_lines st;
     imports := imports st; as_map := as_map st;
     import_index := i |}.

(** [self.imports[key]], a [KeyError] for a missing key. *)
Definition imports_get (st : State) (key : section_key) : result Bucket :=
  match dict_get section_key_eqb key (imports st) with
  | Some b => Ok b
  | None => Raise KeyError
  end.

(** [_get_line], lines 238-243. *)
Definition _get_line (st : State) : result (string * State) :=
  match nth_error (in_lines st) (index st) with
  | Some line => Ok (line, set_index st (index st + 1))
  | None => Raise IndexError
  end.

(** [_at_end], lines 245-247. *)
Definition _at_end (st : State) : bool :=
  Nat.eqb (index st) (number_of_lines st).

(** ** The scanner *)

Definition dquote : ascii := "034"%char.
Definition squote : ascii := "039"%char.
Definition backslash : ascii := "092"%char.
Definition hash : ascii := "035"%char.

Definition dq : string := String dquote "".
Definition sq : string := String squote "".
Definition triple_dq : string := String dquote (String dquote (String dquote "")).
Definition triple_sq : string := String squote (String squote (String squote "")).

(** Lines 349-364, the loop over the characters of a line. [in_quote] is
    [None] where the source holds [False]; [skip] counts the characters the
    source steps over by adding to [index]. *)
Fixpoint scan_quotes (skip : nat) (in_quote : option string) (line : string)
  : option string :=
  match line with
  | "" => in_quote
  | String c rest =>
      match skip with
      | S k => scan_quotes k in_quote rest
      | 0 =>
          if Ascii.eqb c backslash then scan_quotes 1 in_quote rest
          else
            match in_quote with
            | Some q =>
                if String.prefix q line then scan_quotes 0 None rest
                else scan_quotes 0 in_quote rest
            | None =>
                if Ascii.eqb c squote || Ascii.eqb c dquote then
                  let long_quote := String.substring 0 3 line in
                  if String.eqb long_quote triple_dq
                     || String.eqb long_quote triple_sq
                  then scan_quotes 2 (Some long_quote) rest
                  else scan_quotes 0 (Some (String c "")) rest
                else if Ascii.eqb c hash then in_quote
                else scan_quotes 0 in_quote rest
            end
      end
  end.

(** Lines 347-364. *)
Definition update_in_quote (in_quote : option string) (line : string)
  : option string :=
  if contains line dq || contains line sq
  then scan_quotes 0 in_quote line
  else in_quote.

(** [_import_type], lines 415-423. *)
Definition _import_type (line : string) : option import_kind :=
  if contains line "isort:skip" then None
  else if startswith line "import " then Some Straight
  else if startswith line "from " && contains line "import" then Some From
  else None.

(** [_strip_comments], lines 512-521. *)
Definition _strip_comments (line : string) : string :=
  let comment_start := find line "#" in
  if negb (comment_start =? -1)%Z then slice_to line comment_start else line.

(** Lines 376-378: the lines of a parenthesised statement. *)
Fixpoint paren_loop (fuel : nat) (line import_string : string) (st : State)
  : result (string * State) :=
  if negb (endswith (strip line) ")") && negb (_at_end st) then
    match fuel with
    | 0 => OutOfFuel
    | S fuel' =>
        r <- _get_line st ;;
        let line' := _strip_comments (fst r) in
        paren_loop fuel' line' (import_string ++ nl ++ line')%string (snd r)
    end
  else Ok (import_string, st).

(** Lines 380-382: the lines of a statement continued by backslashes. *)
Fixpoint backslash_loop (fuel : nat) (line import_string : string) (st : State)
  : result (string * State) :=
  if endswith (strip line) (String backslash "") then
    match fuel with
    | 0 => OutOfFuel
    | S fuel' =>
        r <- _get_line st ;;
        let line' := _strip_comments (fst r) in
        backslash_loop fuel' line' (import_string ++ nl ++ line')%string (snd r)
    end
  else Ok (import_string, st).

(** Lines 374-382. *)
Definition read_statement (line : string) (st : State)
  : result (string * State) :=
  let import_string := _strip_comments line in
  let fuel := S (List.length (in_lines st)) in
  if contains line "(" && negb (_at_end st)
  then paren_loop fuel line import_string st
  else backslash_loop fuel line import_string st.

(** Lines 384-389. *)
Definition tokenize (import_string : string) : list string :=
  let s := replace import_string "_import" "[[i]]" in
  let s := fold_left (fun acc remove_syntax => replace acc remove_syntax " ")
             [String backslash ""; "("; ")"; ","; "from "; "import "] s in
  let s := replace s "[[i]]" "_import" in
  split_ws s.

(** [l.index(x)] for an [x] known to occur; the length otherwise. *)
Fixpoint index_of (x : string) (l : list string) : nat :=
  match l with
  | [] => 0
  | y :: l' => if String.eqb y x then 0 else S (index_of x l')
  end.

(** [l[i]] with Python's negative indices. *)
Definition py_nth (l : list string) (i : Z) : result string :=
  let j := if (i <? 0)%Z then (Z.of_nat (List.length l) + i)%Z else i in
  if (j <? 0)%Z then Raise IndexError
  else match nth_error l (Z.to_nat j) with
       | Some x => Ok x
       | None => Raise IndexError
       end.

(** Lines 391-398: the loop recording and removing [as] pairs. *)
Fixpoint as_loop (fuel : nat) (kind : import_kind) (imports : list string)
  (as_map : list (string * string))
  : result (list string * list (string * string)) :=
  if mem "as" imports then
    match fuel with
    | 0 => OutOfFuel
    | S fuel' =>
        let index := index_of "as" imports in
        key <- match kind with
               | From =>
                   first <- py_nth imports 0 ;;
                   prev <- py_nth imports (Z.of_nat index - 1) ;;
                   Ok (first ++ "." ++ prev)%string
               | Straight => py_nth imports (Z.of_nat index - 1)
               end ;;
        alias <- py_nth imports (Z.of_nat index + 1) ;;
        as_loop fuel' kind
          (firstn index imports ++ skipn (index + 2) imports)
          (dict_set String.eqb key alias as_map)
    end
  else Ok (imports, as_map).

(** Lines 390-398. *)
Definition record_aliases (kind : import_kind) (imports : list string)
  (as_map : list (string * string))
  : result (list string * list (string * string)) :=
  if mem "as" imports
     && (index_of "as" imports + 1 <? List.length imports)%nat
  then as_loop (List.length imports) kind imports as_map
  else Ok (imports, as_map).

(** [l.remove(x)]: the first occurrence goes. *)
Fixpoint remove_first (x : string) (l : list string) : list string :=
  match l with
  | [] => []
  | y :: l' => if String.eqb y x then l' else y :: remove_first x l'
  end.

(** A line that [strip()] empties. *)
Definition is_blank (line : string) : bool := String.eqb (strip line) "".

(** [while l and l[-1].strip() == '': l.pop()] *)
Fixpoint rstrip_blank (l : list string) : list string :=
  match l with
  | [] => []
  | x :: l' =>
      match rstrip_blank l' with
      | [] => if is_blank x then [] else [x]
      | r => x :: r
      end
  end.

(** The entries left once the blank ones at the front are popped. *)
Fixpoint lstrip_blank (l : list string) : list string :=
  match l with
  | [] => []
  | x :: l' => if is_blank x then lstrip_blank l' else l
  end.

Section Parser.

(** [self.place_module]: the scanner is written over the classifier it
    calls; [SortImports] below passes it [place_module config fs]. *)
Variable place : string -> result section_key.

(** Lines 399-408, a [from] statement. *)
Definition store_from (tokens : list string) (st : State) : result State :=
  match tokens with
  | [] => Raise IndexError
  | import_from :: symbols =>
      key <- place import_from ;;
      bucket <- imports_get st key ;;
      let root := from bucket in
      let merged :=
        match dict_get String.eqb import_from root with
        | Some (x :: existing) => set_update symbols (x :: existing)
        | _ => set_update symbols []
        end in
      Ok (set_imports st
            (dict_set section_key_eqb key
               {| straight := straight bucket;
                  from := dict_set String.eqb import_from merged root |}
               (imports st)))
  end.

(** Lines 410-412, a straight statement: one record per module. *)
Fixpoint store_straight (tokens : list string) (st : State) : result State :=
  match tokens with
  | [] => Ok st
  | module :: tokens' =>
      key <- place module ;;
      bucket <- imports_get st key ;;
      store_straight tokens'
        (set_imports st
           (dict_set section_key_eqb key
              {| straight := set_add module (straight bucket);
                 from := from bucket |}
              (imports st)))
  end.

(** Lines 371-412: one import statement, whose first line is [line]. *)
Definition parse_statement (kind : import_kind) (line : string) (st : State)
  : result State :=
  let st :=
    match import_index st with
    | None => set_import_index st (Some (index st - 1))
    | Some _ => st
    end in
  r <- read_statement line st ;;
  let st := snd r in
  a <- record_aliases kind (tokenize (fst r)) (as_map st) ;;
  let st := set_as_map st (snd a) in
  match kind with
  | From => store_from (fst a) st
  | Straight => store_straight (fst a) st
  end.

(** Lines 344-412, the loop over the lines. *)
Fixpoint parse_loop (fuel : nat) (in_quote : option string) (st : State)
  : result State :=
  if _at_end st then Ok st
  else
    match fuel with
    | 0 => OutOfFuel
    | S fuel' =>
        r <- _get_line st ;;
        let line := fst r in
        let st := snd r in
        let skip_line := in_quote in
        let in_quote := update_in_quote in_quote line in
        match _import_type line, skip_line with
        | Some kind, None =>
            st <- parse_statement kind line st ;;
            parse_loop fuel' in_quote st
        | _, _ =>
            parse_loop fuel' in_quote
              (set_out_lines st (out_lines st ++ [line]))
        end
    end.

(** [SortImports._parse], lines 341-412. *)
Definition _parse_with (st : State) : result State :=
  parse_loop (List.length (in_lines st)) None st.

End Parser.

Section Engine.

Variable config : Config.

Definition key_of (name : string) : string := _module_key name config.

(** Lines 265-273. *)
Definition render_straight (as_map : list (string * string))
  (straight_modules : list string) (output : list string) : list string :=
  fold_left
    (fun output module =>
       if mem module (remove_imports config) then output
       else match dict_get String.eqb module as_map with
            | Some alias =>
                output ++ [("import " ++ module ++ " as " ++ alias)%string]
            | None => output ++ [("import " ++ module)%string]
            end)
    straight_modules output.

(** Lines 296-308: the symbols with an alias, each on a line of its own;
    the others are returned. *)
Fixpoint render_aliased (as_map : list (string * string))
  (module import_start : string) (symbols remaining : list string)
  (output : list string) : list string * list string :=
  match symbols with
  | [] => (output, remaining)
  | from_import :: symbols' =>
      match dict_get String.eqb (module ++ "." ++ from_import)%string as_map with
      | Some (String c a) =>
          render_aliased as_map module import_start symbols'
            (remove_first from_import remaining)
            (output ++ [(import_start ++ from_import ++ " as " ++ String c a)%string])
      | _ =>
          render_aliased as_map module import_start symbols' remaining output
      end
  end.

(** Lines 310-319. *)
Definition render_plain (import_start : string) (from_imports : list string)
  (output : list string) : list string :=
  match from_imports with
  | [] => output
  | first :: others =>
      if mem "*" from_imports
      then output ++ [(import_start ++ "*")%string]
      else
        output ++
        [fold_left
           (fun import_statement from_import =>
              (import_statement ++ nl ++ import_start ++ from_import)%string)
           others (import_start ++ first)%string]
  end.

(** Lines 281-319, one module of the [from] dictionary. *)
Definition render_from_module (as_map : list (string * string))
  (from_dict : list (string * list string)) (module : string)
  (output : list string) : result (list string) :=
  if mem module (remove_imports config) then Ok output
  else
    let import_start := ("from " ++ module ++ " import ")%string in
    match dict_get String.eqb module from_dict with
    | None => Raise KeyError
    | Some symbols =>
        let from_imports := sorted key_of symbols in
        let from_imports :=
          match remove_imports config with
          | [] => from_imports
          | _ =>
              filter
                (fun line =>
                   negb (mem (module ++ "." ++ line)%string
                           (remove_imports config)))
                from_imports
          end in
        let r := render_aliased as_map module import_start
                   from_imports from_imports output in
        Ok (render_plain import_start (snd r) (fst r))
    end.

Fixpoint render_from (as_map : list (string * string))
  (from_dict : list (string * list string)) (from_modules : list string)
  (output : list string) : result (list string) :=
  match from_modules with
  | [] => Ok output
  | module :: from_modules' =>
      output <- render_from_module as_map from_dict module output ;;
      render_from as_map from_dict from_modules' output
  end.

(** Lines 258-322, the body of the loop over the sections. *)
Definition render_section (st : State) (section : section_key)
  (output : list string) : result (list string) :=
  bucket <- imports_get st section ;;
  let straight_modules := sorted key_of (straight bucket) in
  let output := render_straight (as_map st) straight_modules output in
  let from_modules := sorted key_of (map fst (from bucket)) in
  output <- render_from (as_map st) (from bucket) from_modules output ;;
  match straight_modules, from_modules with
  | [], [] => Ok output
  | _, _ => Ok (output ++ [""])
  end.

(** [itertools.chain(SECTIONS, self.config['forced_separate'])] *)
Definition all_sections : list section_key :=
  SECTIONS ++ map Forced (forced_separate config).

(** Lines 256-322. *)
Fixpoint render_sections (st : State) (sections : list section_key)
  (output : list string) : result (list string) :=
  match sections with
  | [] => Ok output
  | section :: sections' =>
      output <- render_section st section output ;;
      render_sections st sections' output
  end.

(** Lines 256-325: the rendered block. *)
Definition formatted_output (st : State) : result (list string) :=
  output <- render_sections st all_sections [] ;;
  Ok (rstrip_blank output).

(** Lines 327-339: the block spliced into [out_lines] at [import_index]
    and the blank lines after it. *)
Definition splice (import_index : nat) (output out_lines : list string)
  : list string :=
  let out_lines := firstn import_index out_lines ++ output
                   ++ skipn import_index out_lines in
  let imports_tail := import_index + List.length output in
  let out_lines := firstn imports_tail out_lines
                   ++ lstrip_blank (skipn imports_tail out_lines) in
  match nth_error out_lines imports_tail with
  | Some next_construct =>
      if startswith next_construct "def"
         || startswith next_construct "class"
         || startswith next_construct "@"
      then firstn imports_tail out_lines ++ [""; ""]
           ++ skipn imports_tail out_lines
      else firstn imports_tail out_lines ++ [""]
           ++ skipn imports_tail out_lines
  | None => out_lines
  end.

(** [SortImports._add_formatted_imports], lines 249-339. Line 158 calls
    it only when [import_index] is not [-1]; the model leaves the state
    as it is in the other case. *)
Definition _add_formatted_imports (st : State) : result State :=
  output <- formatted_output st ;;
  match import_index st with
  | Some i => Ok (set_out_lines st (splice i output (out_lines st)))
  | None => Ok st
  end.

(** Lines 151-153. *)
Definition initial_imports : list (section_key * Bucket) :=
  fold_left (fun d section => dict_set section_key_eqb section empty_bucket d)
    all_sections [].

(** Lines 142-156. *)
Definition initial_state (file_contents : string) : State :=
  let in_lines := split newline file_contents ++ add_imports config in
  {| in_lines := in_lines;
     index := 0;
     number_of_lines := List.length in_lines;
     out_lines := [];
     imports := initial_imports;
     as_map := [];
     import_index := None |}.

(** [SortImports.__init__] on [file_contents], lines 139-166, over the
    classifier [place]: [Ok None] when the constructor returns before it
    sets [output]. *)
Definition SortImports_with (place : string -> result section_key)
  (file_contents : string) : result (option string) :=
  if contains file_contents "isort:skip_file" then Ok None
  else
    st <- _parse_with place (initial_state file_contents) ;;
    st <- match import_index st with
          | Some _ => _add_formatted_imports st
          | None => Ok st
          end ;;
    Ok (Some (join nl (rstrip_blank (out_lines st) ++ [""]))).

Variable fs : FileSystem.

(** [SortImports._parse] with the classifier of the object. *)
Definition _parse (st : State) : result State :=
  _parse_with (place_module config fs) st.

(** [SortImports(file_contents=file_contents)]: the [output] attribute. *)
Definition SortImports (file_contents : string) : result (option string) :=
  SortImports_with (place_module config fs) file_contents.

End Engine.

(** ** The wrap functions *)

(** [s.split('\n')[-1]] *)
Definition last_line (s : string) : string := last (split newline s) "".

(** Lines 434-442, the loop of [_output_grid]. *)
Fixpoint grid_loop (statement : string) (imports : list string)
  (white_space : string) (line_length : nat) : string :=
  match imports with
  | [] => statement
  | next_import :: imports' =>
      let next_statement := (statement ++ ", " ++ next_import)%string in
      let next_statement :=
        if (line_length <? String.length (last_line next_statement) + 1)%nat
        then (statement ++ "," ++ nl ++ white_space ++ next_import)%string
        else next_statement in
      grid_loop next_statement imports' white_space line_length
  end.

(** [_output_grid], lines 432-443; [imports.pop(0)] raises on an empty
    list. *)
Definition _output_grid (statement : string) (imports : list string)
  (white_space indent : string) (line_length : nat) : result string :=
  match imports with
  | [] => Raise IndexError
  | first :: imports' =>
      Ok (grid_loop (statement ++ "(" ++ first) imports' white_space line_length
          ++ ")")%string
  end.

(** [_output_vertical_grid_common], lines 477-489: the loop is that of
    [_output_grid] with [indent] where it has [white_space]. *)
Definition _output_vertical_grid_common (statement : string)
  (imports : list string) (white_space indent : string) (line_length : nat)
  : result string :=
  match imports with
  | [] => Raise IndexError
  | first :: imports' =>
      Ok (grid_loop (statement ++ "(" ++ nl ++ indent ++ first) imports'
            indent line_length)
  end.

(** [_output_vertical_grid], lines 492-499. *)
Definition _output_vertical_grid (statement : string) (imports : list string)
  (white_space indent : string) (line_length : nat) : result string :=
  s <- _output_vertical_grid_common statement imports white_space indent
         line_length ;;
  Ok (s ++ ")")%string.

(** [_output_vertical], lines 446-449: it never looks at the list, so an
    empty one is accepted. *)
Definition _output_vertical (statement : string) (imports : list string)
  (white_space indent : string) (line_length : nat) : result string :=
  Ok (statement ++ "(" ++ join ("," ++ nl ++ white_space) imports ++ ")")%string.

(** Lines 455-463, the loop of [_output_hanging_indent]. *)
Fixpoint hanging_loop (statement : string) (imports : list string)
  (indent : string) (line_length : nat) : string :=
  match imports with
  | [] => statement
  | next_import :: imports' =>
      let next_statement := (statement ++ ", " ++ next_import)%string in
      let next_statement :=
        if (line_length <? String.length (last_line next_statement) + 3)%nat
        then (statement ++ ", " ++ String backslash "" ++ nl ++ indent
              ++ next_import)%string
        else next_statement in
      hanging_loop next_statement imports' indent line_length
  end.

(** [_output_hanging_indent], lines 452-464. *)
Definition _output_hanging_indent (statement : string)
  (imports : list string) (white_space indent : string) (line_length : nat)
  : result string :=
  match imports with
  | [] => Raise IndexError
  | first :: imports' =>
      Ok (hanging_loop (statement ++ " " ++ first) imports' indent line_length)
  end.

(** [_output_vertical_hanging_indent], lines 467-474. *)
Definition _output_vertical_hanging_indent (statement : string)
  (imports : list string) (white_space indent : string) (line_length : nat)
  : result string :=
  Ok (statement ++ "(" ++ nl ++ indent
      ++ join ("," ++ nl ++ indent) imports ++ nl ++ ")")%string.

(** [_output_vertical_grid_grouped], lines 502-509. *)
Definition _output_vertical_grid_grouped (statement : string)
  (imports : list string) (white_space indent : string) (line_length : nat)
  : result string :=
  s <- _output_vertical_grid_common statement imports white_space indent
         line_length ;;
  Ok (s ++ nl ++ ")")%string.

(** ** The name of the file *)

(** [s.rfind(c)] for a character [c], [-1] when [c] does not occur. *)
Fixpoint rfind_char (c : ascii) (s : string) : Z :=
  match s with
  | "" => (-1)%Z
  | String d s' =>
      let i := rfind_char c s' in
      if (0 <=? i)%Z then (i + 1)%Z
      else if Ascii.eqb d c then 0%Z else (-1)%Z
  end.

(** Lines 121-126 of [SortImports.__init__]: the name looked up in
    [skip], for a [file_path] that is not empty. *)
Definition file_name_of (file_path : string) : string :=
  if contains file_path "/"
  then slice_from file_path (Z.to_nat (rfind_char "/" file_path + 1))
  else file_path.

Section Skip.

Variable config : Config.

(** Line 127: the file is skipped and not opened. *)
Definition skipped (file_path : string) : bool :=
  mem (file_name_of file_path) (skip config).

End Skip.

(** * The terms of the properties *)

(** What the statements below are written with: the lines and entries of
    the rendered block, the dictionary the scanner fills, the rows of the
    grid, and the texts of the examples. *)

(** ** Texts and configurations of the examples *)

(** The text of the example: two [from] statements of module [a]. *)
Definition two_from_statements : string :=
  "from a import b" ++ nl ++ "from a import c" ++ nl.

(** The classifier that knows [name] and asks [place] for the rest. *)
Definition place_known (name : string) (key : section_key)
  (place : string -> result section_key) (m : string) : result section_key :=
  if String.eqb m name then Ok key else place m.

(** [c] with the option [length_sort] set to [b]. *)
Definition with_length_sort (c : Config) (b : bool) : Config :=
  {| force_to_top := force_to_top c; skip := skip c;
     line_length := line_length c;
     known_standard_library := known_standard_library c;
     known_third_party := known_third_party c;
     known_first_party := known_first_party c;
     multi_line_output := multi_line_output c;
     forced_separate := forced_separate c; indent := indent c;
     length_sort := b; add_imports := add_imports c;
     remove_imports := remove_imports c;
     default_section := default_section c |}.

(** [c] with the option [force_to_top] set to [l]. *)
Definition with_force_to_top (c : Config) (l : list string) : Config :=
  {| force_to_top := l; skip := skip c;
     line_length := line_length c;
     known_standard_library := known_standard_library c;
     known_third_party := known_third_party c;
     known_first_party := known_first_party c;
     multi_line_output := multi_line_output c;
     forced_separate := forced_separate c; indent := indent c;
     length_sort := length_sort c; add_imports := add_imports c;
     remove_imports := remove_imports c;
     default_section := default_section c |}.

(** ** Names forced to the top *)

Section ForceToTopTerms.

Variable config : Config.

(** The test of line 428: the lowercased name is looked up. *)
Definition forced (name : string) : bool :=
  mem (lower name) (force_to_top config).

(** A list is split when its forced names come first. *)
Definition split_list (l : list string) : Prop :=
  exists l1 l2, l = l1 ++ l2
                /\ Forall (fun x => forced x = true) l1
                /\ Forall (fun x => forced x = false) l2.

End ForceToTopTerms.

(** ** The scanner and the rendered sections *)

(** The loops over continuation lines move [index] and nothing else. *)
Definition only_index_moved (st st' : State) : Prop :=
  in_lines st' = in_lines st
  /\ number_of_lines st' = number_of_lines st
  /\ out_lines st' = out_lines st
  /\ imports st' = imports st
  /\ as_map st' = as_map st
  /\ import_index st' = import_index st
  /\ index st <= index st'.

(** An entry that [strip()] does not empty. *)
Definition nonblank (e : string) : Prop := is_blank e = false.

(** What [render_section] adds for [section]: the entries of its imports,
    none of them blank, and then one empty line exactly when the section
    holds a straight or a [from] import. *)
Definition section_block (config : Config) (st : State)
  (section : section_key) (block : list string) : Prop :=
  exists bucket entries,
    imports_get st section = Ok bucket
    /\ render_section config st section [] = Ok block
    /\ Forall nonblank entries
    /\ block = entries ++ match straight bucket, from bucket with
                          | [], [] => []
                          | _, _ => [""]
                          end
    /\ (straight bucket = [] -> from bucket = [] -> entries = []).

(** The position in [concat blocks] at which block [n] starts. *)
Definition offset (blocks : list (list string)) (n : nat) : nat :=
  List.length (concat (firstn n blocks)).

(** A state with [import os] in [STDLIB] and [from a import b] in
    [FIRSTPARTY]. *)
Definition C9_state : State :=
  set_imports (initial_state default "")
    [(FUTURE, empty_bucket);
     (STDLIB, {| straight := ["os"]; from := [] |});
     (THIRDPARTY, empty_bucket);
     (FIRSTPARTY, {| straight := []; from := [("a", ["b"])] |});
     (LOCALFOLDER, empty_bucket)].

(** [c] with the option [line_length] set to [n]. *)
Definition with_line_length (c : Config) (n : nat) : Config :=
  {| force_to_top := force_to_top c; skip := skip c;
     line_length := n;
     known_standard_library := known_standard_library c;
     known_third_party := known_third_party c;
     known_first_party := known_first_party c;
     multi_line_output := multi_line_output c;
     forced_separate := forced_separate c; indent := indent c;
     length_sort := length_sort c; add_imports := add_imports c;
     remove_imports := remove_imports c;
     default_section := default_section c |}.

(** ** Lines and the rows of the grid *)

(** [c in s] for a character. *)
Fixpoint has_char (c : ascii) (s : string) : bool :=
  match s with
  | "" => false
  | String d s' => Ascii.eqb d c || has_char c s'
  end.

(** The rows [grid_loop] builds: the finished lines and the line being
    filled. *)
Fixpoint grid_rows (done : list string) (cur : string) (imports : list string)
  (white_space : string) (line_length : nat) : list string * string :=
  match imports with
  | [] => (done, cur)
  | next_import :: imports' =>
      if (line_length <? String.length (cur ++ ", " ++ next_import) + 1)%nat
      then grid_rows (done ++ [cur ++ ","]%string)
             (white_space ++ next_import) imports' white_space line_length
      else grid_rows done (cur ++ ", " ++ next_import) imports'
             white_space line_length
  end.

(** A text that is one line. *)
Definition no_newline (s : string) : Prop := has_char newline s = false.

Section GridBoundTerms.

Variable line_length : nat.
Variable all : list string.
(** The two texts a line can start with before its first symbol. *)
Variables head0 white_space : string.

(** A line with one symbol and the text [tail] after it. *)
Definition single_symbol (tail line : string) : Prop :=
  exists head s,
    In s all /\ (head = head0 \/ head = white_space)
    /\ line = (head ++ s ++ tail)%string.

(** The line being filled leaves room for one more character, or holds
    one symbol only. *)
Definition open_row (cur : string) : Prop :=
  String.length cur + 1 <= line_length \/ single_symbol "" cur.

(** A finished line, with [tail] after its last symbol, is within the
    limit or holds one symbol only. *)
Definition closed_row (tail line : string) : Prop :=
  String.length line <= line_length \/ single_symbol tail line.

End GridBoundTerms.

(** ** Lines the scanner reads back *)

(** Lines 270-273 and 310-319: the lines of a straight import and of a
    [from] import of one symbol, without alias. *)
Definition import_line (module : string) : string := "import " ++ module.

Definition from_line (module symbol : string) : string :=
  "from " ++ module ++ " import " ++ symbol.

(** [x is None], or [not x] for a state that is [False] or a string. *)
Definition is_none {A : Type} (x : option A) : bool :=
  match x with
  | None => true
  | Some _ => false
  end.

(** A line that leaves the quote state alone, holds no newline and, when
    it is an import, is a whole statement without an alias: no
    parenthesis, no continuation, no [as]. *)
Definition simple_line (line : string) : bool :=
  is_none (update_in_quote None line)
  && negb (has_char newline line)
  && match _import_type line with
     | None => true
     | Some _ =>
         negb (contains line "(")
         && negb (endswith (strip line) (String backslash ""))
         && negb (mem "as" (tokenize (_strip_comments line)))
     end.

(** Equality of import kinds and of token lists, as tests. *)
Definition kind_eqb (a b : import_kind) : bool :=
  match a, b with
  | Straight, Straight | From, From => true
  | _, _ => false
  end.

Fixpoint tokens_eqb (a b : list string) : bool :=
  match a, b with
  | [], [] => true
  | x :: a', y :: b' => String.eqb x y && tokens_eqb a' b'
  | _, _ => false
  end.

(** The scanner reads [line] as the statement of kind [kind] with the
    tokens [tokens]. *)
Definition reads_back (kind : import_kind) (line : string)
  (tokens : list string) : bool :=
  simple_line line
  && match _import_type line with
     | Some k => kind_eqb k kind
     | None => false
     end
  && tokens_eqb (tokenize (_strip_comments line)) tokens.

(** Every module and symbol of the bucket is rendered to a line that reads
    back as itself, and no [from] module is without symbols. *)
Definition plain_bucket (b : Bucket) : bool :=
  forallb (fun m => reads_back Straight (import_line m) [m]) (straight b)
  && forallb
       (fun entry =>
          match snd entry with
          | [] => false
          | symbols =>
              forallb
                (fun s => reads_back From (from_line (fst entry) s)
                            [fst entry; s])
                symbols
          end)
       (from b).

(** Every bucket of [self.imports] is plain. *)
Definition plain_imports (d : list (section_key * Bucket)) : bool :=
  forallb (fun entry => plain_bucket (snd entry)) d.

(** Lines 371-372. *)
Definition mark_import (st : State) : State :=
  match import_index st with
  | None => set_import_index st (Some (index st - 1))
  | Some _ => st
  end.

Section SimpleLinesTerms.

Variable place : string -> result section_key.

(** Lines 399-412: storing the tokens of a statement of kind [kind]. *)
Definition store (kind : import_kind) : list string -> State -> result State :=
  match kind with
  | From => store_from place
  | Straight => store_straight place
  end.

(** The loop of [_parse] when every statement is one line. *)
Fixpoint run_lines (lines : list string) (st : State) : result State :=
  match lines with
  | [] => Ok st
  | line :: lines' =>
      let st1 := set_index st (index st + 1) in
      match _import_type line with
      | Some kind =>
          st2 <- store kind (tokenize (_strip_comments line))
                   (mark_import st1) ;;
          run_lines lines' st2
      | None =>
          run_lines lines' (set_out_lines st1 (out_lines st1 ++ [line]))
      end
  end.

End SimpleLinesTerms.

(** ** The dictionary of the sections *)

(** [d[key]] on the dictionary of the sections, and the bucket with the
    module [m], or the symbols of [m], added. *)
Definition lookup (d : list (section_key * Bucket)) (key : section_key)
  : result Bucket :=
  match dict_get section_key_eqb key d with
  | Some b => Ok b
  | None => Raise KeyError
  end.

Definition bucket_straight (m : string) (b : Bucket) : Bucket :=
  {| straight := set_add m (straight b); from := from b |}.

Definition bucket_from (m : string) (symbols : list string) (b : Bucket)
  : Bucket :=
  {| straight := straight b;
     from :=
       dict_set String.eqb m
         match dict_get String.eqb m (from b) with
         | Some (x :: existing) => set_update symbols (x :: existing)
         | _ => set_update symbols []
         end
         (from b) |}.

(** The statements of the lines that are imports, the other lines, and
    the place of the first import. *)
Definition statements (lines : list string)
  : list (import_kind * list string) :=
  flat_map
    (fun line =>
       match _import_type line with
       | Some kind => [(kind, tokenize (_strip_comments line))]
       | None => []
       end)
    lines.

Definition other_lines (lines : list string) : list string :=
  filter (fun line => is_none (_import_type line)) lines.

Fixpoint first_import (lines : list string) : option nat :=
  match lines with
  | [] => None
  | line :: lines' =>
      match _import_type line with
      | Some _ => Some 0
      | None => option_map S (first_import lines')
      end
  end.

Section CollectTerms.

Variable place : string -> result section_key.

(** [store_from] and [store_straight] on the dictionary alone. *)
Definition store_from_dict (tokens : list string)
  (d : list (section_key * Bucket)) : result (list (section_key * Bucket)) :=
  match tokens with
  | [] => Raise IndexError
  | m :: symbols =>
      key <- place m ;;
      b <- lookup d key ;;
      Ok (dict_set section_key_eqb key (bucket_from m symbols b) d)
  end.

Fixpoint store_straight_dict (tokens : list string)
  (d : list (section_key * Bucket)) : result (list (section_key * Bucket)) :=
  match tokens with
  | [] => Ok d
  | m :: tokens' =>
      key <- place m ;;
      b <- lookup d key ;;
      store_straight_dict tokens'
        (dict_set section_key_eqb key (bucket_straight m b) d)
  end.

(** The statements of a list, stored one after the other. *)
Definition store_dict (kind : import_kind) :=
  match kind with
  | From => store_from_dict
  | Straight => store_straight_dict
  end.

Fixpoint collect (stmts : list (import_kind * list string))
  (d : list (section_key * Bucket)) : result (list (section_key * Bucket)) :=
  match stmts with
  | [] => Ok d
  | (kind, tokens) :: stmts' =>
      d' <- store_dict kind tokens d ;;
      collect stmts' d'
  end.

End CollectTerms.

(** ** The rendered block *)

Section PlainRenderingTerms.

Variable config : Config.

(** The symbols a [from] import shows: [*] hides the others. *)
Definition shown_symbols (symbols : list string) : list string :=
  let sorted_symbols := sorted (key_of config) symbols in
  if mem "*" sorted_symbols then ["*"] else sorted_symbols.

(** The lines of the [from] import of [m]; they are one entry of the
    rendered block, joined by newlines. *)
Definition from_lines (m : string) (symbols : list string) : list string :=
  map (from_line m) (shown_symbols symbols).

Definition from_entries (m : string) (symbols : list string) : list string :=
  match from_lines m symbols with
  | [] => []
  | lines => [join nl lines]
  end.

(** [bucket['from'][m]], empty for a missing module. *)
Definition symbols_of (b : Bucket) (m : string) : list string :=
  match dict_get String.eqb m (from b) with
  | Some symbols => symbols
  | None => []
  end.

(** The entries lines 265-319 add for a bucket without aliases, the lines
    they are made of, and the blank entry of line 322. *)
Definition section_entries (b : Bucket) : list string :=
  map import_line (sorted (key_of config) (straight b))
  ++ flat_map (fun m => from_entries m (symbols_of b m))
       (sorted (key_of config) (map fst (from b))).

Definition section_lines (b : Bucket) : list string :=
  map import_line (sorted (key_of config) (straight b))
  ++ flat_map (fun m => from_lines m (symbols_of b m))
       (sorted (key_of config) (map fst (from b))).

Definition separator (b : Bucket) : list string :=
  match straight b, from b with
  | [], [] => []
  | _, _ => [""]
  end.

End PlainRenderingTerms.

Section SortedTwiceTerms.

Variable key : string -> string.

(** The keys of [l] do not decrease. *)
Fixpoint is_sorted (l : list string) : Prop :=
  match l with
  | [] => True
  | x :: l' =>
      match l' with
      | [] => True
      | y :: _ => String.leb (key x) (key y) = true /\ is_sorted l'
      end
  end.

End SortedTwiceTerms.

Section GoodDictTerms.

Variable place : string -> result section_key.

(** The modules of a bucket belong to its section, and its sets have no
    element twice. *)
Definition good_bucket (k : section_key) (b : Bucket) : Prop :=
  NoDup (straight b)
  /\ (forall m, In m (straight b) -> place m = Ok k)
  /\ NoDup (map fst (from b))
  /\ (forall m symbols, In (m, symbols) (from b) ->
                        place m = Ok k /\ NoDup symbols).

(** Every bucket of the dictionary is good for its section. *)
Definition good_dict (d : list (section_key * Bucket)) : Prop :=
  forall k b, dict_get section_key_eqb k d = Some b -> good_bucket k b.

End GoodDictTerms.

(** ** Quotations across lines *)

(** A line that stays a line of its own and does not mark the file as
    skipped. *)
Definition clean_line (line : string) : bool :=
  negb (has_char newline line) && negb (contains line "isort:skip_file").

(** The quotation state after [lines], scanned from the state [q]. *)
Definition quote_after (q : option string) (lines : list string)
  : option string :=
  fold_left update_in_quote lines q.

(** Line 367: in the state [q] the scanner copies [line] to [out_lines]. *)
Definition copied (q : option string) (line : string) : bool :=
  negb (is_none q) || is_none (_import_type line).

(** The scanner copies every line of [lines], scanned from [q]. *)
Fixpoint copy_trace (q : option string) (lines : list string) : bool :=
  match lines with
  | [] => true
  | line :: lines' =>
      copied q line && copy_trace (update_in_quote q line) lines'
  end.

(** An entry that [strip()] empties. *)
Definition blank (e : string) : Prop := is_blank e = true.

(** Lines 335-339: the blank lines put between the imports and the code
    that follows them. *)
Definition pad (T : list string) : list string :=
  match T with
  | [] => []
  | next_construct :: _ =>
      if startswith next_construct "def"
         || startswith next_construct "class"
         || startswith next_construct "@"
      then [""; ""]
      else [""]
  end.

(** The lines of a list of entries, entry by entry. *)
Definition flat (entries : list string) : list string :=
  flat_map (split newline) entries.

Section ReadBackTerms.

Variable config : Config.

(** The bucket the scanner builds from the lines of a rendered section. *)
Definition norm (b : Bucket) : Bucket :=
  {| straight := sorted (key_of config) (straight b);
     from := map (fun m => (m, shown_symbols config (symbols_of b m)))
               (sorted (key_of config) (map fst (from b))) |}.

(** The statements of the lines of a rendered section. *)
Definition section_statements (b : Bucket)
  : list (import_kind * list string) :=
  map (fun m => (Straight, [m])) (sorted (key_of config) (straight b))
  ++ flat_map
       (fun m => map (fun s => (From, [m; s]))
                   (shown_symbols config (symbols_of b m)))
       (sorted (key_of config) (map fst (from b))).

End ReadBackTerms.

Section BlocksTerms.

Variable config : Config.

(** The entries of the sections and the lines they are made of. *)
Definition blocks (bs : list Bucket) : list string :=
  flat_map (fun b => section_entries config b ++ separator b) bs.

Definition block_lines (bs : list Bucket) : list string :=
  flat_map (fun b => section_lines config b ++ separator b) bs.

End BlocksTerms.

(** ** Names with the same sort key *)

(** No entry of the list occurs twice. *)
Fixpoint no_repeat (l : list string) : bool :=
  match l with
  | [] => true
  | x :: l' => negb (mem x l') && no_repeat l'
  end.

(** No two names of the list have the same key: [sorted] then gives the
    same list in whatever order the names are taken (for a Python [set],
    the order of its hash table). *)
Definition untied_names (config : Config) (names : list string) : bool :=
  no_repeat (map (key_of config) names).

(** The straight modules of the bucket, its [from] modules and the symbols
    of each [from] module are untied. *)
Definition untied_bucket (config : Config) (b : Bucket) : bool :=
  untied_names config (straight b)
  && untied_names config (map fst (from b))
  && forallb (fun entry => untied_names config (snd entry)) (from b).

(** Every bucket of [self.imports] is untied. *)
Definition untied_imports (config : Config)
  (d : list (section_key * Bucket)) : bool :=
  forallb (fun entry => untied_bucket config (snd entry)) d.

(** ** The engine on its own output *)

(** The state [_parse] reaches on the lines [pre ++ mid ++ post] when it
    copies [pre] and [post] and reads the simple lines [mid], given the
    dictionary it has filled. *)
Definition scanned (pre mid post : list string)
  (d : list (section_key * Bucket)) : State :=
  {| in_lines := pre ++ mid ++ post;
     index := List.length (pre ++ mid ++ post);
     number_of_lines := List.length (pre ++ mid ++ post);
     out_lines := pre ++ other_lines mid ++ post;
     imports := d;
     as_map := [];
     import_index :=
       option_map (fun p => List.length pre + p) (first_import mid) |}.

(** Lines 157-166: what [__init__] does once [_parse] has returned. *)
Definition finish (config : Config) (st : State) : result (option string) :=
  st <- match import_index st with
        | Some _ => _add_formatted_imports config st
        | None => Ok st
        end ;;
  Ok (Some (join nl (rstrip_blank (out_lines st) ++ [""]))).

(** A docstring of three lines, one of them starting like an import, two
    straight imports out of order, a [from] import of two symbols and a
    line of code. *)
Definition C2_text : string :=
  triple_dq ++ "Sorts." ++ nl ++ "import inside the text" ++ nl
  ++ triple_dq ++ nl
  ++ "import sys" ++ nl ++ "import os" ++ nl ++ "from a import c, b" ++ nl
  ++ "x = 1" ++ nl.

(** A statement after an import on the same line, with a quoted string. *)
Definition C2_compound_line : string := "import os; x = 'a b'" ++ nl.

(** What the engine makes of [C2_compound_line], and what it makes of
    that. *)
Definition C2_first_output : string :=
  "import os;" ++ nl ++ nl ++ "import 'a" ++ nl ++ "import =" ++ nl
  ++ "import b'" ++ nl ++ "import x" ++ nl.

Definition C2_second_output : string :=
  "import os;" ++ nl ++ nl ++ "import 'a" ++ nl ++ "import x" ++ nl ++ nl
  ++ "import =" ++ nl ++ "import b'" ++ nl.

(** [c] with the option [remove_imports] set to [l]. *)
Definition with_remove_imports (c : Config) (l : list string) : Config :=
  {| force_to_top := force_to_top c; skip := skip c;
     line_length := line_length c;
     known_standard_library := known_standard_library c;
     known_third_party := known_third_party c;
     known_first_party := known_first_party c;
     multi_line_output := multi_line_output c;
     forced_separate := forced_separate c; indent := indent c;
     length_sort := length_sort c; add_imports := add_imports c;
     remove_imports := l;
     default_section := default_section c |}.

(** Imports of three sections, the one in the middle being [os]. *)
Definition C9_three_sections : string :=
  "from __future__ import division" ++ nl ++ "import os" ++ nl
  ++ "import requests" ++ nl.

(** A [from] statement without symbols before a straight import of another
    section. *)
Definition C9_no_symbols : string :=
  "from os import " ++ nl ++ "import requests" ++ nl.

(** [c] with the option [forced_separate] set to [l]. *)
Definition with_forced_separate (c : Config) (l : list string) : Config :=
  {| force_to_top := force_to_top c; skip := skip c;
     line_length := line_length c;
     known_standard_library := known_standard_library c;
     known_third_party := known_third_party c;
     known_first_party := known_first_party c;
     multi_line_output := multi_line_output c;
     forced_separate := l; indent := indent c;
     length_sort := length_sort c; add_imports := add_imports c;
     remove_imports := remove_imports c;
     default_section := default_section c |}.

(** ** The lines of the other wrap styles *)

(** The rows [hanging_loop] builds: the finished lines and the line being
    filled. *)
Fixpoint hanging_rows (done : list string) (cur : string)
  (imports : list string) (indent : string) (line_length : nat)
  : list string * string :=
  match imports with
  | [] => (done, cur)
  | next_import :: imports' =>
      if (line_length <? String.length (cur ++ ", " ++ next_import) + 3)%nat
      then hanging_rows (done ++ [cur ++ ", " ++ String backslash ""]%string)
             (indent ++ next_import) imports' indent line_length
      else hanging_rows done (cur ++ ", " ++ next_import) imports'
             indent line_length
  end.

(** The line being filled leaves room for a comma, a space and a
    backslash, or holds one symbol only. *)
Definition hanging_row (line_length : nat) (all : list string)
  (head0 indent cur : string) : Prop :=
  String.length cur + 3 <= line_length
  \/ single_symbol all head0 indent "" cur.

(** One symbol on each line: [cur] with a comma, then the symbols after
    [white_space], the last of them with [closing]. *)
Fixpoint column (cur white_space closing : string) (imports : list string)
  : list string :=
  match imports with
  | [] => [(cur ++ closing)%string]
  | x :: imports' =>
      (cur ++ ",")%string
      :: column (white_space ++ x) white_space closing imports'
  end.

(** What follows the first symbol in the text of a vertical style. *)
Fixpoint continued (white_space closing : string) (imports : list string)
  : string :=
  match imports with
  | [] => closing
  | x :: imports' =>
      ("," ++ nl ++ white_space ++ x
       ++ continued white_space closing imports')%string
  end.

(** ** The outcomes of a run *)

(** An outcome that is a value or an [IndexError], or a [ValueError] when
    [value_error] holds: no [KeyError], and no loop of the model short of
    iterations. *)
Definition outcome {A : Type} (value_error : Prop) (r : result A) : Prop :=
  match r with
  | Ok _ => True
  | Raise IndexError => True
  | Raise ValueError => value_error
  | Raise KeyError => False
  | OutOfFuel => False
  end.

(** [self.imports] holds a record for every section. *)
Definition has_keys (config : Config) (d : list (section_key * Bucket))
  : Prop :=
  forall k, In k (all_sections config) ->
            dict_get section_key_eqb k d <> None.

(** The state [__init__] makes and [_parse] keeps: [number_of_lines] is the
    number of lines, [index] is not beyond it, and every section has its
    record. *)
Definition ready (config : Config) (st : State) : Prop :=
  number_of_lines st = List.length (in_lines st)
  /\ index st <= List.length (in_lines st)
  /\ has_keys config (imports st).

(** [c] with the option [default_section] set to [name]. *)
Definition with_default_section (c : Config) (name : string) : Config :=
  {| force_to_top := force_to_top c; skip := skip c;
     line_length := line_length c;
     known_standard_library := known_standard_library c;
     known_third_party := known_third_party c;
     known_first_party := known_first_party c;
     multi_line_output := multi_line_output c;
     forced_separate := forced_separate c; indent := indent c;
     length_sort := length_sort c; add_imports := add_imports c;
     remove_imports := remove_imports c;
     default_section := name |}.

(** ** The first import statement of a text *)

(** The state in which [_parse] starts the first import statement, whose
    first line is [line]: it has copied the lines [pre] before it and read
    [line]; [rest] are the lines after it. *)
Definition at_first_import (config : Config) (pre : list string)
  (line : string) (rest : list string) : State :=
  {| in_lines := pre ++ line :: rest;
     index := List.length pre + 1;
     number_of_lines := List.length (pre ++ line :: rest);
     out_lines := pre;
     imports := initial_imports config;
     as_map := [];
     import_index := None |}.

(** A line that does not close a parenthesised statement, line 376. *)
Definition leaves_open (line : string) : bool :=
  negb (endswith (strip (_strip_comments line)) ")").

(** [c] with the option [add_imports] set to [l]. *)
Definition with_add_imports (c : Config) (l : list string) : Config :=
  {| force_to_top := force_to_top c; skip := skip c;
     line_length := line_length c;
     known_standard_library := known_standard_library c;
     known_third_party := known_third_party c;
     known_first_party := known_first_party c;
     multi_line_output := multi_line_output c;
     forced_separate := forced_separate c; indent := indent c;
     length_sort := length_sort c; add_imports := l;
     remove_imports := remove_imports c;
     default_section := default_section c |}.

(** ** Lines kept in their order *)

(** [kept_in_order kept lines]: the list [kept] is [lines] with some of
    its entries left out. *)
Inductive kept_in_order : list string -> list string -> Prop :=
| kept_nil : kept_in_order [] []
| kept_drop x kept lines :
    kept_in_order kept lines -> kept_in_order kept (x :: lines)
| kept_keep x kept lines :
    kept_in_order kept lines -> kept_in_order (x :: kept) (x :: lines).

(** A state in which [import_index] is set and [out_lines] holds a comment,
    a blank line and a function. *)
Definition state_before_def : State :=
  set_import_index
    (set_out_lines C9_state ["# tools"; ""; "def f():"]) (Some 1).

(** ** Entries and their last lines *)

(** An entry that, unless it is blank, ends with a line that is not
    blank. *)
Definition closed_entry (e : string) : Prop :=
  is_blank e = false -> is_blank (last_line e) = false.

(** The names of a record hold no newline. *)
Definition tidy_bucket (b : Bucket) : Prop :=
  Forall no_newline (straight b)
  /\ forall m symbols,
      In (m, symbols) (from b) -> no_newline m /\ Forall no_newline symbols.

Definition tidy_dict (d : list (section_key * Bucket)) : Prop :=
  forall k b, dict_get section_key_eqb k d = Some b -> tidy_bucket b.

(** The aliases of [as_map] hold no newline. *)
Definition tidy_map (as_map : list (string * string)) : Prop :=
  forall k v, In (k, v) as_map -> no_newline v.

(** * Properties *)

Example split_example : split newline ("a" ++ nl ++ "b" ++ nl) = ["a"; "b"; ""].
Proof. reflexivity. Qed.

Example split_ws_example :
  split_ws ("  os   sys " ++ nl ++ " re") = ["os"; "sys"; "re"].
Proof. reflexivity. Qed.

Example replace_example : replace "from a import b" "import " " " = "from a  b".
Proof. reflexivity. Qed.

Example strip_example : strip "  a b  " = "a b".
Proof. reflexivity. Qed.

Example find_example : (find "os.path" "." = 2 /\ find "oss" "." = -1)%Z.
Proof. split; reflexivity. Qed.

Example slice_to_example : slice_to "oss" (-1) = "os".
Proof. reflexivity. Qed.

Example str_of_nat_example : str_of_nat 10 = "10" /\ str_of_nat 0 = "0".
Proof. split; reflexivity. Qed.

(** ** The scanner depends on the classifier through its values only *)

Section ParserExt.

Variables place place' : string -> result section_key.
Hypothesis place_ext : forall m, place m = place' m.

Lemma store_from_ext tokens st :
  store_from place tokens st = store_from place' tokens st.
Proof.
  destruct tokens as [|m symbols]; [reflexivity|].
  unfold store_from. now rewrite place_ext.
Qed.

Lemma store_straight_ext tokens :
  forall st, store_straight place tokens st = store_straight place' tokens st.
Proof.
  induction tokens as [|m tokens IH]; intros st; [reflexivity|].
  simpl. rewrite place_ext.
  destruct (place' m) as [key| |]; simpl; try reflexivity.
  destruct (imports_get st key); simpl; auto.
Qed.

Lemma parse_statement_ext kind line st :
  parse_statement place kind line st = parse_statement place' kind line st.
Proof.
  unfold parse_statement.
  destruct (read_statement line _) as [r| |]; simpl; try reflexivity.
  destruct (record_aliases kind _ _) as [a| |]; simpl; try reflexivity.
  destruct kind; [apply store_straight_ext | apply store_from_ext].
Qed.

Lemma parse_loop_ext fuel :
  forall in_quote st,
    parse_loop place fuel in_quote st = parse_loop place' fuel in_quote st.
Proof.
  induction fuel as [|fuel IH]; intros in_quote st; [reflexivity|].
  simpl. destruct (_at_end st); [reflexivity|].
  destruct (_get_line st) as [r| |]; simpl; try reflexivity.
  destruct (_import_type (fst r)) as [kind|]; [|apply IH].
  destruct in_quote; [apply IH|].
  rewrite parse_statement_ext.
  destruct (parse_statement place' kind (fst r) (snd r)); simpl; auto.
Qed.

Lemma SortImports_with_ext config file_contents :
  SortImports_with config place file_contents
  = SortImports_with config place' file_contents.
Proof.
  unfold SortImports_with, _parse_with. now rewrite parse_loop_ext.
Qed.

End ParserExt.

(** ** The classifier *)

Lemma probe_paths_range fs m paths s :
  probe_paths fs m paths = Some s ->
  s = THIRDPARTY \/ s = STDLIB \/ s = FIRSTPARTY.
Proof.
  induction paths as [|p paths IH]; simpl; [discriminate|].
  destruct (_ || _ || _).
  - destruct (_ || _).
    + intros H; injection H as <-; auto.
    + destruct (_ || _); intros H; injection H as <-; auto.
  - exact IH.
Qed.

(** With the default configuration a name outside the tables lands in one
    of three sections, whatever the file system holds. *)
Lemma place_module_default_a fs :
  exists k, place_module default fs "a" = Ok (Std k)
            /\ (k = 1 \/ k = 2 \/ k = 3).
Proof.
  assert (E : place_module default fs "a"
              = match probe_paths fs "a" (PYTHONPATH fs) with
                | Some s => Ok s
                | None => Ok (Std 3)
                end).
  { unfold place_module.
    destruct (probe_paths fs "a" (PYTHONPATH fs)); reflexivity. }
  rewrite E.
  destruct (probe_paths fs "a" (PYTHONPATH fs)) eqn:P.
  - apply probe_paths_range in P.
    destruct P as [-> | [-> | ->]]; eexists; split; try reflexivity; auto.
  - eexists; split; try reflexivity; auto.
Qed.

(** ** C1: two [from] statements of one module *)

Lemma place_known_ext name key place :
  place name = Ok key -> forall m, place m = place_known name key place m.
Proof.
  intros H m. unfold place_known.
  destruct (String.eqb_spec m name) as [->|]; auto.
Qed.

(** C1 (as amended): for the statements [from a import b] and
    [from a import c] and the default configuration the engine renders
    module [a] once, with both symbols, as one [from a import <symbol>]
    line per symbol, whatever the file system holds. *)
Theorem C1_merged_from_one_line_per_symbol (fs : FileSystem) :
  SortImports default fs two_from_statements
  = Ok (Some ("from a import b" ++ nl ++ "from a import c" ++ nl)%string).
Proof.
  destruct (place_module_default_a fs) as [k [Hk Hr]].
  unfold SortImports.
  rewrite (SortImports_with_ext _ _ (place_known_ext "a" (Std k) _ Hk)).
  generalize (place_module default fs); intros place.
  destruct Hr as [-> | [-> | ->]]; vm_compute; reflexivity.
Qed.

(** C1 (as stated) fails: the output is not the comma-joined line. *)
Lemma C1_counterexample :
  SortImports default empty_fs two_from_statements
  <> Ok (Some ("from a import b, c" ++ nl)%string).
Proof. vm_compute. discriminate. Qed.

(** ** C5: the first part of a dotless name *)

(** C5: [find] gives [-1] for a name without a dot, [-1] is true for
    [if index:], and [moduleName[:-1]] drops the last character: [oss] is
    not in [known_standard_library], has no dot, and is placed in [STDLIB]
    because [os] is in the table. *)
Theorem C5_dotless_name_first_part (fs : FileSystem) :
  (find "oss" "." = -1)%Z
  /\ mem "oss" (known_standard_library default) = false
  /\ mem "os" (known_standard_library default) = true
  /\ place_module default fs "oss" = Ok STDLIB.
Proof. repeat split; reflexivity. Qed.

(** ** C6: the key of [length_sort] *)

(** C6: with [length_sort] the key holds the length as a decimal string,
    and strings compare character by character: the key of the ten-letter
    [subprocess] is below the key of the two-letter [os], and [subprocess]
    is rendered first. *)
Theorem C6_length_keys_compare_as_strings (fs : FileSystem) :
  let config := with_length_sort default true in
  String.length "os" = 2
  /\ String.length "subprocess" = 10
  /\ _module_key "os" config = "B2:os"
  /\ _module_key "subprocess" config = "B10:subprocess"
  /\ String.ltb (_module_key "subprocess" config) (_module_key "os" config)
     = true
  /\ SortImports config fs ("import os" ++ nl ++ "import subprocess" ++ nl)
     = Ok (Some ("import subprocess" ++ nl ++ "import os" ++ nl)%string).
Proof. repeat split; vm_compute; reflexivity. Qed.

(** ** C8: a dangling [as] after a complete pair *)

(** C8: the guard of line 390 looks at the first [as] only. In
    [import a as b, c as] the first pair is recorded and removed, the loop
    finds the dangling [as] and [imports[index + 1]] raises: the
    constructor fails with an [IndexError], for every configuration and
    file system. *)
Theorem C8_dangling_as_after_pair_raises (config : Config) (fs : FileSystem) :
  tokenize "import a as b, c as" = ["a"; "as"; "b"; "c"; "as"]
  /\ record_aliases Straight ["a"; "as"; "b"; "c"; "as"] [] = Raise IndexError
  /\ SortImports config fs ("import a as b, c as" ++ nl) = Raise IndexError.
Proof. repeat split; vm_compute; reflexivity. Qed.

(** A dangling [as] alone is kept as a token and no alias is recorded. *)
Lemma lone_dangling_as_tolerated kind as_map :
  record_aliases kind ["a"; "as"] as_map = Ok (["a"; "as"], as_map).
Proof. reflexivity. Qed.

(** ** C7: [force_to_top] *)

Section ForceToTop.

Variable config : Config.

Local Abbreviation forced := (forced config).
Local Abbreviation split_list := (split_list config).

Lemma key_of_forced x :
  forced x = true -> exists r, key_of config x = String "A" r.
Proof.
  unfold forced, key_of, _module_key. intros ->. eexists. reflexivity.
Qed.

Lemma key_of_unforced x :
  forced x = false -> exists r, key_of config x = String "B" r.
Proof.
  unfold forced, key_of, _module_key. intros ->. eexists. reflexivity.
Qed.

Lemma leb_forced_unforced x y :
  forced x = true -> forced y = false ->
  String.leb (key_of config x) (key_of config y) = true
  /\ String.leb (key_of config y) (key_of config x) = false.
Proof.
  intros Hx Hy.
  destruct (key_of_forced x Hx) as [r ->].
  destruct (key_of_unforced y Hy) as [r' ->].
  split; reflexivity.
Qed.

Lemma insert_unforced_all x l :
  forced x = false ->
  Forall (fun x => forced x = false) l ->
  Forall (fun x => forced x = false) (insert_by_key (key_of config) x l).
Proof.
  intros Hx. induction 1 as [|y l Hy Hl IH]; simpl.
  - constructor; auto.
  - destruct (String.leb _ _); repeat constructor; auto.
Qed.

Lemma insert_split x l :
  split_list l -> split_list (insert_by_key (key_of config) x l).
Proof.
  intros (l1 & l2 & -> & H1 & H2).
  destruct (forced x) eqn:Hx.
  - induction H1 as [|a l1 Ha H1 IH]; simpl.
    + exists [x], l2. split; [|split; auto].
      destruct l2 as [|y l2]; [reflexivity|]. simpl.
      inversion H2; subst.
      destruct (leb_forced_unforced x y Hx) as [-> _]; auto.
    + destruct (String.leb (key_of config x) (key_of config a)).
      * exists (x :: a :: l1), l2. split; [reflexivity|].
        split; auto.
      * destruct IH as (l1' & l2' & E & F1 & F2).
        exists (a :: l1'), l2'. simpl. rewrite E. auto.
  - induction H1 as [|a l1 Ha H1 IH].
    + exists [], (insert_by_key (key_of config) x l2).
      split; [reflexivity|]. split; [constructor|].
      now apply insert_unforced_all.
    + simpl. destruct (leb_forced_unforced a x Ha Hx) as [_ ->].
      destruct IH as (l1' & l2' & E & F1 & F2).
      exists (a :: l1'), l2'. simpl. rewrite E. auto.
Qed.

Lemma sorted_split l : split_list (sorted (key_of config) l).
Proof.
  induction l as [|x l IH]; simpl.
  - exists [], []. repeat split; constructor.
  - now apply insert_split.
Qed.

Lemma split_list_order l x y i j :
  split_list l ->
  forced x = true -> forced y = false ->
  nth_error l i = Some x -> nth_error l j = Some y -> i < j.
Proof.
  intros (l1 & l2 & -> & H1 & H2) Hx Hy Hi Hj.
  rewrite Forall_forall in H1, H2.
  destruct (Nat.lt_ge_cases i (List.length l1)) as [Li|Li].
  - destruct (Nat.lt_ge_cases j (List.length l1)) as [Lj|Lj]; [|lia].
    rewrite nth_error_app1 in Hj by assumption.
    apply nth_error_In, H1 in Hj. congruence.
  - rewrite nth_error_app2 in Hi by assumption.
    apply nth_error_In, H2 in Hi. congruence.
Qed.

End ForceToTop.

(** C7 (as amended): in every list the renderer sorts (the straight
    modules of a section, its [from] modules, the symbols of one [from]
    import), a name whose lowercased form is in [force_to_top] stands
    before every name that is in [force_to_top] neither as it is nor
    lowercased. *)
Theorem C7_forced_names_sort_first (config : Config) (names : list string)
  (x y : string) (i j : nat) :
  mem (lower x) (force_to_top config) = true ->
  mem y (force_to_top config) = false ->
  mem (lower y) (force_to_top config) = false ->
  nth_error (sorted (key_of config) names) i = Some x ->
  nth_error (sorted (key_of config) names) j = Some y ->
  i < j.
Proof.
  intros Hx _ Hy. apply split_list_order with (config := config); auto.
  apply sorted_split.
Qed.

Lemma C7_forced_names_sort_first_witness :
  nth_error (sorted (key_of (with_force_to_top default ["zlib"]))
               ["os"; "abc"; "zlib"]) 0 = Some "zlib"
  /\ nth_error (sorted (key_of (with_force_to_top default ["zlib"]))
                  ["os"; "abc"; "zlib"]) 1 = Some "abc"
  /\ 0 < 1.
Proof.
  split; [reflexivity|]. split; [reflexivity|].
  apply (C7_forced_names_sort_first (with_force_to_top default ["zlib"])
           ["os"; "abc"; "zlib"] "zlib" "abc" 0 1); reflexivity.
Defined.

(** C7 (as stated) fails: [zlib] is in [force_to_top], [os] is not, both
    are placed in [STDLIB], and the straight import of [os] is rendered
    before the [from] import of [zlib]. *)
Lemma C7_counterexample :
  let config := with_force_to_top default ["zlib"] in
  place_module config empty_fs "zlib" = Ok STDLIB
  /\ place_module config empty_fs "os" = Ok STDLIB
  /\ mem "zlib" (force_to_top config) = true
  /\ mem "os" (force_to_top config) = false
  /\ SortImports config empty_fs
       ("from zlib import x" ++ nl ++ "import os" ++ nl)
     = Ok (Some ("import os" ++ nl ++ "from zlib import x" ++ nl)%string).
Proof. repeat split; vm_compute; reflexivity. Qed.

(** An entry of [force_to_top] with a capital letter never matches: the
    name is lowercased before it is looked up. *)
Lemma force_to_top_entry_with_capital :
  let config := with_force_to_top default ["Zebra"] in
  forced config "Zebra" = false
  /\ sorted (key_of config) ["Zebra"; "apple"] = ["apple"; "Zebra"].
Proof. split; reflexivity. Qed.

(** ** What the scanner leaves alone *)

Ltac inv_bind H :=
  match type of H with
  | bind ?m _ = Ok _ =>
      let r := fresh "r" in
      let E := fresh "E" in
      destruct m as [r| |] eqn:E; simpl in H; [|discriminate H..]
  end.

Lemma _get_line_spec st r :
  _get_line st = Ok r ->
  nth_error (in_lines st) (index st) = Some (fst r)
  /\ snd r = set_index st (index st + 1).
Proof.
  unfold _get_line. destruct (nth_error _ _); [|discriminate].
  intros [= <-]. auto.
Qed.

Lemma only_index_moved_refl st : only_index_moved st st.
Proof. repeat split; auto. Qed.

Lemma only_index_moved_get_line st r st' :
  _get_line st = Ok r -> only_index_moved (snd r) st' ->
  only_index_moved st st'.
Proof.
  intros G (H1 & H2 & H3 & H4 & H5 & H6 & H7).
  apply _get_line_spec in G. destruct G as [_ G]. rewrite G in *.
  simpl in *. repeat split; auto. lia.
Qed.

Lemma paren_loop_frame fuel :
  forall line s st r,
    paren_loop fuel line s st = Ok r -> only_index_moved st (snd r).
Proof.
  induction fuel as [|fuel IH]; intros line s st r; simpl;
    destruct (negb _ && negb _); try discriminate;
    try (intros [= <-]; apply only_index_moved_refl).
  intros H. inv_bind H.
  eapply only_index_moved_get_line; eauto.
Qed.

Lemma backslash_loop_frame fuel :
  forall line s st r,
    backslash_loop fuel line s st = Ok r -> only_index_moved st (snd r).
Proof.
  induction fuel as [|fuel IH]; intros line s st r; simpl;
    destruct (endswith _ _); try discriminate;
    try (intros [= <-]; apply only_index_moved_refl).
  intros H. inv_bind H.
  eapply only_index_moved_get_line; eauto.
Qed.

Lemma read_statement_frame line st r :
  read_statement line st = Ok r -> only_index_moved st (snd r).
Proof.
  unfold read_statement. destruct (_ && _).
  - apply paren_loop_frame.
  - apply backslash_loop_frame.
Qed.

Section ParserFrame.

Variable place : string -> result section_key.

Lemma store_from_frame tokens st st' :
  store_from place tokens st = Ok st' ->
  st' = set_imports st (imports st').
Proof.
  destruct tokens as [|m symbols]; simpl; [discriminate|].
  intros H. inv_bind H. inv_bind H.
  injection H as <-. reflexivity.
Qed.

Lemma store_straight_frame tokens :
  forall st st', store_straight place tokens st = Ok st' ->
                 st' = set_imports st (imports st').
Proof.
  induction tokens as [|m tokens IH]; simpl; intros st st' H.
  - injection H as <-. now destruct st.
  - inv_bind H. inv_bind H. apply IH in H. rewrite H. reflexivity.
Qed.

(** A statement leaves [out_lines] and the input alone and sets
    [import_index] if it is not set yet. *)
Lemma parse_statement_frame kind line st st' :
  parse_statement place kind line st = Ok st' ->
  in_lines st' = in_lines st
  /\ number_of_lines st' = number_of_lines st
  /\ out_lines st' = out_lines st
  /\ index st <= index st'
  /\ import_index st' = match import_index st with
                        | None => Some (index st - 1)
                        | Some i => Some i
                        end.
Proof.
  unfold parse_statement.
  set (st0 := match import_index st with
              | None => set_import_index st (Some (index st - 1))
              | Some _ => st
              end).
  assert (F0 : in_lines st0 = in_lines st
               /\ number_of_lines st0 = number_of_lines st
               /\ out_lines st0 = out_lines st
               /\ index st0 = index st
               /\ import_index st0 = match import_index st with
                                     | None => Some (index st - 1)
                                     | Some i => Some i
                                     end).
  { unfold st0. destruct (import_index st) eqn:I; simpl; auto. }
  clearbody st0. destruct F0 as (F1 & F2 & F3 & F4 & F5).
  intros H. inv_bind H. inv_bind H.
  apply read_statement_frame in E.
  destruct E as (H1 & H2 & H3 & H4 & H5 & H6 & H7).
  assert (F : st' = set_imports (set_as_map (snd r) (snd r0)) (imports st')).
  { destruct kind; [eapply store_straight_frame | eapply store_from_frame];
      eauto. }
  rewrite F. simpl. rewrite H1, H2, H3, H6, F1, F2, F3, F5.
  repeat split; auto. lia.
Qed.

Lemma parse_loop_import_index fuel :
  forall in_quote st st' i,
    parse_loop place fuel in_quote st = Ok st' ->
    import_index st = Some i -> import_index st' = Some i.
Proof.
  induction fuel as [|fuel IH]; intros in_quote st st' i; simpl;
    destruct (_at_end st); try discriminate;
    try (intros [= <-]; auto).
  intros H Hi. inv_bind H.
  apply _get_line_spec in E. destruct E as [_ E].
  assert (Hr : import_index (snd r) = Some i) by (rewrite E; exact Hi).
  destruct (_import_type (fst r)) as [kind|];
    [destruct in_quote|]; try (eapply IH; eauto; fail).
  inv_bind H. apply parse_statement_frame in E0.
  destruct E0 as (_ & _ & _ & _ & E0). rewrite Hr in E0.
  eapply IH; eauto.
Qed.

(** When no import is found every line is copied to [out_lines]. *)
Lemma parse_loop_no_import fuel :
  forall in_quote st st',
    parse_loop place fuel in_quote st = Ok st' ->
    import_index st' = None ->
    number_of_lines st = List.length (in_lines st) ->
    out_lines st' = out_lines st ++ skipn (index st) (in_lines st).
Proof.
  induction fuel as [|fuel IH]; intros in_quote st st'; simpl;
    destruct (_at_end st) eqn:A; try discriminate.
  - intros [= <-] _ L. apply Nat.eqb_eq in A.
    rewrite A, L, skipn_all, app_nil_r. reflexivity.
  - intros [= <-] _ L. apply Nat.eqb_eq in A.
    rewrite A, L, skipn_all, app_nil_r. reflexivity.
  - intros H N L. inv_bind H.
    apply _get_line_spec in E. destruct E as [G E].
    assert (S1 : skipn (index st) (in_lines st)
                 = fst r :: skipn (S (index st)) (in_lines st)).
    { clear - G. revert G. generalize (index st) as n.
      induction (in_lines st) as [|x l IHl]; intros [|n]; simpl;
        try discriminate.
      - now intros [= ->].
      - intros G. rewrite (IHl n G). now destruct n. }
    assert (Copy : forall q,
               parse_loop place fuel q
                 (set_out_lines (snd r) (out_lines (snd r) ++ [fst r]))
               = Ok st' ->
               out_lines st' = out_lines st ++ skipn (index st) (in_lines st)).
    { intros q Hq. apply IH in Hq; auto.
      - rewrite Hq, S1, E. simpl. rewrite <- app_assoc.
        rewrite Nat.add_1_r. reflexivity.
      - rewrite E. simpl. exact L. }
    destruct (_import_type (fst r)) as [kind|];
      [destruct in_quote|]; try (eapply Copy; eauto; fail).
    inv_bind H. apply parse_statement_frame in E0.
    destruct E0 as (_ & _ & _ & _ & E0).
    destruct (import_index (snd r)) as [i|] eqn:I;
      eapply parse_loop_import_index in H; eauto; congruence.
Qed.

End ParserFrame.

(** ** C3: a text without imports *)

Lemma split_not_nil sep s : split sep s <> [].
Proof.
  destruct s as [|c s]; simpl; [discriminate|].
  destruct (Ascii.eqb c sep); [discriminate|].
  destruct (split sep s); discriminate.
Qed.

Lemma join_cons_char sep c h t :
  join sep (String c h :: t) = String c (join sep (h :: t)).
Proof. destruct t; reflexivity. Qed.

(** [join] undoes [split]. *)
Lemma join_split s : join nl (split newline s) = s.
Proof.
  induction s as [|c s IH]; [reflexivity|]. simpl.
  destruct (Ascii.eqb_spec c newline) as [->|N].
  - destruct (split newline s) as [|h t] eqn:E.
    + now apply split_not_nil in E.
    + change (join nl ("" :: h :: t)) with (nl ++ join nl (h :: t))%string.
      rewrite IH. reflexivity.
  - destruct (split newline s) as [|h t] eqn:E.
    + now apply split_not_nil in E.
    + rewrite join_cons_char, IH. reflexivity.
Qed.

(** C3 (as amended): when no import is detected ([import_index] is still
    [-1] after [_parse]) and the file is not skipped, the output is the
    lines of the input, followed by the lines of [add_imports], without
    the blank lines at the end and closed by one newline; it is the input
    itself when [add_imports] is empty and the input already ends so. *)
Theorem C3_no_import_output (config : Config) (fs : FileSystem)
  (file_contents : string) (st : State) :
  contains file_contents "isort:skip_file" = false ->
  _parse config fs (initial_state config file_contents) = Ok st ->
  import_index st = None ->
  let lines := split newline file_contents ++ add_imports config in
  SortImports config fs file_contents
  = Ok (Some (join nl (rstrip_blank lines ++ [""])))
  /\ (add_imports config = [] ->
      rstrip_blank (split newline file_contents) ++ [""]
      = split newline file_contents ->
      SortImports config fs file_contents = Ok (Some file_contents)).
Proof.
  intros Skip P N lines.
  assert (O : out_lines st = lines).
  { unfold _parse, _parse_with in P.
    apply parse_loop_no_import in P; auto. }
  assert (R : SortImports config fs file_contents
              = Ok (Some (join nl (rstrip_blank lines ++ [""])))).
  { unfold SortImports, SortImports_with. rewrite Skip.
    unfold _parse in P. rewrite P. cbn [bind]. rewrite N. cbn [bind].
    rewrite O. reflexivity. }
  split; [exact R|].
  intros A E. rewrite R. unfold lines. rewrite A, app_nil_r, E.
  now rewrite join_split.
Qed.

Lemma C3_no_import_output_witness :
  SortImports default empty_fs ("x = 1" ++ nl ++ nl ++ nl)
  = Ok (Some ("x = 1" ++ nl)%string).
Proof.
  refine (proj1 (C3_no_import_output default empty_fs
                   ("x = 1" ++ nl ++ nl ++ nl)
                   (set_out_lines
                      (set_index
                         (initial_state default ("x = 1" ++ nl ++ nl ++ nl)) 4)
                      ["x = 1"; ""; ""; ""])
                   _ _ _)); reflexivity.
Defined.

(** C3 (as stated) fails: no import is detected in [x], and the output is
    [x] with a newline added. *)
Lemma C3_counterexample :
  (exists st, _parse default empty_fs (initial_state default "x") = Ok st
              /\ import_index st = None)
  /\ SortImports default empty_fs "x" = Ok (Some ("x" ++ nl)%string)
  /\ ("x" ++ nl)%string <> "x".
Proof.
  split; [|split].
  - eexists. split; reflexivity.
  - reflexivity.
  - discriminate.
Qed.

(** ** Dictionaries and sets *)

Section DictFacts.

Context {K V : Type}.
Variable eqb : K -> K -> bool.
Hypothesis eqb_spec : forall a b, eqb a b = true <-> a = b.

Lemma dict_get_set_same k (v : V) d :
  dict_get eqb k (dict_set eqb k v d) = Some v.
Proof.
  induction d as [|[k' v'] d IH]; simpl.
  - now rewrite (proj2 (eqb_spec k k)).
  - destruct (eqb k' k) eqn:E; simpl; rewrite E; auto.
Qed.

Lemma dict_get_set_other k k2 (v : V) d :
  k2 <> k -> dict_get eqb k2 (dict_set eqb k v d) = dict_get eqb k2 d.
Proof.
  intros N. induction d as [|[k' v'] d IH]; simpl.
  - destruct (eqb k k2) eqn:E; [|reflexivity].
    apply eqb_spec in E. congruence.
  - destruct (eqb k' k) eqn:E; simpl.
    + apply eqb_spec in E. subst k'.
      destruct (eqb k k2) eqn:E2; [|reflexivity].
      apply eqb_spec in E2. congruence.
    + destruct (eqb k' k2); auto.
Qed.

Lemma dict_get_In_keys k (d : list (K * V)) :
  In k (map fst d) -> exists v, dict_get eqb k d = Some v.
Proof.
  induction d as [|[k' v'] d IH]; simpl; [contradiction|].
  intros [->|H].
  - rewrite (proj2 (eqb_spec k k)) by reflexivity. eauto.
  - destruct (eqb k' k); eauto.
Qed.

End DictFacts.

Lemma section_key_eqb_spec a b : section_key_eqb a b = true <-> a = b.
Proof.
  destruct a as [n|s], b as [m|t]; simpl; split; try discriminate.
  - intros H. apply Nat.eqb_eq in H. now subst.
  - intros [= ->]. apply Nat.eqb_refl.
  - intros H. apply String.eqb_eq in H. now subst.
  - intros [= ->]. apply String.eqb_refl.
Qed.

Lemma string_eqb_spec a b : String.eqb a b = true <-> a = b.
Proof. apply String.eqb_eq. Qed.

Lemma mem_In x l : mem x l = true <-> In x l.
Proof.
  unfold mem. rewrite existsb_exists. split.
  - intros (y & H & E). apply String.eqb_eq in E. now subst.
  - intros H. exists x. split; auto. apply String.eqb_refl.
Qed.

Lemma set_add_In x y s : In y (set_add x s) <-> y = x \/ In y s.
Proof.
  unfold set_add. destruct (mem x s) eqn:M.
  - apply mem_In in M. split; auto. intros [->|H]; auto.
  - rewrite in_app_iff. simpl. intuition.
Qed.

Lemma insert_by_key_In key x y l :
  In y (insert_by_key key x l) <-> y = x \/ In y l.
Proof.
  induction l as [|z l IH]; simpl.
  - intuition.
  - destruct (String.leb _ _); simpl; [intuition|].
    rewrite IH. intuition.
Qed.

Lemma sorted_In key y l : In y (sorted key l) <-> In y l.
Proof.
  induction l as [|x l IH]; simpl; [reflexivity|].
  rewrite insert_by_key_In, IH. intuition.
Qed.

Lemma sorted_nil key l : sorted key l = [] <-> l = [].
Proof.
  split; [|now intros ->].
  destruct l as [|x l]; auto. intros H.
  assert (I : In x (sorted key (x :: l))) by (apply sorted_In; now left).
  rewrite H in I. contradiction.
Qed.

(** ** The renderer appends to [output] *)

Lemma bind_Ok {A B} (m : result A) (k : A -> result B) b :
  bind m k = Ok b -> exists a, m = Ok a /\ k a = Ok b.
Proof. destruct m; simpl; try discriminate. eauto. Qed.

Section RendererAppends.

Variable config : Config.

Lemma render_straight_app as_map modules :
  forall output,
    render_straight config as_map modules output
    = output ++ render_straight config as_map modules [].
Proof.
  unfold render_straight.
  induction modules as [|m modules IH]; intros output; simpl.
  - now rewrite app_nil_r.
  - rewrite IH. symmetry. rewrite IH. symmetry.
    destruct (mem m (remove_imports config)).
    + reflexivity.
    + destruct (dict_get String.eqb m as_map); simpl;
        now rewrite <- app_assoc.
Qed.

Lemma render_aliased_app as_map module import_start symbols :
  forall remaining output,
    render_aliased as_map module import_start symbols remaining output
    = (output ++ fst (render_aliased as_map module import_start symbols
                        remaining []),
       snd (render_aliased as_map module import_start symbols
              remaining [])).
Proof.
  induction symbols as [|x symbols IH]; intros remaining output; simpl.
  - now rewrite app_nil_r.
  - destruct (dict_get String.eqb _ as_map) as [[|c a]|].
    + apply IH.
    + rewrite IH. symmetry. rewrite IH. simpl.
      now rewrite <- app_assoc.
    + apply IH.
Qed.

Lemma render_plain_app import_start from_imports output :
  render_plain import_start from_imports output
  = output ++ render_plain import_start from_imports [].
Proof.
  unfold render_plain. destruct from_imports as [|x l].
  - now rewrite app_nil_r.
  - destruct (mem "*" (x :: l)); reflexivity.
Qed.

Lemma render_from_module_app as_map from_dict module output :
  render_from_module config as_map from_dict module output
  = (block <- render_from_module config as_map from_dict module [] ;;
     Ok (output ++ block)).
Proof.
  unfold render_from_module.
  destruct (mem module (remove_imports config)); simpl.
  - now rewrite app_nil_r.
  - destruct (dict_get String.eqb module from_dict); simpl; [|reflexivity].
    rewrite render_aliased_app. simpl.
    rewrite render_plain_app. symmetry. rewrite render_plain_app.
    now rewrite app_assoc.
Qed.

Lemma render_from_app as_map from_dict modules :
  forall output,
    render_from config as_map from_dict modules output
    = (block <- render_from config as_map from_dict modules [] ;;
       Ok (output ++ block)).
Proof.
  induction modules as [|m modules IH]; intros output; simpl.
  - now rewrite app_nil_r.
  - rewrite render_from_module_app.
    destruct (render_from_module config as_map from_dict m [])
      as [b| |]; simpl; try reflexivity.
    rewrite IH. symmetry. rewrite IH.
    destruct (render_from config as_map from_dict modules [])
      as [b'| |]; simpl; try reflexivity.
    now rewrite app_assoc.
Qed.

Lemma render_section_app st section output :
  render_section config st section output
  = (block <- render_section config st section [] ;;
     Ok (output ++ block)).
Proof.
  unfold render_section.
  destruct (imports_get st section) as [bucket| |]; simpl; try reflexivity.
  rewrite (render_straight_app _ _ output).
  set (S0 := render_straight config (as_map st) _ []).
  rewrite (render_from_app _ _ _ (output ++ S0)).
  rewrite (render_from_app _ _ _ S0).
  destruct (render_from config (as_map st) (from bucket) _ [])
    as [b| |]; simpl; try reflexivity.
  destruct (sorted (key_of config) (straight bucket));
    destruct (sorted (key_of config) (map fst (from bucket)));
    simpl; rewrite <- ?app_assoc; reflexivity.
Qed.

Lemma render_sections_app st sections :
  forall output,
    render_sections config st sections output
    = (blocks <- render_sections config st sections [] ;;
       Ok (output ++ blocks)).
Proof.
  induction sections as [|s sections IH]; intros output; simpl.
  - now rewrite app_nil_r.
  - rewrite render_section_app.
    destruct (render_section config st s []) as [b| |]; simpl;
      try reflexivity.
    rewrite IH. symmetry. rewrite IH.
    destruct (render_sections config st sections []) as [b'| |]; simpl;
      try reflexivity.
    now rewrite app_assoc.
Qed.

End RendererAppends.

(** ** The entries of a section *)

Lemma is_blank_nonspace c r : isspace c = false -> is_blank (String c r) = false.
Proof.
  intros H. unfold is_blank, strip. simpl.
  destruct (rstrip r); rewrite ?H; simpl; rewrite H; reflexivity.
Qed.

Lemma str_app_assoc (a b c : string) :
  ((a ++ b) ++ c = a ++ b ++ c)%string.
Proof. induction a as [|x a IH]; simpl; congruence. Qed.

Lemma str_app_nil_r (a : string) : (a ++ "" = a)%string.
Proof. induction a as [|x a IH]; simpl; congruence. Qed.

Lemma str_length_app (a b : string) :
  String.length (a ++ b) = String.length a + String.length b.
Proof. induction a as [|x a IH]; simpl; congruence. Qed.

Lemma fold_left_statement_prefix import_start others :
  forall acc,
    exists rest,
      fold_left
        (fun import_statement from_import =>
           (import_statement ++ nl ++ import_start ++ from_import)%string)
        others acc
      = (acc ++ rest)%string.
Proof.
  induction others as [|x others IH]; intros acc; cbn [fold_left].
  - exists "". now rewrite str_app_nil_r.
  - destruct (IH (acc ++ nl ++ import_start ++ x)%string) as [rest E].
    rewrite E. exists ((nl ++ import_start ++ x) ++ rest)%string.
    now rewrite str_app_assoc.
Qed.

Section Entries.

Variable config : Config.

Lemma render_straight_nonblank as_map modules :
  forall output,
    Forall nonblank output ->
    Forall nonblank (render_straight config as_map modules output).
Proof.
  unfold render_straight.
  induction modules as [|m modules IH]; intros output H; simpl; auto.
  apply IH. destruct (mem m (remove_imports config)); auto.
  destruct (dict_get String.eqb m as_map);
    apply Forall_app; split; auto; repeat constructor;
    apply (is_blank_nonspace "i"); reflexivity.
Qed.

Lemma render_aliased_nonblank as_map module c r symbols :
  isspace c = false ->
  forall remaining output,
    Forall nonblank output ->
    Forall nonblank
      (fst (render_aliased as_map module (String c r) symbols
              remaining output)).
Proof.
  intros Hc.
  induction symbols as [|x symbols IH]; intros remaining output H; simpl;
    auto.
  destruct (dict_get String.eqb _ as_map) as [[|d a]|]; auto.
  apply IH. apply Forall_app; split; auto.
  repeat constructor. now apply is_blank_nonspace.
Qed.

Lemma render_plain_nonblank c r from_imports output :
  isspace c = false ->
  Forall nonblank output ->
  Forall nonblank (render_plain (String c r) from_imports output).
Proof.
  intros Hc H. unfold render_plain.
  destruct from_imports as [|x l]; auto.
  destruct (mem "*" (x :: l)); apply Forall_app; split; auto;
    repeat constructor.
  - now apply is_blank_nonspace.
  - destruct (fold_left_statement_prefix (String c r) l
                (String c r ++ x)%string) as [rest ->].
    now apply is_blank_nonspace.
Qed.

Lemma render_from_module_total as_map from_dict module output :
  In module (map fst from_dict) ->
  Forall nonblank output ->
  exists output',
    render_from_module config as_map from_dict module output = Ok output'
    /\ Forall nonblank output'.
Proof.
  intros I H. unfold render_from_module.
  destruct (mem module (remove_imports config)); [eauto|].
  destruct (dict_get_In_keys String.eqb string_eqb_spec _ _ I) as [v ->].
  eexists. split; [reflexivity|].
  apply render_plain_nonblank; [reflexivity|].
  apply (render_aliased_nonblank as_map module "f"); [reflexivity | exact H].
Qed.

Lemma render_from_total as_map from_dict modules :
  (forall m, In m modules -> In m (map fst from_dict)) ->
  forall output,
    Forall nonblank output ->
    exists output',
      render_from config as_map from_dict modules output = Ok output'
      /\ Forall nonblank output'.
Proof.
  induction modules as [|m modules IH]; intros I output H; simpl.
  - eauto.
  - destruct (render_from_module_total as_map from_dict m output)
      as (o1 & -> & H1); auto.
    + apply I. now left.
    + simpl. apply IH; auto. intros x Hx. apply I. now right.
Qed.

End Entries.

Lemma sorted_nonempty_match {X : Type} key (l : list string)
  (d : list (string * list string)) (a b : X) :
  match sorted key l, sorted key (map fst d) with
  | [], [] => a
  | _, _ => b
  end
  = match l, d with
    | [], [] => a
    | _, _ => b
    end.
Proof.
  destruct (sorted key l) as [|x l'] eqn:E1.
  - apply sorted_nil in E1. subst l.
    destruct (sorted key (map fst d)) as [|y d'] eqn:E2.
    + apply sorted_nil in E2. now destruct d.
    + destruct d; [discriminate E2 | reflexivity].
  - destruct l; [discriminate E1 | reflexivity].
Qed.

Lemma render_section_block config st section bucket :
  imports_get st section = Ok bucket ->
  exists block, section_block config st section block.
Proof.
  intros G.
  destruct (render_from_total config (as_map st) (from bucket)
              (sorted (key_of config) (map fst (from bucket)))
              ltac:(intros m; apply sorted_In)
              (render_straight config (as_map st)
                 (sorted (key_of config) (straight bucket)) []))
    as (entries & R & N).
  { apply render_straight_nonblank. constructor. }
  exists (entries ++ match straight bucket, from bucket with
                     | [], [] => []
                     | _, _ => [""]
                     end), bucket, entries.
  split; [exact G|]. split; [|split; [exact N|split; [reflexivity|]]].
  - unfold render_section. rewrite G. cbn [bind]. rewrite R. cbn [bind].
    rewrite sorted_nonempty_match.
    destruct (straight bucket), (from bucket); rewrite ?app_nil_r;
      reflexivity.
  - intros S1 F1. rewrite S1, F1 in R. simpl in R. now injection R as <-.
Qed.

(** ** C9: the order of the sections *)

Lemma offset_S blocks :
  forall n b, nth_error blocks n = Some b ->
              offset blocks (S n) = offset blocks n + List.length b.
Proof.
  unfold offset.
  induction blocks as [|b0 blocks IH]; intros [|n] b H; simpl in *;
    try discriminate.
  - injection H as ->. now rewrite app_nil_r.
  - rewrite !length_app. rewrite (IH n b H). simpl. lia.
Qed.

Lemma offset_mono blocks :
  forall n m, n <= m -> offset blocks n <= offset blocks m.
Proof.
  unfold offset.
  induction blocks as [|b0 blocks IH]; intros n m L.
  - rewrite !firstn_nil. auto.
  - destruct n as [|n]; [simpl; lia|].
    destruct m as [|m]; [lia|]. simpl. rewrite !length_app.
    specialize (IH n m). lia.
Qed.

Lemma nth_error_concat_offset blocks :
  forall n b k e,
    nth_error blocks n = Some b -> nth_error b k = Some e ->
    nth_error (concat blocks) (offset blocks n + k) = Some e.
Proof.
  unfold offset.
  induction blocks as [|b0 blocks IH]; intros [|n] b k e H K; simpl in *;
    try discriminate.
  - injection H as ->. rewrite nth_error_app1; auto.
    apply nth_error_Some. congruence.
  - rewrite length_app, <- Nat.add_assoc, nth_error_app2 by lia.
    replace (_ + _ - _) with (List.length (concat (firstn n blocks)) + k)
      by lia.
    eapply IH; eauto.
Qed.

Lemma rstrip_blank_prefix l :
  exists trimmed,
    l = rstrip_blank l ++ trimmed
    /\ Forall (fun e => is_blank e = true) trimmed.
Proof.
  induction l as [|x l (t & E & F)]; simpl.
  - exists []. auto.
  - destruct (rstrip_blank l) as [|y r]; simpl in E.
    + subst t. destruct (is_blank x) eqn:B.
      * exists (x :: l). split; auto.
      * exists l. split; auto.
    + exists t. split; auto. simpl. congruence.
Qed.

Lemma rstrip_blank_last l d :
  rstrip_blank l <> [] -> is_blank (last (rstrip_blank l) d) = false.
Proof.
  induction l as [|x l IH]; simpl; [congruence|].
  destruct (rstrip_blank l) as [|y r].
  - destruct (is_blank x) eqn:B; [congruence | auto].
  - intros _. apply IH. discriminate.
Qed.

Lemma nth_error_before_trimmed (l output trimmed : list string) i e :
  l = output ++ trimmed ->
  Forall (fun e => is_blank e = true) trimmed ->
  nth_error l i = Some e -> nonblank e ->
  nth_error output i = Some e.
Proof.
  intros -> F H N.
  destruct (Nat.lt_ge_cases i (List.length output)) as [L|L].
  - now rewrite nth_error_app1 in H.
  - rewrite nth_error_app2 in H by assumption.
    apply nth_error_In in H. rewrite Forall_forall in F.
    apply F in H. unfold nonblank in N. congruence.
Qed.

Lemma render_sections_blocks config st sections :
  (forall section, In section sections ->
                   exists bucket, imports_get st section = Ok bucket) ->
  exists blocks,
    render_sections config st sections [] = Ok (concat blocks)
    /\ Forall2 (section_block config st) sections blocks.
Proof.
  induction sections as [|s sections IH]; intros P.
  - exists []. split; [reflexivity | constructor].
  - destruct (P s) as [bucket G]; [now left|].
    destruct (render_section_block config st s bucket G) as [block B].
    destruct IH as (blocks & R & F).
    { intros x Hx. apply P. now right. }
    exists (block :: blocks). split; [|constructor; auto].
    simpl. destruct B as (b' & entries & _ & -> & _).
    simpl. rewrite render_sections_app, R. reflexivity.
Qed.

(** C9 (as amended): when [self.imports] holds every section (as
    [__init__] makes it), the renderer goes through [FUTURE], [STDLIB],
    [THIRDPARTY], [FIRSTPARTY], [LOCALFOLDER] and then the
    [forced_separate] sections in their configured order; each section adds
    its entries, none of them blank, and then one empty line exactly when
    its record holds a straight module or a [from] module, which is tested
    before [remove_imports] is applied and whether or not the [from] module
    has symbols (so a section can add the empty line alone); the rendered
    block is the concatenation of what the sections add, without the blank
    entries at its end; and every entry of an earlier section stands before
    every entry of a later one. *)
Theorem C9_sections_in_order (config : Config) (st : State) :
  (forall section, In section (all_sections config) ->
                   exists bucket, imports_get st section = Ok bucket) ->
  all_sections config
  = [FUTURE; STDLIB; THIRDPARTY; FIRSTPARTY; LOCALFOLDER]
      ++ map Forced (forced_separate config)
  /\ exists blocks output trimmed,
      formatted_output config st = Ok output
      /\ Forall2 (section_block config st) (all_sections config) blocks
      /\ concat blocks = output ++ trimmed
      /\ Forall (fun e => is_blank e = true) trimmed
      /\ (forall d, output <> [] -> is_blank (last output d) = false)
      /\ forall n1 n2 b1 b2 k1 k2 e1 e2,
          n1 < n2 ->
          nth_error blocks n1 = Some b1 -> nth_error blocks n2 = Some b2 ->
          nth_error b1 k1 = Some e1 -> nth_error b2 k2 = Some e2 ->
          offset blocks n1 + k1 < offset blocks n2 + k2
          /\ nth_error (concat blocks) (offset blocks n1 + k1) = Some e1
          /\ nth_error (concat blocks) (offset blocks n2 + k2) = Some e2
          /\ (nonblank e1 ->
              nth_error output (offset blocks n1 + k1) = Some e1)
          /\ (nonblank e2 ->
              nth_error output (offset blocks n2 + k2) = Some e2).
Proof.
  intros P. split; [reflexivity|].
  destruct (render_sections_blocks config st (all_sections config) P)
    as (blocks & R & F).
  destruct (rstrip_blank_prefix (concat blocks)) as (trimmed & E & T).
  exists blocks, (rstrip_blank (concat blocks)), trimmed.
  split; [unfold formatted_output; now rewrite R|].
  split; [exact F|]. split; [exact E|]. split; [exact T|].
  split; [intros d; apply rstrip_blank_last|].
  intros n1 n2 b1 b2 k1 k2 e1 e2 L B1 B2 K1 K2.
  pose proof (nth_error_concat_offset blocks n1 b1 k1 e1 B1 K1) as C1.
  pose proof (nth_error_concat_offset blocks n2 b2 k2 e2 B2 K2) as C2.
  split; [|split; [exact C1|split; [exact C2|split]]].
  - pose proof (offset_S blocks n1 b1 B1) as S1.
    pose proof (offset_mono blocks (S n1) n2 L) as M.
    assert (k1 < List.length b1) by (apply nth_error_Some; congruence).
    lia.
  - intros N. eapply nth_error_before_trimmed; eauto.
  - intros N. eapply nth_error_before_trimmed; eauto.
Qed.

Lemma C9_sections_in_order_witness :
  exists blocks output,
    formatted_output default C9_state = Ok output
    /\ output = ["import os"; ""; "from a import b"]
    /\ Forall2 (section_block default C9_state) (all_sections default) blocks.
Proof.
  destruct (C9_sections_in_order default C9_state)
    as (_ & blocks & output & trimmed & H1 & H2 & _).
  - intros section H. simpl in H.
    destruct H as [<-|[<-|[<-|[<-|[<-|[]]]]]]; eexists; reflexivity.
  - exists blocks, output. split; [exact H1|]. split; [|exact H2].
    vm_compute in H1. now injection H1 as <-.
Defined.

(** C9 (as stated) fails: a section whose modules are all in
    [remove_imports] has no line and still gets its separator, so two empty
    lines follow the [FUTURE] section; and a [from] statement without
    symbols gives a separator alone, so the output starts with an empty
    line. *)
Lemma C9_counterexample :
  SortImports (with_remove_imports default ["os"]) empty_fs C9_three_sections
  = Ok (Some ("from __future__ import division" ++ nl ++ nl ++ nl
              ++ "import requests" ++ nl)%string)
  /\ SortImports default empty_fs C9_no_symbols
     = Ok (Some (nl ++ "import requests" ++ nl)%string).
Proof. split; vm_compute; reflexivity. Qed.

(** ** C10: a straight import of several modules *)

Section StraightImports.

Variable config : Config.
Variable place : string -> result section_key.

Lemma store_straight_keeps tokens :
  forall st st' key bucket m,
    store_straight place tokens st = Ok st' ->
    imports_get st key = Ok bucket -> In m (straight bucket) ->
    exists bucket',
      imports_get st' key = Ok bucket' /\ In m (straight bucket').
Proof.
  induction tokens as [|t tokens IH]; simpl; intros st st' key bucket m H G I.
  - injection H as <-. eauto.
  - apply bind_Ok in H. destruct H as (k & Pk & H).
    apply bind_Ok in H. destruct H as (b & Gb & H).
    unfold imports_get in *.
    destruct (section_key_eqb k key) eqn:E.
    + apply section_key_eqb_spec in E. subst k.
      eapply IH; [exact H| |].
      * simpl. rewrite (dict_get_set_same _ section_key_eqb_spec).
        reflexivity.
      * simpl. apply set_add_In. right.
        destruct (dict_get section_key_eqb key (imports st));
          [|discriminate].
        injection Gb as <-. now injection G as <-.
    + eapply IH; [exact H| |exact I].
      simpl. rewrite (dict_get_set_other _ section_key_eqb_spec); auto.
      intros ->. rewrite (proj2 (section_key_eqb_spec k k)) in E;
        [discriminate | reflexivity].
Qed.

Lemma store_straight_adds tokens :
  forall st st' m,
    store_straight place tokens st = Ok st' -> In m tokens ->
    exists key bucket,
      place m = Ok key
      /\ imports_get st' key = Ok bucket /\ In m (straight bucket).
Proof.
  induction tokens as [|t tokens IH]; simpl; intros st st' m H I;
    [contradiction|].
  apply bind_Ok in H. destruct H as (k & Pk & H).
  apply bind_Ok in H. destruct H as (b & Gb & H).
  destruct I as [->|I]; [|eapply IH; eauto].
  exists k.
  destruct (store_straight_keeps tokens _ st' k
              {| straight := set_add m (straight b); from := from b |} m H)
    as (b' & G' & I').
  - unfold imports_get. simpl.
    now rewrite (dict_get_set_same _ section_key_eqb_spec).
  - simpl. apply set_add_In. now left.
  - eauto.
Qed.

Lemma render_straight_incl as_map modules :
  forall output e,
    In e output -> In e (render_straight config as_map modules output).
Proof.
  intros output e I. rewrite render_straight_app.
  apply in_or_app. now left.
Qed.

Lemma render_straight_line as_map modules m :
  In m modules ->
  mem m (remove_imports config) = false ->
  dict_get String.eqb m as_map = None ->
  forall output,
    In ("import " ++ m)%string
      (render_straight config as_map modules output).
Proof.
  intros I R A.
  induction modules as [|x modules IH]; intros output; [contradiction|].
  destruct I as [->|I].
  - unfold render_straight. simpl. rewrite R, A.
    apply render_straight_incl. apply in_or_app. right. now left.
  - unfold render_straight. simpl. apply IH; auto.
Qed.

End StraightImports.

(** C10: after a straight statement with the modules [modules] (the
    tokens left by [tokenize], [import a, b] giving [a] and [b]), each
    module is classified by its own call of [place_module] and is in the
    straight set of the section it was placed in; and a section renders
    each straight module that is neither removed nor aliased as the entry
    [import <module>]. *)
Theorem C10_one_record_per_module (config : Config) (fs : FileSystem)
  (modules : list string) (st st' : State) (m : string) :
  store_straight (place_module config fs) modules st = Ok st' ->
  In m modules ->
  tokenize "import a, b" = ["a"; "b"]
  /\ exists key bucket,
      place_module config fs m = Ok key
      /\ imports_get st' key = Ok bucket
      /\ In m (straight bucket)
      /\ (mem m (remove_imports config) = false ->
          dict_get String.eqb m (as_map st') = None ->
          exists block,
            render_section config st' key [] = Ok block
            /\ In ("import " ++ m)%string block).
Proof.
  intros H I. split; [reflexivity|].
  destruct (store_straight_adds _ modules st st' m H I)
    as (key & bucket & P & G & S).
  exists key, bucket. repeat (split; [assumption|]).
  intros R A.
  destruct (render_section_block config st' key bucket G)
    as (block & b' & entries & G' & RS & _).
  exists block. split; [exact RS|].
  unfold render_section in RS. rewrite G in RS. cbn [bind] in RS.
  apply bind_Ok in RS. destruct RS as (out & RF & RS).
  assert (Io : In ("import " ++ m)%string out).
  { rewrite render_from_app in RF.
    apply bind_Ok in RF. destruct RF as (blk & _ & RF).
    injection RF as <-. apply in_or_app. left.
    apply render_straight_line; auto. now apply sorted_In. }
  destruct (sorted (key_of config) (straight bucket));
    destruct (sorted (key_of config) (map fst (from bucket)));
    injection RS as <-; auto; apply in_or_app; now left.
Qed.

Lemma C10_one_record_per_module_witness :
  exists st',
    store_straight (place_module default empty_fs)
      ["os"; "google.appengine.api"] (initial_state default "") = Ok st'
    /\ exists key bucket,
        place_module default empty_fs "google.appengine.api" = Ok key
        /\ imports_get st' key = Ok bucket
        /\ In "google.appengine.api" (straight bucket).
Proof.
  eexists. split; [reflexivity|].
  destruct (C10_one_record_per_module default empty_fs
              ["os"; "google.appengine.api"] (initial_state default "") _
              "google.appengine.api" eq_refl (or_intror (or_introl eq_refl)))
    as (_ & key & bucket & P & G & S & _).
  exists key, bucket. auto.
Defined.

(** The statement [import os, google.appengine.api] end to end: the two
    modules land in two sections and each gets a line of its own. *)
Example straight_import_split (fs : FileSystem) :
  SortImports default fs ("import os, google.appengine.api" ++ nl)
  = Ok (Some ("import os" ++ nl ++ nl
              ++ "import google.appengine.api" ++ nl)%string).
Proof. vm_compute. reflexivity. Qed.

(** ** C4: the length of wrapped lines *)

Lemma has_char_app c a b :
  has_char c (a ++ b) = has_char c a || has_char c b.
Proof.
  induction a as [|d a IH]; simpl; [reflexivity|].
  now rewrite IH, orb_assoc.
Qed.

Lemma split_no_sep sep s : has_char sep s = false -> split sep s = [s].
Proof.
  induction s as [|c s IH]; simpl; [reflexivity|].
  intros H. apply orb_false_iff in H. destruct H as [H1 H2].
  rewrite H1, (IH H2). reflexivity.
Qed.

Lemma split_app_sep sep a b :
  split sep (a ++ String sep b) = split sep a ++ split sep b.
Proof.
  induction a as [|c a IH]; simpl.
  - now rewrite Ascii.eqb_refl.
  - destruct (Ascii.eqb c sep); rewrite IH; [reflexivity|].
    destruct (split sep a) as [|h t] eqn:E; [|reflexivity].
    now apply split_not_nil in E.
Qed.

Lemma join_cons sep x y l :
  join sep (x :: y :: l) = (x ++ sep ++ join sep (y :: l))%string.
Proof. reflexivity. Qed.

(** [split] undoes [join] on lines without a newline. *)
Lemma split_join ls :
  ls <> [] -> Forall (fun l => has_char newline l = false) ls ->
  split newline (join nl ls) = ls.
Proof.
  induction ls as [|x [|y r] IH]; intros N F.
  - congruence.
  - inversion F; subst. now apply split_no_sep.
  - inversion F; subst. rewrite join_cons.
    change (x ++ nl ++ join nl (y :: r))%string
      with (x ++ String newline (join nl (y :: r)))%string.
    rewrite split_app_sep, split_no_sep by assumption.
    rewrite IH; auto. discriminate.
Qed.

Lemma join_cons_nonempty sep x l :
  l <> [] -> join sep (x :: l) = (x ++ sep ++ join sep l)%string.
Proof. destruct l; [congruence | reflexivity]. Qed.

Lemma join_snoc_app done cur t :
  (join nl (done ++ [cur]) ++ t)%string = join nl (done ++ [cur ++ t]%string).
Proof.
  induction done as [|x done IH]; [reflexivity|].
  rewrite <- !app_comm_cons.
  rewrite !join_cons_nonempty by now destruct done.
  now rewrite !str_app_assoc, IH.
Qed.

Lemma join_snoc_line lines t :
  lines <> [] ->
  (join nl lines ++ nl ++ t)%string = join nl (lines ++ [t]).
Proof.
  induction lines as [|x lines IH]; intros N; [congruence|].
  rewrite <- app_comm_cons.
  rewrite (join_cons_nonempty nl x (lines ++ [t])) by now destruct lines.
  destruct lines as [|y r]; [reflexivity|].
  rewrite join_cons_nonempty by discriminate.
  rewrite !str_app_assoc, IH by discriminate. reflexivity.
Qed.

Lemma last_line_join done cur :
  Forall no_newline done -> no_newline cur ->
  last_line (join nl (done ++ [cur])) = cur.
Proof.
  intros F C. unfold last_line. rewrite split_join.
  - apply last_last.
  - now destruct done.
  - apply Forall_app. split; auto.
Qed.

Lemma grid_loop_rows white_space line_length imports :
  no_newline white_space ->
  Forall no_newline imports ->
  forall done cur,
    Forall no_newline done -> no_newline cur ->
    let r := grid_rows done cur imports white_space line_length in
    grid_loop (join nl (done ++ [cur])) imports white_space line_length
    = join nl (fst r ++ [snd r])
    /\ Forall no_newline (fst r) /\ no_newline (snd r).
Proof.
  intros W F. induction F as [|x imports X F IH]; intros done cur D C.
  - simpl. auto.
  - cbn [grid_loop grid_rows].
    rewrite (join_snoc_app done cur (", " ++ x)).
    rewrite last_line_join; auto.
    2:{ unfold no_newline in *. rewrite !has_char_app, C, X. reflexivity. }
    destruct (line_length <? _)%nat.
    + replace (join nl (done ++ [cur]) ++ "," ++ nl ++ white_space ++ x)%string
        with (join nl ((done ++ [cur ++ ","]%string)
                         ++ [white_space ++ x]%string)).
      * apply IH.
        -- apply Forall_app. split; auto. repeat constructor.
           unfold no_newline in *. rewrite has_char_app, C. reflexivity.
        -- unfold no_newline in *. now rewrite has_char_app, W, X.
      * rewrite <- join_snoc_line by now destruct done.
        rewrite <- join_snoc_app, !str_app_assoc. reflexivity.
    + apply IH; auto.
      unfold no_newline in *. rewrite !has_char_app, C, X. reflexivity.
Qed.

Section GridBound.

Variable line_length : nat.
Variable all : list string.
(** The two texts a line can start with before its first symbol. *)
Variables head0 white_space : string.

Local Abbreviation single_symbol := (single_symbol all head0 white_space).
Local Abbreviation open_row := (open_row line_length all head0 white_space).
Local Abbreviation closed_row := (closed_row line_length all head0 white_space).

Lemma close_row tail cur :
  String.length tail = 1 -> open_row cur ->
  closed_row tail (cur ++ tail).
Proof.
  intros T [L|(head & s & I & H & ->)].
  - left. rewrite str_length_app. lia.
  - right. exists head, s. repeat split; auto.
    now rewrite !str_app_assoc.
Qed.

Lemma grid_rows_bound imports :
  incl imports all ->
  forall done cur (P : string -> Prop),
    Forall P done -> open_row cur ->
    let r := grid_rows done cur imports white_space line_length in
    Forall (fun line => P line \/ closed_row "," line) (fst r)
    /\ open_row (snd r).
Proof.
  induction imports as [|x imports IH]; intros I done cur P D C.
  - simpl. split; auto. eapply Forall_impl; [|exact D]. auto.
  - cbn [grid_rows].
    destruct (line_length <? _)%nat eqn:E.
    + destruct (IH (fun y Hy => I y (or_intror Hy))
                  (done ++ [cur ++ ","]%string) (white_space ++ x)%string
                  (fun line => P line \/ closed_row "," line))
        as [F O].
      * apply Forall_app. split.
        -- eapply Forall_impl; [|exact D]. auto.
        -- constructor; [|constructor]. right. now apply close_row.
      * right. exists white_space, x.
        repeat split; auto; [apply I; now left|].
        now rewrite str_app_nil_r.
      * split; auto. eapply Forall_impl; [|exact F].
        intros a [[H|H]|H]; auto.
    + apply IH; auto.
      * intros y Hy. apply I. now right.
      * left. apply Nat.ltb_ge in E. lia.
Qed.

End GridBound.

Lemma no_newline_app a b : no_newline a -> no_newline b -> no_newline (a ++ b).
Proof. unfold no_newline. intros A B. now rewrite has_char_app, A, B. Qed.

(** C4 (as amended): in the text [_output_grid] and [_output_vertical_grid]
    return for a non-empty list of symbols, a line is at most [line_length]
    long unless it holds a single symbol: under Grid the opening line
    [statement(symbol] or an aligned line [white_space symbol], under
    Vertical Grid the opening line [statement(] or an indented line
    [indent symbol], each possibly followed by its comma or closing
    parenthesis. A line with two or more symbols never exceeds the
    limit. *)
Theorem C4_wrapped_line_bound (statement : string) (imports : list string)
  (white_space indent : string) (line_length : nat) :
  imports <> [] ->
  no_newline statement -> no_newline white_space -> no_newline indent ->
  Forall no_newline imports ->
  (exists out,
     _output_grid statement imports white_space indent line_length = Ok out
     /\ forall line,
         In line (split newline out) ->
         String.length line <= line_length
         \/ exists s tail,
             In s imports /\ (tail = "," \/ tail = ")")
             /\ (line = (statement ++ "(" ++ s ++ tail)%string
                 \/ line = (white_space ++ s ++ tail)%string))
  /\ (exists out,
        _output_vertical_grid statement imports white_space indent line_length
        = Ok out
        /\ forall line,
            In line (split newline out) ->
            String.length line <= line_length
            \/ line = (statement ++ "(")%string
            \/ exists s tail,
                In s imports /\ (tail = "," \/ tail = ")")
                /\ line = (indent ++ s ++ tail)%string).
Proof.
  intros N S W I F. destruct imports as [|first rest]; [congruence|].
  inversion F as [|? ? F1 Fr]; subst.
  split.
  - set (cur0 := (statement ++ "(" ++ first)%string).
    assert (C0 : no_newline cur0).
    { repeat apply no_newline_app; auto; reflexivity. }
    destruct (grid_loop_rows white_space line_length rest W Fr [] cur0
                (Forall_nil _) C0) as (E & D & C).
    destruct (grid_rows_bound line_length (first :: rest)
                (statement ++ "(")%string white_space rest
                (fun y Hy => or_intror Hy) [] cur0 (fun _ => False)
                (Forall_nil _)) as (B & O).
    { right. exists (statement ++ "(")%string, first.
      repeat split; auto; [now left|].
      unfold cur0. now rewrite !str_app_assoc, str_app_nil_r. }
    set (r := grid_rows [] cur0 rest white_space line_length) in *.
    eexists. split; [reflexivity|].
    fold cur0. change cur0 with (join nl ([] ++ [cur0])).
    rewrite E, join_snoc_app, split_join.
    2:{ now destruct (fst r). }
    2:{ apply Forall_app. split; auto. repeat constructor.
        apply no_newline_app; auto. reflexivity. }
    intros line L. apply in_app_or in L.
    assert (Conv : forall tail, (tail = "," \/ tail = ")") ->
                     closed_row line_length (first :: rest)
                       (statement ++ "(")%string white_space tail line ->
                     String.length line <= line_length
                     \/ exists s tail,
                         In s (first :: rest) /\ (tail = "," \/ tail = ")")
                         /\ (line = (statement ++ "(" ++ s ++ tail)%string
                             \/ line = (white_space ++ s ++ tail)%string)).
    { intros tail T [Le|(head & s & Is & [->| ->] & ->)]; auto; right;
        exists s, tail; repeat split; auto.
      left. now rewrite !str_app_assoc. }
    destruct L as [L|[<-|[]]].
    + rewrite Forall_forall in B. destruct (B line L) as [[]|Cl].
      apply (Conv ","); auto.
    + apply (Conv ")"); auto. apply close_row; auto.
  - set (cur0 := (indent ++ first)%string).
    assert (C0 : no_newline cur0) by now apply no_newline_app.
    assert (D0 : Forall no_newline [(statement ++ "(")%string]).
    { repeat constructor. apply no_newline_app; auto. reflexivity. }
    destruct (grid_loop_rows indent line_length rest I Fr
                [(statement ++ "(")%string] cur0 D0 C0) as (E & D & C).
    destruct (grid_rows_bound line_length (first :: rest) indent indent rest
                (fun y Hy => or_intror Hy) [(statement ++ "(")%string] cur0
                (fun l => l = (statement ++ "(")%string))
      as (B & O).
    { repeat constructor. }
    { right. exists indent, first. repeat split; auto; [now left|].
      unfold cur0. now rewrite str_app_nil_r. }
    set (r := grid_rows [(statement ++ "(")%string] cur0 rest indent
                line_length) in *.
    eexists. split.
    { unfold _output_vertical_grid, _output_vertical_grid_common.
      cbn [bind]. reflexivity. }
    replace (statement ++ "(" ++ nl ++ indent ++ first)%string
      with (join nl ([(statement ++ "(")%string] ++ [cur0])).
    2:{ unfold cur0. simpl. now rewrite !str_app_assoc. }
    rewrite E, join_snoc_app, split_join.
    2:{ now destruct (fst r). }
    2:{ apply Forall_app. split; auto. repeat constructor.
        apply no_newline_app; auto. reflexivity. }
    intros line L. apply in_app_or in L.
    assert (Conv : forall tail, (tail = "," \/ tail = ")") ->
                     closed_row line_length (first :: rest) indent indent
                       tail line ->
                     String.length line <= line_length
                     \/ line = (statement ++ "(")%string
                     \/ exists s tail,
                         In s (first :: rest) /\ (tail = "," \/ tail = ")")
                         /\ line = (indent ++ s ++ tail)%string).
    { intros tail T [Le|(head & s & Is & [->| ->] & ->)]; auto; right; right;
        exists s, tail; repeat split; auto. }
    destruct L as [L|[<-|[]]].
    + rewrite Forall_forall in B. destruct (B line L) as [->|Cl]; auto.
      apply (Conv ","); auto.
    + apply (Conv ")"); auto. apply close_row; auto.
Qed.

Lemma C4_wrapped_line_bound_witness :
  exists out,
    _output_grid "from a import " ["b"; "c"; "d"] "               " "    " 10
    = Ok out
    /\ forall line,
        In line (split newline out) ->
        String.length line <= 10
        \/ exists s tail,
            In s ["b"; "c"; "d"] /\ (tail = "," \/ tail = ")")
            /\ (line = ("from a import " ++ "(" ++ s ++ tail)%string
                \/ line = ("               " ++ s ++ tail)%string).
Proof.
  apply (C4_wrapped_line_bound "from a import " ["b"; "c"; "d"]
           "               " "    " 10).
  - discriminate.
  - reflexivity.
  - reflexivity.
  - reflexivity.
  - repeat constructor.
Defined.

(** C4 (as stated) fails: with [line_length] 10 and the Grid style the
    renderer emits the line [from os import path] of 19 characters,
    though the symbol [path] has 4. *)
Lemma C4_counterexample :
  let config := with_line_length default 10 in
  multi_line_output config = GRID
  /\ SortImports config empty_fs ("from os import path" ++ nl)
     = Ok (Some ("from os import path" ++ nl)%string)
  /\ line_length config < String.length "from os import path"
  /\ String.length "path" <= line_length config.
Proof.
  split; [reflexivity|]. split; [vm_compute; reflexivity|].
  split; simpl; lia.
Qed.

(** ** C2: applying the engine to its own output *)

(** *** Lines the scanner reads on their own *)

Lemma tokens_eqb_eq a : forall b, tokens_eqb a b = true <-> a = b.
Proof.
  induction a as [|x a IH]; intros [|y b]; simpl; split; try discriminate;
    auto.
  - intros H. apply andb_true_iff in H. destruct H as [H1 H2].
    apply String.eqb_eq in H1. apply IH in H2. congruence.
  - intros [= -> ->]. rewrite String.eqb_refl. now apply IH.
Qed.

Lemma kind_eqb_eq a b : kind_eqb a b = true <-> a = b.
Proof. destruct a, b; simpl; split; congruence. Qed.

Lemma reads_back_spec kind line tokens :
  reads_back kind line tokens = true ->
  simple_line line = true
  /\ _import_type line = Some kind
  /\ tokenize (_strip_comments line) = tokens.
Proof.
  unfold reads_back. intros H.
  apply andb_true_iff in H. destruct H as [H H3].
  apply andb_true_iff in H. destruct H as [H1 H2].
  split; [exact H1|]. split; [|now apply tokens_eqb_eq].
  destruct (_import_type line) as [k|]; [|discriminate].
  apply kind_eqb_eq in H2. now subst.
Qed.

(** *** The scanner on simple lines *)

Section SimpleLines.

Variable place : string -> result section_key.

Local Abbreviation store := (store place).
Local Abbreviation run_lines := (run_lines place).

Lemma store_frame kind tokens st st' :
  store kind tokens st = Ok st' -> st' = set_imports st (imports st').
Proof.
  destruct kind; [apply store_straight_frame | apply store_from_frame].
Qed.

Lemma set_as_map_same st : set_as_map st (as_map st) = st.
Proof. now destruct st. Qed.

Lemma parse_statement_simple kind line st :
  simple_line line = true -> _import_type line = Some kind ->
  parse_statement place kind line st
  = store kind (tokenize (_strip_comments line)) (mark_import st).
Proof.
  unfold simple_line. intros S K. rewrite K in S.
  apply andb_true_iff in S. destruct S as [_ S].
  apply andb_true_iff in S. destruct S as [S S3].
  apply andb_true_iff in S. destruct S as [S1 S2].
  apply negb_true_iff in S1, S2, S3.
  unfold parse_statement. fold (mark_import st).
  unfold read_statement. rewrite S1. cbn [andb backslash_loop].
  rewrite S2. cbn [bind fst snd].
  unfold record_aliases. rewrite S3. cbn [andb bind fst snd].
  rewrite set_as_map_same. now destruct kind.
Qed.

Lemma _get_line_next done line rest st :
  in_lines st = done ++ line :: rest ->
  index st = List.length done ->
  number_of_lines st = List.length (in_lines st) ->
  _at_end st = false
  /\ _get_line st = Ok (line, set_index st (index st + 1)).
Proof.
  intros I X N. split.
  - unfold _at_end. rewrite N, I, X, length_app. simpl.
    apply Nat.eqb_neq. lia.
  - unfold _get_line. rewrite I, X, nth_error_app2, Nat.sub_diag by lia.
    reflexivity.
Qed.

(** A run of lines the scanner copies. *)
Lemma parse_copied a :
  forall q done rest st fuel,
    in_lines st = done ++ a ++ rest ->
    index st = List.length done ->
    number_of_lines st = List.length (in_lines st) ->
    copy_trace q a = true ->
    parse_loop place (List.length a + fuel) q st
    = parse_loop place fuel (quote_after q a)
        (set_out_lines (set_index st (index st + List.length a))
           (out_lines st ++ a)).
Proof.
  induction a as [|line a IH]; intros q done rest st fuel I X N T.
  - cbn [List.length Nat.add quote_after fold_left].
    rewrite Nat.add_0_r, app_nil_r. now destruct st.
  - destruct (_get_line_next done line (a ++ rest) st I X N) as [A G].
    cbn [copy_trace] in T. apply andb_true_iff in T. destruct T as [C T].
    cbn [List.length Nat.add parse_loop]. rewrite A, G. cbn [bind fst snd].
    assert (B : match _import_type line, q with
                | Some kind, None =>
                    st0 <- parse_statement place kind line
                             (set_index st (index st + 1)) ;;
                    parse_loop place (List.length a + fuel)
                      (update_in_quote q line) st0
                | _, _ =>
                    parse_loop place (List.length a + fuel)
                      (update_in_quote q line)
                      (set_out_lines (set_index st (index st + 1))
                         (out_lines (set_index st (index st + 1))
                          ++ [line]))
                end
                = parse_loop place (List.length a + fuel)
                    (update_in_quote q line)
                    (set_out_lines (set_index st (index st + 1))
                       (out_lines st ++ [line]))).
    { unfold copied in C. destruct (_import_type line), q;
        try reflexivity; discriminate. }
    rewrite B. rewrite (IH _ (done ++ [line]) rest); auto.
    + cbn [quote_after fold_left]. f_equal.
      unfold set_out_lines, set_index.
      cbn [in_lines index number_of_lines out_lines imports as_map
             import_index].
      rewrite <- app_assoc. cbn [app]. f_equal. lia.
    + cbn [in_lines set_out_lines set_index]. rewrite I, <- app_assoc.
      reflexivity.
    + cbn [index set_out_lines set_index]. rewrite X, length_app.
      reflexivity.
Qed.

(** A run of simple lines read outside a quotation. *)
Lemma parse_simple a :
  forall done rest st fuel,
    in_lines st = done ++ a ++ rest ->
    index st = List.length done ->
    number_of_lines st = List.length (in_lines st) ->
    Forall (fun l => simple_line l = true) a ->
    parse_loop place (List.length a + fuel) None st
    = (st' <- run_lines a st ;; parse_loop place fuel None st').
Proof.
  induction a as [|line a IH]; intros done rest st fuel I X N F;
    [reflexivity|].
  destruct (_get_line_next done line (a ++ rest) st I X N) as [A G].
  inversion F as [|? ? S F']; subst.
  cbn [List.length Nat.add parse_loop run_lines]. rewrite A, G.
  cbn [bind fst snd].
  assert (Q : update_in_quote None line = None).
  { unfold simple_line in S. destruct (update_in_quote None line);
      [discriminate | reflexivity]. }
  rewrite Q.
  assert (Next : forall st',
             in_lines st' = in_lines st ->
             index st' = index st + 1 ->
             number_of_lines st' = number_of_lines st ->
             parse_loop place (List.length a + fuel) None st'
             = (st2 <- run_lines a st' ;; parse_loop place fuel None st2)).
  { intros st' E1 E2 E3. apply (IH (done ++ [line]) rest); auto.
    - rewrite E1, I, <- app_assoc. reflexivity.
    - rewrite E2, X, length_app. reflexivity.
    - rewrite E3, E1. exact N. }
  destruct (_import_type line) as [kind|] eqn:K.
  - rewrite parse_statement_simple by assumption.
    destruct (store kind _ _) as [st2| |] eqn:E; cbn [bind]; auto.
    apply store_frame in E. rewrite E. apply Next; simpl;
      unfold mark_import; destruct (import_index _); reflexivity.
  - apply Next; reflexivity.
Qed.

End SimpleLines.

(** *** What simple lines add to [self.imports] *)

Section Collect.

Variable place : string -> result section_key.

Local Abbreviation store_from_dict := (store_from_dict place).
Local Abbreviation store_straight_dict := (store_straight_dict place).
Local Abbreviation store_dict := (store_dict place).
Local Abbreviation collect := (collect place).

Lemma collect_app s1 s2 d :
  collect (s1 ++ s2) d = (d' <- collect s1 d ;; collect s2 d').
Proof.
  revert d. induction s1 as [|[kind tokens] s1 IH]; intros d; simpl;
    [reflexivity|].
  destruct (store_dict kind tokens d); simpl; auto.
Qed.

Lemma store_straight_dict_spec tokens :
  forall st,
    store_straight place tokens st
    = (d' <- store_straight_dict tokens (imports st) ;;
       Ok (set_imports st d')).
Proof.
  induction tokens as [|m tokens IH]; intros st; simpl.
  - now destruct st.
  - destruct (place m) as [key| |]; simpl; try reflexivity.
    unfold imports_get, lookup.
    destruct (dict_get section_key_eqb key (imports st)); simpl;
      try reflexivity.
    rewrite IH. simpl.
    destruct (store_straight_dict tokens _); reflexivity.
Qed.

Lemma store_dict_spec kind tokens st :
  store place kind tokens st
  = (d' <- store_dict kind tokens (imports st) ;; Ok (set_imports st d')).
Proof.
  destruct kind; [apply store_straight_dict_spec|].
  destruct tokens as [|m symbols]; simpl; [reflexivity|].
  destruct (place m) as [key| |]; simpl; try reflexivity.
  unfold imports_get, lookup.
  destruct (dict_get section_key_eqb key (imports st)); reflexivity.
Qed.

(** [run_lines] by components. *)
Lemma run_lines_spec lines :
  forall st,
    run_lines place lines st
    = (d' <- collect (statements lines) (imports st) ;;
       Ok {| in_lines := in_lines st;
             index := index st + List.length lines;
             number_of_lines := number_of_lines st;
             out_lines := out_lines st ++ other_lines lines;
             imports := d';
             as_map := as_map st;
             import_index :=
               match import_index st with
               | Some i => Some i
               | None =>
                   option_map (fun p => index st + p) (first_import lines)
               end |}).
Proof.
  induction lines as [|line lines IH]; intros st.
  - simpl. rewrite app_nil_r, Nat.add_0_r.
    destruct st as [a b c d e f g]. simpl. now destruct g.
  - cbn [run_lines statements flat_map other_lines filter first_import
           List.length].
    destruct (_import_type line) as [kind|] eqn:K; cbn [is_none].
    + cbn [app]. fold (statements lines).
      change (collect ((kind, tokenize (_strip_comments line))
                         :: statements lines) (imports st))
        with (d' <- store_dict kind (tokenize (_strip_comments line))
                      (imports st) ;;
              collect (statements lines) d').
      rewrite store_dict_spec.
      replace (imports (mark_import (set_index st (index st + 1))))
        with (imports st)
        by (unfold mark_import; simpl; now destruct (import_index st)).
      destruct (store_dict kind _ (imports st)) as [d1| |]; cbn [bind];
        try reflexivity.
      rewrite IH. cbn [imports set_imports].
      destruct (collect (statements lines) d1) as [d2| |]; cbn [bind];
        try reflexivity.
      f_equal. unfold mark_import. simpl.
      destruct (import_index st) as [i|] eqn:Ii; simpl; rewrite ?Ii;
        simpl; f_equal; try lia.
      f_equal. lia.
    + fold (statements lines) (other_lines lines).
      rewrite IH. simpl.
      destruct (collect (statements lines) (imports st)) as [d2| |];
        cbn [bind]; try reflexivity.
      f_equal. rewrite <- app_assoc. simpl.
      f_equal; try lia.
      destruct (import_index st); [reflexivity|].
      destruct (first_import lines); simpl; f_equal; lia.
Qed.

End Collect.

(** *** The rendered block without aliases and removals *)

Section PlainRendering.

Variable config : Config.
Hypothesis no_removals : remove_imports config = [].

Local Abbreviation shown_symbols := (shown_symbols config).
Local Abbreviation from_lines := (from_lines config).
Local Abbreviation from_entries := (from_entries config).
Local Abbreviation section_entries := (section_entries config).
Local Abbreviation section_lines := (section_lines config).

Lemma render_straight_plain modules :
  forall output,
    render_straight config [] modules output
    = output ++ map import_line modules.
Proof.
  induction modules as [|m modules IH]; intros output.
  - simpl. now rewrite app_nil_r.
  - change (render_straight config [] (m :: modules) output)
      with (render_straight config [] modules
              (if mem m (remove_imports config) then output
               else output ++ [import_line m])).
    rewrite no_removals. cbn [mem existsb].
    rewrite IH, <- app_assoc. reflexivity.
Qed.

Lemma render_aliased_plain module import_start symbols :
  forall remaining output,
    render_aliased [] module import_start symbols remaining output
    = (output, remaining).
Proof. induction symbols; intros; simpl; auto. Qed.

Lemma fold_statement_join import_start others :
  forall lines,
    lines <> [] ->
    fold_left
      (fun import_statement from_import =>
         (import_statement ++ nl ++ import_start ++ from_import)%string)
      others (join nl lines)
    = join nl (lines ++ map (fun s => (import_start ++ s)%string) others).
Proof.
  induction others as [|x others IH]; intros lines N; cbn [fold_left map].
  - now rewrite app_nil_r.
  - rewrite join_snoc_line by assumption.
    rewrite IH by now destruct lines.
    now rewrite <- app_assoc.
Qed.

Lemma from_line_start m s :
  (("from " ++ m ++ " import ") ++ s)%string = from_line m s.
Proof. unfold from_line. now rewrite !str_app_assoc. Qed.

Lemma render_plain_explicit m symbols :
  render_plain ("from " ++ m ++ " import ")
    (sorted (key_of config) symbols) []
  = from_entries m symbols.
Proof.
  unfold render_plain, from_entries, from_lines, shown_symbols.
  destruct (sorted (key_of config) symbols) as [|x l] eqn:E;
    [reflexivity|].
  destruct (mem "*" (x :: l)).
  - cbn [map app]. now rewrite from_line_start.
  - cbn [map app].
    change (("from " ++ m ++ " import ") ++ x)%string
      with (join nl [(("from " ++ m ++ " import ") ++ x)%string]).
    rewrite fold_statement_join by discriminate.
    cbn [app]. rewrite from_line_start. f_equal. f_equal. f_equal.
    apply map_ext. intros s. apply from_line_start.
Qed.

Lemma render_from_module_plain from_dict m output :
  In m (map fst from_dict) ->
  render_from_module config [] from_dict m output
  = Ok (output ++ from_entries m
                    match dict_get String.eqb m from_dict with
                    | Some symbols => symbols
                    | None => []
                    end).
Proof.
  intros I. rewrite render_from_module_app.
  unfold render_from_module. rewrite no_removals. cbn [mem existsb].
  destruct (dict_get_In_keys String.eqb string_eqb_spec _ _ I) as [v ->].
  rewrite render_aliased_plain. cbn [fst snd bind].
  now rewrite render_plain_explicit.
Qed.

Lemma render_from_plain from_dict modules :
  (forall m, In m modules -> In m (map fst from_dict)) ->
  forall output,
    render_from config [] from_dict modules output
    = Ok (output
          ++ flat_map
               (fun m => from_entries m
                           match dict_get String.eqb m from_dict with
                           | Some symbols => symbols
                           | None => []
                           end)
               modules).
Proof.
  induction modules as [|m modules IH]; intros I output; simpl.
  - now rewrite app_nil_r.
  - rewrite render_from_module_plain by (apply I; now left).
    cbn [bind]. rewrite IH by (intros x Hx; apply I; now right).
    now rewrite <- app_assoc.
Qed.

Lemma render_section_plain st section b :
  as_map st = [] -> imports_get st section = Ok b ->
  render_section config st section []
  = Ok (section_entries b ++ separator b).
Proof.
  intros A G. unfold render_section. rewrite G, A. cbn [bind].
  rewrite render_straight_plain, render_from_plain
    by (intros m; apply sorted_In).
  cbn [bind app]. rewrite sorted_nonempty_match.
  unfold section_entries, separator, symbols_of.
  destruct (straight b), (from b); rewrite ?app_nil_r; reflexivity.
Qed.

End PlainRendering.

(** *** Sorting a sorted list *)

Section SortedTwice.

Variable key : string -> string.

Local Abbreviation is_sorted := (is_sorted key).

Lemma insert_by_key_sorted x l :
  is_sorted l -> is_sorted (insert_by_key key x l).
Proof.
  induction l as [|y l IH]; intros H; [exact I|].
  cbn [insert_by_key].
  destruct (String.leb (key x) (key y)) eqn:E.
  - split; assumption.
  - assert (Lyx : String.leb (key y) (key x) = true).
    { destruct (String.leb_total (key x) (key y)); congruence. }
    destruct l as [|z l].
    + simpl. auto.
    + destruct H as [Hyz Hl]. specialize (IH Hl).
      cbn [insert_by_key] in *.
      destruct (String.leb (key x) (key z)); split; auto.
Qed.

Lemma sorted_is_sorted l : is_sorted (sorted key l).
Proof.
  induction l as [|x l IH]; [exact I|].
  now apply insert_by_key_sorted.
Qed.

Lemma sorted_fixed l : is_sorted l -> sorted key l = l.
Proof.
  induction l as [|x l IH]; intros H; [reflexivity|].
  cbn [sorted fold_right]. fold (sorted key l).
  destruct l as [|y l]; [reflexivity|].
  destruct H as [Hxy Hl]. rewrite (IH Hl).
  cbn [insert_by_key]. now rewrite Hxy.
Qed.

Lemma sorted_twice l : sorted key (sorted key l) = sorted key l.
Proof. apply sorted_fixed, sorted_is_sorted. Qed.

Lemma insert_by_key_NoDup x l :
  ~ In x l -> NoDup l -> NoDup (insert_by_key key x l).
Proof.
  induction l as [|y l IH]; intros N D; simpl.
  - constructor; auto.
  - destruct (String.leb _ _); [now constructor|].
    inversion D; subst. constructor.
    + rewrite insert_by_key_In. simpl in N. tauto.
    + apply IH; auto. simpl in N. tauto.
Qed.

Lemma sorted_NoDup l : NoDup l -> NoDup (sorted key l).
Proof.
  induction 1 as [|x l N D IH]; [constructor|].
  apply insert_by_key_NoDup; auto.
  intros H. apply (proj1 (sorted_In key x l)) in H. contradiction.
Qed.

End SortedTwice.

(** *** The order in which a set is taken *)

Lemma leb_trans a :
  forall b c,
    String.leb a b = true -> String.leb b c = true -> String.leb a c = true.
Proof.
  unfold String.leb.
  induction a as [|x a IH]; intros [|y b] [|z c]; cbn [String.compare];
    try easy.
  unfold Ascii.compare.
  destruct (N.compare_spec (N_of_ascii x) (N_of_ascii y)) as [E1|L1|G1];
    destruct (N.compare_spec (N_of_ascii y) (N_of_ascii z)) as [E2|L2|G2];
    destruct (N.compare_spec (N_of_ascii x) (N_of_ascii z)) as [E3|L3|G3];
    try easy; try lia.
  apply IH.
Qed.

Section OrderFree.

Variable key : string -> string.

Lemma insert_swap_lt x y :
  String.leb (key x) (key y) = true ->
  String.leb (key y) (key x) = false ->
  forall s,
    insert_by_key key x (insert_by_key key y s)
    = insert_by_key key y (insert_by_key key x s).
Proof.
  intros Lxy Lyx. induction s as [|z s IH]; cbn [insert_by_key].
  - now rewrite Lxy, Lyx.
  - destruct (String.leb (key y) (key z)) eqn:Lyz.
    + rewrite (leb_trans _ _ _ Lxy Lyz). cbn [insert_by_key].
      now rewrite Lxy, Lyx, Lyz.
    + destruct (String.leb (key x) (key z)) eqn:Lxz; cbn [insert_by_key].
      * now rewrite Lxz, Lyx, Lyz.
      * now rewrite Lxz, Lyz, IH.
Qed.

Lemma insert_swap x y s :
  (key x = key y -> x = y) ->
  insert_by_key key x (insert_by_key key y s)
  = insert_by_key key y (insert_by_key key x s).
Proof.
  intros I.
  destruct (String.leb (key x) (key y)) eqn:Lxy;
    destruct (String.leb (key y) (key x)) eqn:Lyx.
  - now rewrite (I (String.leb_antisym _ _ Lxy Lyx)).
  - now apply insert_swap_lt.
  - symmetry. now apply insert_swap_lt.
  - destruct (String.leb_total (key x) (key y)); congruence.
Qed.

(** When no two names have the same key, [sorted] gives the same list for
    every order in which the names are taken. *)
Lemma sorted_order_free l l' :
  Permutation l l' ->
  (forall a b, In a l -> In b l -> key a = key b -> a = b) ->
  sorted key l = sorted key l'.
Proof.
  induction 1 as [|x l l' P IH|x y l|l l' l'' P1 IH1 P2 IH2]; intros I.
  - reflexivity.
  - cbn [sorted fold_right]. fold (sorted key l). fold (sorted key l').
    rewrite IH; [reflexivity|]. intros a b Ha Hb. apply I; now right.
  - cbn [sorted fold_right]. fold (sorted key l).
    apply insert_swap. apply I; simpl; auto.
  - rewrite IH1 by exact I. apply IH2. intros a b Ha Hb.
    apply I; apply (Permutation_in _ (Permutation_sym P1)); assumption.
Qed.

End OrderFree.

Lemma no_repeat_NoDup l : no_repeat l = true -> NoDup l.
Proof.
  induction l as [|x l IH]; cbn [no_repeat]; intros H; [constructor|].
  apply andb_true_iff in H. destruct H as [M H].
  constructor; [|now apply IH].
  intros I. apply mem_In in I. rewrite I in M. discriminate.
Qed.

Lemma NoDup_map_inj {A B : Type} (f : A -> B) l :
  NoDup (map f l) -> forall a b, In a l -> In b l -> f a = f b -> a = b.
Proof.
  induction l as [|x l IH]; cbn [map]; intros D a b Ha Hb E;
    [contradiction|].
  inversion D as [|? ? N D']; subst.
  destruct Ha as [->|Ha], Hb as [->|Hb]; auto.
  - exfalso. apply N. rewrite E. now apply in_map.
  - exfalso. apply N. rewrite <- E. now apply in_map.
Qed.

(** The names of an untied set are rendered in the same order however the
    set is iterated. *)
Lemma untied_order_free config names names' :
  untied_names config names = true ->
  Permutation names names' ->
  sorted (key_of config) names = sorted (key_of config) names'.
Proof.
  intros U P. apply sorted_order_free; [exact P|].
  apply NoDup_map_inj. now apply no_repeat_NoDup.
Qed.

(** *** Sets and dictionaries filled in order *)

Lemma set_update_fresh l :
  forall acc, NoDup (acc ++ l) -> set_update l acc = acc ++ l.
Proof.
  unfold set_update.
  induction l as [|x l IH]; intros acc D; simpl.
  - now rewrite app_nil_r.
  - assert (M : mem x acc = false).
    { destruct (mem x acc) eqn:M; [|reflexivity].
      apply mem_In in M. apply NoDup_remove_2 in D.
      exfalso. apply D. apply in_or_app. now left. }
    unfold set_add at 2. rewrite M.
    rewrite IH; rewrite <- app_assoc; auto.
Qed.

Lemma dict_get_absent {V : Type} m (d : list (string * V)) :
  ~ In m (map fst d) -> dict_get String.eqb m d = None.
Proof.
  induction d as [|[k v] d IH]; simpl; intros N; [reflexivity|].
  destruct (String.eqb_spec k m) as [->|]; [tauto|]. apply IH. tauto.
Qed.

Lemma dict_set_absent {V : Type} m (v : V) (d : list (string * V)) :
  ~ In m (map fst d) -> dict_set String.eqb m v d = d ++ [(m, v)].
Proof.
  induction d as [|[k w] d IH]; simpl; intros N; [reflexivity|].
  destruct (String.eqb_spec k m) as [->|]; [tauto|].
  rewrite IH; tauto.
Qed.

Lemma dict_get_last {V : Type} m (v : V) (d : list (string * V)) :
  ~ In m (map fst d) -> dict_get String.eqb m (d ++ [(m, v)]) = Some v.
Proof.
  induction d as [|[k w] d IH]; simpl; intros N.
  - now rewrite String.eqb_refl.
  - destruct (String.eqb_spec k m) as [->|]; [tauto|]. apply IH. tauto.
Qed.

Lemma dict_set_last {V : Type} m (v w : V) (d : list (string * V)) :
  ~ In m (map fst d) ->
  dict_set String.eqb m w (d ++ [(m, v)]) = d ++ [(m, w)].
Proof.
  induction d as [|[k u] d IH]; simpl; intros N.
  - now rewrite String.eqb_refl.
  - destruct (String.eqb_spec k m) as [->|]; [tauto|].
    rewrite IH; tauto.
Qed.

Lemma dict_get_map {V : Type} (f : string -> V) m keys :
  In m keys ->
  dict_get String.eqb m (map (fun k => (k, f k)) keys) = Some (f m).
Proof.
  induction keys as [|k keys IH]; simpl; [contradiction|].
  intros I. destruct (String.eqb_spec k m) as [->|N]; [reflexivity|].
  apply IH. destruct I; congruence.
Qed.

Section DictSetTwice.

Context {K V : Type}.
Variable eqb : K -> K -> bool.
Hypothesis eqb_spec : forall a b, eqb a b = true <-> a = b.

Lemma dict_set_twice k (v w : V) d :
  dict_set eqb k w (dict_set eqb k v d) = dict_set eqb k w d.
Proof.
  induction d as [|[k' u] d IH]; simpl.
  - now rewrite (proj2 (eqb_spec k k)).
  - destruct (eqb k' k) eqn:E; simpl; rewrite E; congruence.
Qed.

Lemma dict_set_keys k (v : V) d :
  In k (map fst d) -> map fst (dict_set eqb k v d) = map fst d.
Proof.
  induction d as [|[k' u] d IH]; simpl; [contradiction|].
  intros I. destruct (eqb k' k) eqn:E; simpl; [reflexivity|].
  f_equal. apply IH. destruct I as [->|]; auto.
  rewrite (proj2 (eqb_spec k k)) in E; [discriminate | reflexivity].
Qed.

End DictSetTwice.

(** *** Collecting the statements of one section *)

Lemma dict_set_same_value {K V : Type} (eqb : K -> K -> bool) k (v : V) d :
  (forall a b, eqb a b = true <-> a = b) ->
  dict_get eqb k d = Some v -> dict_set eqb k v d = d.
Proof.
  intros S. induction d as [|[k' u] d IH]; simpl; [discriminate|].
  destruct (eqb k' k) eqn:E.
  - intros [= ->]. reflexivity.
  - intros H. now rewrite IH.
Qed.

Lemma dict_get_In {V : Type} m (d : list (string * V)) v :
  dict_get String.eqb m d = Some v -> In (m, v) d.
Proof.
  induction d as [|[k u] d IH]; simpl; [discriminate|].
  destruct (String.eqb_spec k m) as [->|].
  - intros [= ->]. now left.
  - auto.
Qed.

Section CollectSection.

Variable place : string -> result section_key.
Variable k : section_key.

Local Abbreviation set_bucket := (dict_set section_key_eqb k).
Local Abbreviation get_bucket := (dict_get section_key_eqb k).

Lemma collect_straight ms :
  forall d b0,
    (forall m, In m ms -> place m = Ok k) ->
    get_bucket d = Some b0 ->
    NoDup (straight b0 ++ ms) ->
    collect place (map (fun m => (Straight, [m])) ms) d
    = Ok (set_bucket {| straight := straight b0 ++ ms; from := from b0 |} d).
Proof.
  induction ms as [|m ms IH]; intros d b0 P G D.
  - simpl. rewrite app_nil_r.
    rewrite (dict_set_same_value _ _ _ _ section_key_eqb_spec);
      [reflexivity|].
    rewrite G. now destruct b0.
  - cbn [map collect store_dict store_straight_dict].
    rewrite (P m) by now left. cbn [bind]. unfold lookup. rewrite G.
    cbn [bind].
    assert (M : mem m (straight b0) = false).
    { destruct (mem m (straight b0)) eqn:M; [|reflexivity].
      apply mem_In in M. apply NoDup_remove_2 in D.
      exfalso. apply D. apply in_or_app. now left. }
    rewrite (IH _ (bucket_straight m b0)).
    + rewrite (dict_set_twice _ section_key_eqb_spec).
      unfold bucket_straight, set_add. rewrite M. simpl.
      now rewrite <- app_assoc.
    + intros x Hx. apply P. now right.
    + apply (dict_get_set_same _ section_key_eqb_spec).
    + unfold bucket_straight, set_add. rewrite M. simpl.
      now rewrite <- app_assoc.
Qed.

Lemma collect_from_symbols m ss :
  forall d b0 fd acc,
    place m = Ok k ->
    get_bucket d = Some b0 ->
    from b0 = fd ++ [(m, acc)] -> acc <> [] ->
    ~ In m (map fst fd) ->
    NoDup (acc ++ ss) ->
    collect place (map (fun s => (From, [m; s])) ss) d
    = Ok (set_bucket {| straight := straight b0;
                        from := fd ++ [(m, acc ++ ss)] |} d).
Proof.
  induction ss as [|s ss IH]; intros d b0 fd acc P G F A N D.
  - simpl. rewrite app_nil_r, <- F.
    rewrite (dict_set_same_value _ _ _ _ section_key_eqb_spec);
      [reflexivity|].
    rewrite G. now destruct b0.
  - cbn [map collect store_dict store_from_dict].
    rewrite P. cbn [bind]. unfold lookup. rewrite G. cbn [bind].
    assert (B : bucket_from m [s] b0
                = {| straight := straight b0;
                     from := fd ++ [(m, acc ++ [s])] |}).
    { assert (D1 : NoDup (acc ++ [s])).
      { change (s :: ss) with ([s] ++ ss) in D.
        rewrite app_assoc in D. now apply NoDup_app_remove_r in D. }
      unfold bucket_from. rewrite F, (dict_get_last m acc fd N).
      rewrite (dict_set_last m acc _ fd N).
      destruct acc as [|a acc]; [congruence|].
      now rewrite (set_update_fresh [s] (a :: acc)). }
    rewrite B.
    rewrite (IH _ {| straight := straight b0;
                     from := fd ++ [(m, acc ++ [s])] |} fd (acc ++ [s]));
      auto.
    + rewrite (dict_set_twice _ section_key_eqb_spec).
      simpl. now rewrite <- app_assoc.
    + apply (dict_get_set_same _ section_key_eqb_spec).
    + now destruct acc.
    + now rewrite <- app_assoc.
Qed.

Lemma collect_from_module m ss d b0 :
  place m = Ok k ->
  get_bucket d = Some b0 ->
  ss <> [] -> NoDup ss ->
  ~ In m (map fst (from b0)) ->
  collect place (map (fun s => (From, [m; s])) ss) d
  = Ok (set_bucket {| straight := straight b0;
                      from := from b0 ++ [(m, ss)] |} d).
Proof.
  intros P G N D A. destruct ss as [|s ss]; [congruence|].
  cbn [map collect store_dict store_from_dict].
  rewrite P. cbn [bind]. unfold lookup. rewrite G. cbn [bind].
  assert (B : bucket_from m [s] b0
              = {| straight := straight b0;
                   from := from b0 ++ [(m, [s])] |}).
  { unfold bucket_from. rewrite (dict_get_absent m _ A).
    now rewrite (dict_set_absent m _ _ A). }
  rewrite B.
  rewrite (collect_from_symbols m ss _
             {| straight := straight b0; from := from b0 ++ [(m, [s])] |}
             (from b0) [s]); auto.
  - now rewrite (dict_set_twice _ section_key_eqb_spec).
  - apply (dict_get_set_same _ section_key_eqb_spec).
  - discriminate.
Qed.

Lemma collect_from_modules (f : string -> list string) ms :
  forall d b0,
    (forall m, In m ms -> place m = Ok k /\ f m <> [] /\ NoDup (f m)) ->
    get_bucket d = Some b0 ->
    NoDup (map fst (from b0) ++ ms) ->
    collect place
      (flat_map (fun m => map (fun s => (From, [m; s])) (f m)) ms) d
    = Ok (set_bucket {| straight := straight b0;
                        from := from b0 ++ map (fun m => (m, f m)) ms |} d).
Proof.
  induction ms as [|m ms IH]; intros d b0 P G D.
  - simpl. rewrite app_nil_r.
    rewrite (dict_set_same_value _ _ _ _ section_key_eqb_spec);
      [reflexivity|].
    rewrite G. now destruct b0.
  - cbn [flat_map map]. rewrite collect_app.
    destruct (P m) as (Pm & Nm & Dm); [now left|].
    rewrite (collect_from_module m (f m) d b0); auto.
    2:{ apply NoDup_remove_2 in D. intros H. apply D.
        apply in_or_app. now left. }
    cbn [bind].
    rewrite (IH _ {| straight := straight b0;
                     from := from b0 ++ [(m, f m)] |}).
    + rewrite (dict_set_twice _ section_key_eqb_spec).
      simpl. now rewrite <- app_assoc.
    + intros x Hx. apply P. now right.
    + apply (dict_get_set_same _ section_key_eqb_spec).
    + simpl. rewrite map_app, <- app_assoc. exact D.
Qed.

End CollectSection.

(** *** What the scanner keeps true of [self.imports] *)

Lemma set_add_NoDup x s : NoDup s -> NoDup (set_add x s).
Proof.
  intros D. unfold set_add. destruct (mem x s) eqn:M; [exact D|].
  apply NoDup_app; [exact D | repeat constructor; intros [] |].
  intros y Hy [E|[]]. subst y. apply (proj2 (mem_In x s)) in Hy.
  congruence.
Qed.

Lemma set_update_NoDup l : forall s, NoDup s -> NoDup (set_update l s).
Proof.
  unfold set_update. induction l as [|x l IH]; intros s D; simpl;
    [exact D|]. apply IH. now apply set_add_NoDup.
Qed.

Lemma dict_set_In {V : Type} m (v : V) d k w :
  In (k, w) (dict_set String.eqb m v d) -> (k = m /\ w = v) \/ In (k, w) d.
Proof.
  induction d as [|[k' u] d IH]; simpl.
  - intros [[= <- <-]|[]]. now left.
  - destruct (String.eqb_spec k' m) as [->|N]; simpl.
    + intros [[= <- <-]|H]; auto.
    + intros [H|H]; auto. destruct (IH H); auto.
Qed.

Lemma dict_set_NoDup_keys {V : Type} m (v : V) d :
  NoDup (map fst d) -> NoDup (map fst (dict_set String.eqb m v d)).
Proof.
  intros D. destruct (in_dec string_dec m (map fst d)) as [I|N].
  - now rewrite (dict_set_keys String.eqb string_eqb_spec).
  - rewrite (dict_set_absent m v d N), map_app. simpl.
    apply NoDup_app; [exact D | repeat constructor; intros [] |].
    intros y Hy [E|[]]. subst y. contradiction.
Qed.

Section GoodDict.

Variable place : string -> result section_key.

Local Abbreviation good_bucket := (good_bucket place).
Local Abbreviation good_dict := (good_dict place).

Lemma good_dict_set k b d :
  good_dict d -> good_bucket k b ->
  good_dict (dict_set section_key_eqb k b d).
Proof.
  intros G B k' b'. destruct (section_key_eqb k k') eqn:E.
  - apply section_key_eqb_spec in E. subst k'.
    rewrite (dict_get_set_same _ section_key_eqb_spec). now intros [= <-].
  - rewrite (dict_get_set_other _ section_key_eqb_spec).
    + apply G.
    + intros N. subst k'.
      rewrite (proj2 (section_key_eqb_spec k k)) in E;
        [discriminate | reflexivity].
Qed.

Lemma good_bucket_straight k m b :
  place m = Ok k -> good_bucket k b -> good_bucket k (bucket_straight m b).
Proof.
  intros P (G1 & G2 & G3 & G4). repeat split; simpl; auto.
  - now apply set_add_NoDup.
  - intros x Hx. apply set_add_In in Hx. destruct Hx as [->|Hx]; auto.
  - apply (G4 _ _ H).
  - apply (G4 _ _ H).
Qed.

Lemma good_bucket_from k m symbols b :
  place m = Ok k -> good_bucket k b ->
  good_bucket k (bucket_from m symbols b).
Proof.
  intros P (G1 & G2 & G3 & G4). repeat split; simpl; auto.
  - now apply dict_set_NoDup_keys.
  - apply dict_set_In in H. destruct H as [[-> _]|H]; [exact P|].
    apply (G4 _ _ H).
  - apply dict_set_In in H. destruct H as [[-> ->]|H]; [|apply (G4 _ _ H)].
    destruct (dict_get String.eqb m (from b)) as [[|x existing]|] eqn:E;
      apply set_update_NoDup; try apply NoDup_nil.
    apply dict_get_In in E. apply (G4 _ _ E).
Qed.

Lemma store_straight_dict_good tokens :
  forall d d', store_straight_dict place tokens d = Ok d' ->
               good_dict d -> good_dict d'.
Proof.
  induction tokens as [|m tokens IH]; simpl; intros d d' H G.
  - now injection H as <-.
  - inv_bind H. inv_bind H. apply (IH _ _ H).
    apply good_dict_set; [exact G|].
    apply good_bucket_straight; [exact E|].
    apply G. unfold lookup in E0.
    destruct (dict_get section_key_eqb r d); congruence.
Qed.

Lemma store_dict_good kind tokens d d' :
  store_dict place kind tokens d = Ok d' -> good_dict d -> good_dict d'.
Proof.
  destruct kind; [apply store_straight_dict_good|].
  destruct tokens as [|m symbols]; simpl; [discriminate|].
  intros H G. inv_bind H. inv_bind H. injection H as <-.
  apply good_dict_set; [exact G|].
  apply good_bucket_from; [exact E|].
  apply G. unfold lookup in E0.
  destruct (dict_get section_key_eqb r d); congruence.
Qed.

End GoodDict.

Lemma is_none_spec {A : Type} (x : option A) : is_none x = true <-> x = None.
Proof. destruct x; simpl; split; congruence. Qed.

Lemma clean_line_spec line :
  clean_line line = true <->
  has_char newline line = false
  /\ contains line "isort:skip_file" = false.
Proof.
  unfold clean_line. rewrite andb_true_iff, !negb_true_iff. tauto.
Qed.

Lemma quote_after_app q a b :
  quote_after q (a ++ b) = quote_after (quote_after q a) b.
Proof. apply fold_left_app. Qed.

Lemma copy_trace_app a :
  forall q b,
    copy_trace q (a ++ b)
    = copy_trace q a && copy_trace (quote_after q a) b.
Proof.
  induction a as [|x a IH]; intros q b; [reflexivity|].
  cbn [app copy_trace]. rewrite IH, andb_assoc. reflexivity.
Qed.

Section ScannerInvariant.

Variable place : string -> result section_key.

Lemma parse_statement_dict kind line st st' :
  parse_statement place kind line st = Ok st' ->
  exists tokens,
    store_dict place kind tokens (imports st) = Ok (imports st').
Proof.
  unfold parse_statement. fold (mark_import st). intros H.
  inv_bind H. inv_bind H.
  apply read_statement_frame in E.
  destruct E as (_ & _ & _ & E & _).
  exists (fst r0).
  assert (S : store place kind (fst r0) (set_as_map (snd r) (snd r0))
              = Ok st') by (destruct kind; exact H).
  clear H. rename S into H.
  rewrite store_dict_spec in H. cbn [imports set_as_map] in H.
  rewrite E in H.
  replace (imports (mark_import st)) with (imports st) in H
    by (unfold mark_import; now destruct (import_index st)).
  inv_bind H. injection H as <-. reflexivity.
Qed.

(** What [_parse] keeps true: the lines in [out_lines] are lines the scanner
    copies when it reads them again, [in_quote] is the state they leave,
    and no quotation is open where the imports go. *)
Lemma parse_loop_trace fuel :
  forall q st st',
    parse_loop place fuel q st = Ok st' ->
    Forall (fun line => is_none (_import_type line)
                        || is_none (update_in_quote None line) = true)
      (in_lines st) ->
    Forall (fun line => clean_line line = true) (in_lines st) ->
    good_dict place (imports st) ->
    q = quote_after None (out_lines st) ->
    copy_trace None (out_lines st) = true ->
    Forall (fun line => clean_line line = true) (out_lines st) ->
    (import_index st = None -> index st = List.length (out_lines st)) ->
    (forall i, import_index st = Some i ->
               i <= List.length (out_lines st)
               /\ quote_after None (firstn i (out_lines st)) = None) ->
    good_dict place (imports st')
    /\ copy_trace None (out_lines st') = true
    /\ Forall (fun line => clean_line line = true) (out_lines st')
    /\ (forall i, import_index st' = Some i ->
                  i <= List.length (out_lines st')
                  /\ quote_after None (firstn i (out_lines st')) = None).
Proof.
  induction fuel as [|fuel IH]; intros q st st'; simpl;
    destruct (_at_end st); try discriminate;
    try (intros [= <-]; auto).
  intros H Q C G Eq T O N I. inv_bind H.
  apply _get_line_spec in E. destruct E as [L E].
  apply nth_error_In in L.
  pose proof (proj1 (Forall_forall _ _) Q _ L) as QL.
  pose proof (proj1 (Forall_forall _ _) C _ L) as CL.
  assert (Copy : copied q (fst r) = true ->
                 parse_loop place fuel (update_in_quote q (fst r))
                   (set_out_lines (snd r) (out_lines (snd r) ++ [fst r]))
                 = Ok st' ->
                 good_dict place (imports st')
                 /\ copy_trace None (out_lines st') = true
                 /\ Forall (fun line => clean_line line = true)
                      (out_lines st')
                 /\ (forall i, import_index st' = Some i ->
                               i <= List.length (out_lines st')
                               /\ quote_after None
                                    (firstn i (out_lines st')) = None)).
  { intros Cp H'. rewrite E in H'. apply (IH _ _ _ H'); simpl; auto.
    - rewrite quote_after_app, <- Eq. reflexivity.
    - rewrite copy_trace_app, T, <- Eq. simpl. now rewrite Cp.
    - apply Forall_app. split; [exact O|]. now constructor.
    - intros J. rewrite length_app, (N J). reflexivity.
    - intros i J. destruct (I i J) as [I1 I2]. rewrite length_app.
      split; [lia|].
      rewrite firstn_app. replace (i - List.length (out_lines st)) with 0
        by lia.
      now rewrite firstn_0, app_nil_r. }
  destruct (_import_type (fst r)) as [kind|] eqn:K.
  - destruct q as [open|] eqn:Q0.
    + apply Copy; [reflexivity | exact H].
    + assert (Q1 : update_in_quote None (fst r) = None).
      { cbn beta in QL. rewrite K in QL. cbn [is_none orb] in QL.
        now apply is_none_spec. }
      rewrite Q1 in H. inv_bind H.
      destruct (parse_statement_dict _ _ _ _ E0) as [tokens Tk].
      apply parse_statement_frame in E0.
      destruct E0 as (F1 & F2 & F3 & F4 & F5).
      rewrite E in *. cbn [in_lines out_lines imports import_index index
                             set_index] in *.
      apply (IH _ _ _ H).
      * now rewrite F1.
      * now rewrite F1.
      * eapply store_dict_good; eauto.
      * now rewrite F3.
      * now rewrite F3.
      * now rewrite F3.
      * rewrite F5. destruct (import_index st); discriminate.
      * rewrite F5, F3. intros i.
        destruct (import_index st) as [j|] eqn:J.
        -- intros [= <-]. now apply I.
        -- intros [= <-]. rewrite (N eq_refl).
           replace (List.length (out_lines st) + 1 - 1)
             with (List.length (out_lines st)) by lia.
           split; [lia|]. now rewrite firstn_all.
  - apply Copy; [|exact H]. unfold copied. rewrite K. apply orb_true_r.
Qed.

End ScannerInvariant.

(** *** Blank lines at the ends of a list *)

Lemma rstrip_blank_app X :
  forall Y,
    rstrip_blank (X ++ Y)
    = match rstrip_blank Y with
      | [] => rstrip_blank X
      | r => X ++ r
      end.
Proof.
  induction X as [|x X IH]; intros Y.
  - simpl. now destruct (rstrip_blank Y).
  - cbn [app rstrip_blank]. rewrite IH.
    destruct (rstrip_blank Y) as [|y r]; [reflexivity|].
    now destruct X.
Qed.

Lemma rstrip_blank_idem l : rstrip_blank (rstrip_blank l) = rstrip_blank l.
Proof.
  induction l as [|x l IH]; [reflexivity|]. cbn [rstrip_blank].
  destruct (rstrip_blank l) as [|y r] eqn:E.
  - destruct (is_blank x) eqn:B; [reflexivity|]. simpl. now rewrite B.
  - cbn [rstrip_blank]. cbn [rstrip_blank] in IH. rewrite IH. reflexivity.
Qed.

Lemma rstrip_blank_head x l :
  is_blank x = false -> rstrip_blank (x :: l) = x :: rstrip_blank l.
Proof.
  intros B. simpl. destruct (rstrip_blank l); [now rewrite B | reflexivity].
Qed.

Lemma lstrip_blank_app_blank X Y :
  Forall blank X -> lstrip_blank (X ++ Y) = lstrip_blank Y.
Proof.
  induction 1 as [|x X B F IH]; [reflexivity|].
  simpl. unfold blank in B. now rewrite B.
Qed.

Lemma lstrip_blank_head l x T :
  lstrip_blank l = x :: T -> is_blank x = false.
Proof.
  induction l as [|y l IH]; simpl; [discriminate|].
  destruct (is_blank y) eqn:B; [exact IH|]. now intros [= <- _].
Qed.

Lemma lstrip_blank_split l :
  exists Z, l = Z ++ lstrip_blank l /\ Forall blank Z.
Proof.
  induction l as [|y l (Z & E & F)]; simpl; [now exists []|].
  destruct (is_blank y) eqn:B; [|now exists []].
  exists (y :: Z). split; [simpl; congruence | now constructor].
Qed.

(** *** The block spliced into [out_lines] *)

Lemma pad_blank T : Forall blank (pad T).
Proof.
  unfold pad. destruct T as [|x T]; [constructor|].
  destruct (_ || _); repeat constructor.
Qed.

Lemma firstn_length_app {A : Type} (X Y : list A) :
  firstn (List.length X) (X ++ Y) = X.
Proof.
  rewrite firstn_app, Nat.sub_diag, firstn_all. simpl. apply app_nil_r.
Qed.

Lemma skipn_length_app {A : Type} (X Y : list A) :
  skipn (List.length X) (X ++ Y) = Y.
Proof.
  rewrite skipn_app, Nat.sub_diag, skipn_all. reflexivity.
Qed.

Lemma splice_spec pre B post :
  splice (List.length pre) B (pre ++ post)
  = pre ++ B ++ pad (lstrip_blank post) ++ lstrip_blank post.
Proof.
  unfold splice. rewrite firstn_length_app, skipn_length_app.
  rewrite <- length_app.
  rewrite (app_assoc pre B post), firstn_length_app, skipn_length_app.
  set (T := lstrip_blank post).
  rewrite firstn_length_app, skipn_length_app.
  rewrite nth_error_app2, Nat.sub_diag by lia.
  destruct T as [|x T]; simpl; [now rewrite <- app_assoc|].
  destruct (_ || _); now rewrite <- app_assoc.
Qed.

(** Splicing the same block into the lines left by a first splice gives
    the same lines, up to the blank ones at the end. *)
Lemma splice_again pre B Zs post :
  Forall blank Zs ->
  let T := lstrip_blank post in
  let T2 := lstrip_blank (Zs ++ rstrip_blank (pad T ++ T) ++ [""]) in
  rstrip_blank (pre ++ B ++ pad T2 ++ T2)
  = rstrip_blank (pre ++ B ++ pad T ++ T).
Proof.
  intros F T T2.
  assert (E : T2 = match T with [] => [] | _ => rstrip_blank T ++ [""] end).
  { unfold T2. rewrite lstrip_blank_app_blank by exact F.
    destruct T as [|x T'] eqn:ET; [reflexivity|].
    assert (B0 : is_blank x = false)
      by (eapply lstrip_blank_head; exact ET).
    rewrite rstrip_blank_app, (rstrip_blank_head x T' B0).
    rewrite <- app_assoc.
    rewrite lstrip_blank_app_blank by apply (pad_blank (x :: T')).
    simpl. now rewrite B0. }
  rewrite E. destruct T as [|x T'] eqn:ET; [reflexivity|].
  assert (B0 : is_blank x = false) by (eapply lstrip_blank_head; exact ET).
  rewrite (rstrip_blank_head x T' B0).
  replace (pad ((x :: rstrip_blank T') ++ [""])) with (pad (x :: T'))
    by reflexivity.
  set (P := pad (x :: T')).
  replace (pre ++ B ++ P ++ (x :: rstrip_blank T') ++ [""])
    with ((pre ++ B ++ P) ++ (x :: rstrip_blank T') ++ [""])
    by now rewrite <- !app_assoc.
  replace (pre ++ B ++ P ++ x :: T') with ((pre ++ B ++ P) ++ x :: T')
    by now rewrite <- !app_assoc.
  rewrite (rstrip_blank_app _ ((x :: rstrip_blank T') ++ [""])).
  rewrite (rstrip_blank_app _ (x :: T')).
  rewrite (rstrip_blank_app (x :: rstrip_blank T') [""]).
  change (rstrip_blank [""]) with (@nil string).
  rewrite <- (rstrip_blank_head x T' B0), rstrip_blank_idem.
  reflexivity.
Qed.

(** *** Quotations and blank lines *)

Lemma char_contained c s :
  contains s (String c "") = true -> has_char c s = true.
Proof.
  induction s as [|d s IH]; cbn [contains has_char]; intros H.
  - discriminate.
  - apply orb_true_iff in H. destruct H as [H|H].
    + cbn [prefix] in H. destruct (ascii_dec c d) as [->|]; [|discriminate].
      now rewrite Ascii.eqb_refl.
    + rewrite (IH H). apply orb_true_r.
Qed.

Lemma lstrip_spaces t :
  lstrip t = "" -> forall c, has_char c t = true -> isspace c = true.
Proof.
  induction t as [|d t IH]; simpl; intros H c Hc; [discriminate|].
  destruct (isspace d) eqn:D; [|discriminate].
  apply orb_true_iff in Hc. destruct Hc as [Hc|Hc]; [|now apply IH].
  apply Ascii.eqb_eq in Hc. now subst c.
Qed.

Lemma rstrip_spaces s :
  (forall c, has_char c (rstrip s) = true -> isspace c = true) ->
  forall c, has_char c s = true -> isspace c = true.
Proof.
  induction s as [|d s IH]; intros H c Hc; [discriminate|].
  cbn [rstrip] in H. cbn [has_char] in Hc.
  apply orb_true_iff in Hc.
  destruct (rstrip s) as [|a r] eqn:R.
  - destruct Hc as [Hc|Hc]; [|apply IH; [discriminate | exact Hc]].
    apply Ascii.eqb_eq in Hc. subst c.
    destruct (isspace d) eqn:D; [reflexivity|].
    rewrite <- D. apply H. simpl. now rewrite Ascii.eqb_refl.
  - destruct Hc as [Hc|Hc].
    + apply Ascii.eqb_eq in Hc. subst c. apply H. simpl.
      now rewrite Ascii.eqb_refl.
    + apply IH; [|exact Hc]. intros x Hx. apply H.
      cbn [has_char]. cbn [has_char] in Hx. rewrite Hx. apply orb_true_r.
Qed.

Lemma blank_spaces s :
  is_blank s = true -> forall c, has_char c s = true -> isspace c = true.
Proof.
  unfold is_blank, strip. intros H. apply String.eqb_eq in H.
  apply rstrip_spaces. now apply lstrip_spaces.
Qed.

(** A blank line holds no quotation mark. *)
Lemma blank_neutral q line : is_blank line = true -> update_in_quote q line = q.
Proof.
  intros B. unfold update_in_quote.
  destruct (contains line dq) eqn:D.
  - apply char_contained, (blank_spaces _ B) in D. discriminate.
  - destruct (contains line sq) eqn:S; [|reflexivity].
    apply char_contained, (blank_spaces _ B) in S. discriminate.
Qed.

Lemma blank_lines_neutral Z : forall q, Forall blank Z -> quote_after q Z = q.
Proof.
  induction Z as [|z Z IH]; intros q F; [reflexivity|].
  inversion F as [|? ? B F']; subst.
  cbn [quote_after fold_left]. rewrite (blank_neutral q z B).
  now apply IH.
Qed.

Lemma copy_trace_pad q T : copy_trace q (pad T ++ T) = copy_trace q T.
Proof.
  assert (E : forall l, copy_trace q ("" :: l) = copy_trace q l).
  { intros l. cbn [copy_trace]. unfold copied.
    change (_import_type "") with (@None import_kind).
    change (update_in_quote q "") with q.
    cbn [is_none]. now rewrite orb_true_r. }
  unfold pad. destruct T as [|x T]; [reflexivity|].
  destruct (_ || _); cbn [app]; now rewrite ?E.
Qed.

Lemma copy_trace_lstrip q l :
  copy_trace q l = true -> copy_trace q (lstrip_blank l) = true.
Proof.
  destruct (lstrip_blank_split l) as (Z & E & F). intros H.
  rewrite E, copy_trace_app in H. apply andb_true_iff in H.
  destruct H as [_ H]. now rewrite (blank_lines_neutral Z q F) in H.
Qed.

Lemma copy_trace_rstrip q l :
  copy_trace q l = true -> copy_trace q (rstrip_blank l) = true.
Proof.
  destruct (rstrip_blank_prefix l) as (t & E & _). intros H.
  rewrite E, copy_trace_app in H. apply andb_true_iff in H. tauto.
Qed.

Lemma clean_lines l :
  Forall (fun x => clean_line x = true) l ->
  Forall (fun x => has_char newline x = false) l
  /\ Forall (fun x => contains x "isort:skip_file" = false) l.
Proof.
  induction 1 as [|x l H F [I1 I2]]; [split; constructor|].
  apply clean_line_spec in H. split; constructor; tauto.
Qed.

Lemma rstrip_blank_Forall (P : string -> Prop) l :
  Forall P l -> Forall P (rstrip_blank l).
Proof.
  intros F. destruct (rstrip_blank_prefix l) as (t & E & _).
  rewrite E in F. now apply Forall_app in F.
Qed.

Lemma lstrip_blank_Forall (P : string -> Prop) l :
  Forall P l -> Forall P (lstrip_blank l).
Proof.
  intros F. destruct (lstrip_blank_split l) as (Z & E & _).
  rewrite E in F. now apply Forall_app in F.
Qed.

(** *** Substrings of joined lines *)

Lemma prefix_nil s : prefix "" s = true.
Proof. now destruct s. Qed.

Lemma prefix_app p : forall s t, prefix p s = true -> prefix p (s ++ t) = true.
Proof.
  induction p as [|c p IH]; intros s t; [intros; apply prefix_nil|].
  destruct s as [|d s]; simpl; [discriminate|].
  destruct (ascii_dec c d); [apply IH | discriminate].
Qed.

Lemma prefix_contains p s : prefix p s = true -> contains s p = true.
Proof. intros H. destruct s; cbn [contains]; now rewrite H. Qed.

Lemma contains_app_l s t p :
  contains s p = true -> contains (s ++ t) p = true.
Proof.
  induction s as [|c s IH]; cbn [contains]; intros H.
  - rewrite orb_false_r in H. apply prefix_contains.
    now apply (prefix_app p "" t).
  - apply orb_true_iff in H. destruct H as [H|H].
    + apply prefix_contains. now apply prefix_app.
    + cbn [append contains]. rewrite (IH H). apply orb_true_r.
Qed.

Lemma contains_app_r s t p :
  contains t p = true -> contains (s ++ t) p = true.
Proof.
  intros H. induction s as [|c s IH]; cbn [append contains]; [exact H|].
  rewrite IH. apply orb_true_r.
Qed.

Lemma prefix_shorter p q : forall s, prefix (p ++ q) s = true -> prefix p s = true.
Proof.
  induction p as [|c p IH]; intros s; [intros; apply prefix_nil|].
  destruct s as [|d s]; simpl; [discriminate|].
  destruct (ascii_dec c d); [apply IH | discriminate].
Qed.

Lemma contains_shorter p q s :
  contains s (p ++ q) = true -> contains s p = true.
Proof.
  induction s as [|c s IH]; cbn [contains]; intros H.
  - rewrite orb_false_r in H. apply prefix_shorter in H.
    now rewrite H.
  - apply orb_true_iff in H. destruct H as [H|H].
    + apply prefix_shorter in H. now rewrite H.
    + rewrite (IH H). apply orb_true_r.
Qed.

Lemma prefix_before_sep c p :
  has_char c p = false ->
  forall a b, prefix p (a ++ String c b) = true -> prefix p a = true.
Proof.
  induction p as [|x p IH]; intros H a b; [intros; apply prefix_nil|].
  simpl in H. apply orb_false_iff in H. destruct H as [H1 H2].
  destruct a as [|y a]; simpl.
  - destruct (ascii_dec x c) as [->|]; [|discriminate].
    now rewrite Ascii.eqb_refl in H1.
  - destruct (ascii_dec x y); [apply (IH H2) | discriminate].
Qed.

Lemma contains_sep c p a b :
  has_char c p = false ->
  contains (a ++ String c b) p = true ->
  contains a p = true \/ contains b p = true.
Proof.
  intros N. induction a as [|y a IH]; intros H.
  - change (prefix p ("" ++ String c b) || contains b p = true) in H.
    apply orb_true_iff in H. destruct H as [H|H]; [left | now right].
    apply prefix_contains. now apply (prefix_before_sep c p N "" b).
  - change (prefix p (String y a ++ String c b)
            || contains (a ++ String c b) p = true) in H.
    apply orb_true_iff in H. destruct H as [H|H].
    + left. apply prefix_contains.
      now apply (prefix_before_sep c p N (String y a) b).
    + destruct (IH H) as [I|I]; [left | now right].
      cbn [contains]. rewrite I. apply orb_true_r.
Qed.

Lemma contains_join_none p lines :
  has_char newline p = false -> lines <> [] ->
  Forall (fun l => contains l p = false) lines ->
  contains (join nl lines) p = false.
Proof.
  intros N. induction lines as [|x lines IH]; intros E F; [congruence|].
  inversion F as [|? ? Fx Fl]; subst.
  destruct lines as [|y r]; [exact Fx|].
  rewrite join_cons_nonempty by discriminate.
  destruct (contains (x ++ nl ++ join nl (y :: r)) p) eqn:C;
    [|reflexivity].
  apply (contains_sep newline p x _ N) in C.
  destruct C as [C|C]; [congruence|].
  rewrite IH in C; [discriminate | discriminate | assumption].
Qed.

Lemma contains_join_some p l lines :
  In l lines -> contains l p = true -> contains (join nl lines) p = true.
Proof.
  intros I C. induction lines as [|x lines IH]; [contradiction|].
  destruct lines as [|y r].
  - destruct I as [->|[]]. exact C.
  - rewrite join_cons_nonempty by discriminate.
    destruct I as [->|I].
    + now apply contains_app_l.
    + apply contains_app_r, contains_app_r. now apply IH.
Qed.

Lemma contains_line p s l :
  contains s p = false -> In l (split newline s) -> contains l p = false.
Proof.
  intros C I. destruct (contains l p) eqn:E; [|reflexivity].
  rewrite <- (join_split s), (contains_join_some p l _ I E) in C.
  discriminate.
Qed.

(** *** The lines of joined entries *)

Lemma split_lines sep s :
  Forall (fun l => has_char sep l = false) (split sep s).
Proof.
  induction s as [|c s IH]; simpl; [repeat constructor|].
  destruct (Ascii.eqb c sep) eqn:E; [now constructor|].
  destruct (split sep s) as [|h t].
  - repeat constructor. simpl. now rewrite E.
  - inversion IH; subst. constructor; [|assumption].
    simpl. now rewrite E.
Qed.

Lemma split_join_flat ls :
  ls <> [] -> split newline (join nl ls) = flat ls.
Proof.
  induction ls as [|x [|y r] IH]; intros N.
  - congruence.
  - simpl. now rewrite app_nil_r.
  - rewrite join_cons.
    change (x ++ nl ++ join nl (y :: r))%string
      with (x ++ String newline (join nl (y :: r)))%string.
    rewrite split_app_sep, IH by discriminate. reflexivity.
Qed.

Lemma flat_app a b : flat (a ++ b) = flat a ++ flat b.
Proof. apply flat_map_app. Qed.

Lemma flat_lines l :
  Forall (fun e => has_char newline e = false) l -> flat l = l.
Proof.
  induction 1 as [|x l H F IH]; [reflexivity|].
  unfold flat in *. simpl. now rewrite IH, split_no_sep.
Qed.

(** *** Reading a rendered section back *)

Lemma plain_straight b m :
  plain_bucket b = true -> In m (straight b) ->
  reads_back Straight (import_line m) [m] = true.
Proof.
  unfold plain_bucket. intros P I. apply andb_true_iff in P.
  destruct P as [P _]. rewrite forallb_forall in P. now apply P.
Qed.

Lemma plain_from b m symbols :
  plain_bucket b = true -> In (m, symbols) (from b) ->
  symbols <> []
  /\ forall s, In s symbols ->
               reads_back From (from_line m s) [m; s] = true.
Proof.
  unfold plain_bucket. intros P I. apply andb_true_iff in P.
  destruct P as [_ P]. rewrite forallb_forall in P.
  specialize (P _ I). cbn [fst snd] in P.
  destruct symbols as [|x symbols]; [discriminate|].
  split; [discriminate|]. rewrite forallb_forall in P. exact P.
Qed.

Lemma symbols_of_In b m :
  In m (map fst (from b)) -> In (m, symbols_of b m) (from b).
Proof.
  intros I. unfold symbols_of.
  destruct (dict_get_In_keys String.eqb string_eqb_spec _ _ I) as [v E].
  rewrite E. now apply dict_get_In.
Qed.

Lemma statements_app a b : statements (a ++ b) = statements a ++ statements b.
Proof. apply flat_map_app. Qed.

Lemma other_lines_app a b :
  other_lines (a ++ b) = other_lines a ++ other_lines b.
Proof. apply filter_app. Qed.

Section ReadBack.

Variable config : Config.

Local Abbreviation key := (key_of config).

Local Abbreviation norm := (norm config).
Local Abbreviation section_statements := (section_statements config).

Lemma shown_symbols_In s symbols :
  In s (shown_symbols config symbols) -> In s symbols.
Proof.
  unfold shown_symbols.
  destruct (mem "*" (sorted key symbols)) eqn:M.
  - intros [<-|[]]. apply mem_In in M. now apply sorted_In in M.
  - apply sorted_In.
Qed.

Lemma shown_symbols_nonempty symbols :
  symbols <> [] -> shown_symbols config symbols <> [].
Proof.
  unfold shown_symbols. intros N.
  destruct (mem "*" (sorted key symbols)); [discriminate|].
  intros H. apply sorted_nil in H. contradiction.
Qed.

Lemma shown_symbols_NoDup symbols :
  NoDup symbols -> NoDup (shown_symbols config symbols).
Proof.
  unfold shown_symbols. intros D.
  destruct (mem "*" (sorted key symbols)).
  - repeat constructor. intros [].
  - now apply sorted_NoDup.
Qed.

Lemma shown_symbols_twice symbols :
  shown_symbols config (shown_symbols config symbols)
  = shown_symbols config symbols.
Proof.
  unfold shown_symbols.
  destruct (mem "*" (sorted key symbols)) eqn:M.
  - reflexivity.
  - now rewrite sorted_twice, M.
Qed.

Lemma from_lines_read b m s :
  plain_bucket b = true -> In m (map fst (from b)) ->
  In s (shown_symbols config (symbols_of b m)) ->
  reads_back From (from_line m s) [m; s] = true.
Proof.
  intros P I H. apply symbols_of_In in I.
  apply (proj2 (plain_from _ _ _ P I)). now apply shown_symbols_In.
Qed.

Lemma statements_import_lines ms :
  (forall m, In m ms -> reads_back Straight (import_line m) [m] = true) ->
  statements (map import_line ms) = map (fun m => (Straight, [m])) ms
  /\ other_lines (map import_line ms) = []
  /\ flat (map import_line ms) = map import_line ms
  /\ Forall (fun l => simple_line l = true) (map import_line ms).
Proof.
  induction ms as [|m ms IH]; intros R; [repeat split; constructor|].
  destruct IH as (I1 & I2 & I3 & I4); [intros x Hx; apply R; now right|].
  destruct (reads_back_spec _ _ _ (R m (or_introl eq_refl)))
    as (S & K & T).
  assert (N : has_char newline (import_line m) = false).
  { unfold simple_line in S. apply andb_true_iff in S. destruct S as [S _].
    apply andb_true_iff in S. destruct S as [_ S].
    now apply negb_true_iff in S. }
  unfold statements, other_lines, flat in *. cbn [map flat_map filter].
  rewrite K, T, I1, I2, I3, (split_no_sep _ _ N). cbn [is_none app].
  repeat split; auto.
Qed.

Lemma statements_from_lines m symbols :
  (forall s, In s symbols ->
             reads_back From (from_line m s) [m; s] = true) ->
  statements (map (from_line m) symbols)
  = map (fun s => (From, [m; s])) symbols
  /\ other_lines (map (from_line m) symbols) = []
  /\ Forall (fun l => has_char newline l = false) (map (from_line m) symbols)
  /\ Forall (fun l => simple_line l = true) (map (from_line m) symbols).
Proof.
  induction symbols as [|s symbols IH]; intros R; [repeat split; constructor|].
  destruct IH as (I1 & I2 & I3 & I4); [intros x Hx; apply R; now right|].
  destruct (reads_back_spec _ _ _ (R s (or_introl eq_refl)))
    as (S & K & T).
  assert (N : has_char newline (from_line m s) = false).
  { unfold simple_line in S. apply andb_true_iff in S. destruct S as [S _].
    apply andb_true_iff in S. destruct S as [_ S].
    now apply negb_true_iff in S. }
  unfold statements, other_lines in *. cbn [map flat_map filter].
  rewrite K, T, I1, I2. cbn [is_none app].
  repeat split; auto.
Qed.

End ReadBack.

Section ReadSection.

Variable config : Config.

Local Abbreviation key := (key_of config).

Lemma from_modules_read b ms :
  plain_bucket b = true ->
  (forall m, In m ms -> In m (map fst (from b))) ->
  statements (flat_map (fun m => from_lines config m (symbols_of b m)) ms)
  = flat_map
      (fun m => map (fun s => (From, [m; s]))
                  (shown_symbols config (symbols_of b m)))
      ms
  /\ other_lines
       (flat_map (fun m => from_lines config m (symbols_of b m)) ms) = []
  /\ flat (flat_map (fun m => from_entries config m (symbols_of b m)) ms)
     = flat_map (fun m => from_lines config m (symbols_of b m)) ms
  /\ Forall (fun l => simple_line l = true)
       (flat_map (fun m => from_lines config m (symbols_of b m)) ms).
Proof.
  intros P. induction ms as [|m ms IH]; intros I;
    [repeat split; constructor|].
  destruct IH as (I1 & I2 & I3 & I4); [intros x Hx; apply I; now right|].
  destruct (statements_from_lines m
              (shown_symbols config (symbols_of b m)))
    as (S1 & S2 & S3 & S4).
  { intros s Hs. apply (from_lines_read config b); auto. apply I. now left. }
  cbn [flat_map].
  rewrite statements_app, other_lines_app, flat_app, I1, I2, I3.
  fold (from_lines config m (symbols_of b m)) in S1, S2, S3, S4.
  rewrite S1, S2. repeat split; auto.
  - f_equal. unfold from_entries.
    destruct (from_lines config m (symbols_of b m)) as [|x l] eqn:E;
      [reflexivity|].
    unfold flat. cbn [flat_map]. rewrite app_nil_r.
    apply split_join; [discriminate | exact S3].
  - apply Forall_app. now split.
Qed.

Lemma section_lines_read b :
  plain_bucket b = true ->
  statements (section_lines config b) = section_statements config b
  /\ other_lines (section_lines config b) = []
  /\ flat (section_entries config b) = section_lines config b
  /\ Forall (fun l => simple_line l = true) (section_lines config b)
  /\ (section_lines config b = [] -> separator b = []).
Proof.
  intros P. unfold section_lines, section_entries, section_statements.
  destruct (statements_import_lines (sorted key (straight b)))
    as (S1 & S2 & S3 & S4).
  { intros m Hm. apply (plain_straight b); auto. now apply sorted_In in Hm. }
  destruct (from_modules_read b (sorted key (map fst (from b))) P)
    as (F1 & F2 & F3 & F4).
  { intros m Hm. now apply sorted_In in Hm. }
  rewrite statements_app, other_lines_app, flat_app, S1, S2, S3, F1, F2, F3.
  repeat split; auto.
  - apply Forall_app. now split.
  - intros E. apply app_eq_nil in E. destruct E as [E1 E2].
    apply map_eq_nil, sorted_nil in E1. unfold separator. rewrite E1.
    destruct (from b) as [|[m symbols] f] eqn:Fb; [reflexivity|].
    exfalso.
    destruct (sorted key (map fst ((m, symbols) :: f))) as [|m' r] eqn:Es.
    + apply sorted_nil in Es. discriminate.
    + cbn [flat_map] in E2. apply app_eq_nil in E2. destruct E2 as [E2 _].
      apply map_eq_nil in E2.
      assert (I : In m' (map fst (from b))).
      { rewrite Fb. apply (sorted_In key). rewrite Es. now left. }
      apply symbols_of_In in I.
      apply (shown_symbols_nonempty config _
               (proj1 (plain_from _ _ _ P I))).
      exact E2.
Qed.

Lemma section_entries_norm b :
  section_entries config (norm config b) = section_entries config b
  /\ separator (norm config b) = separator b.
Proof.
  split.
  - unfold section_entries, norm. cbn [straight from].
    rewrite sorted_twice. f_equal.
    rewrite map_map. cbn [fst]. rewrite map_id, sorted_twice.
    rewrite !flat_map_concat_map. f_equal.
    apply map_ext_in. intros m I.
    unfold symbols_of at 1. cbn [from].
    rewrite (dict_get_map
               (fun m => shown_symbols config (symbols_of b m)) m _ I).
    unfold from_entries, from_lines. now rewrite shown_symbols_twice.
  - unfold separator, norm. cbn [straight from].
    destruct (sorted key (straight b)) as [|x l] eqn:E1.
    + apply sorted_nil in E1. rewrite E1.
      destruct (sorted key (map fst (from b))) as [|y r] eqn:E2.
      * apply sorted_nil in E2. now destruct (from b).
      * destruct (from b); [discriminate E2 | reflexivity].
    + destruct (straight b); [discriminate E1 | reflexivity].
Qed.

Lemma collect_section place k b d :
  good_bucket place k b -> plain_bucket b = true ->
  dict_get section_key_eqb k d = Some empty_bucket ->
  collect place (section_statements config b) d
  = Ok (dict_set section_key_eqb k (norm config b) d).
Proof.
  intros (G1 & G2 & G3 & G4) P E. unfold section_statements.
  rewrite collect_app.
  rewrite (collect_straight place k _ d empty_bucket); auto.
  - cbn [bind straight from empty_bucket app].
    rewrite (collect_from_modules place k
               (fun m => shown_symbols config (symbols_of b m)) _ _
               {| straight := sorted key (straight b); from := [] |}).
    + now rewrite (dict_set_twice _ section_key_eqb_spec).
    + intros m Hm. apply sorted_In in Hm. apply symbols_of_In in Hm.
      destruct (G4 _ _ Hm) as [Pm Dm]. split; [exact Pm|]. split.
      * apply shown_symbols_nonempty. apply (plain_from _ _ _ P Hm).
      * now apply shown_symbols_NoDup.
    + apply (dict_get_set_same _ section_key_eqb_spec).
    + simpl. now apply sorted_NoDup.
  - intros m Hm. apply G2. now apply sorted_In in Hm.
  - simpl. now apply sorted_NoDup.
Qed.

End ReadSection.

(** *** The whole block, section after section *)

Section Blocks.

Variable config : Config.
Hypothesis no_removals : remove_imports config = [].

Local Abbreviation blocks := (blocks config).
Local Abbreviation block_lines := (block_lines config).

Lemma separator_lines b :
  flat (separator b) = separator b
  /\ statements (separator b) = []
  /\ other_lines (separator b) = separator b
  /\ Forall (fun l => l = "") (separator b)
  /\ Forall (fun l => simple_line l = true) (separator b).
Proof.
  unfold separator. destruct (straight b), (from b);
    repeat split; repeat constructor.
Qed.

Lemma blocks_read bs :
  Forall (fun b => plain_bucket b = true) bs ->
  flat (blocks bs) = block_lines bs
  /\ statements (block_lines bs) = flat_map (section_statements config) bs
  /\ Forall (fun l => l = "") (other_lines (block_lines bs))
  /\ Forall (fun l => simple_line l = true) (block_lines bs)
  /\ match block_lines bs with
     | [] => True
     | l :: _ => is_none (_import_type l) = false
     end.
Proof.
  induction 1 as [|b bs P F (I1 & I2 & I3 & I4 & I5)];
    [repeat split; constructor|].
  destruct (section_lines_read config b P) as (S1 & S2 & S3 & S4 & S5).
  destruct (separator_lines b) as (Z1 & Z2 & Z3 & Z4 & Z5).
  unfold blocks, block_lines in *. cbn [flat_map].
  rewrite !flat_app, !statements_app, !other_lines_app.
  rewrite I1, I2, S1, S2, S3, Z1, Z2, Z3, app_nil_r. cbn [app].
  repeat split; auto.
  - apply Forall_app. now split.
  - apply Forall_app; split; [apply Forall_app; split|]; assumption.
  - destruct (section_lines config b) as [|l r] eqn:E.
    + rewrite (S5 eq_refl). exact I5.
    + simpl. unfold other_lines in S2. simpl in S2.
      destruct (is_none (_import_type l)); [discriminate | reflexivity].
Qed.

Lemma blocks_norm bs : blocks (map (norm config) bs) = blocks bs.
Proof.
  induction bs as [|b bs IH]; [reflexivity|].
  unfold blocks in *. cbn [map flat_map].
  destruct (section_entries_norm config b) as [E1 E2].
  now rewrite IH, E1, E2.
Qed.

Lemma render_sections_plain st secs bs :
  as_map st = [] ->
  Forall2 (fun k b => imports_get st k = Ok b) secs bs ->
  render_sections config st secs [] = Ok (blocks bs).
Proof.
  intros A. induction 1 as [|k b secs bs G F IH]; [reflexivity|].
  cbn [render_sections].
  rewrite (render_section_plain config no_removals st k b A G).
  cbn [bind]. rewrite render_sections_app, IH. reflexivity.
Qed.

Lemma render_sections_buckets st secs :
  forall output r,
    render_sections config st secs output = Ok r ->
    exists bs, Forall2 (fun k b => imports_get st k = Ok b) secs bs.
Proof.
  induction secs as [|k secs IH]; intros output r H.
  - exists []. constructor.
  - cbn [render_sections] in H. inv_bind H.
    destruct (IH _ _ H) as [bs F].
    unfold render_section in E.
    destruct (imports_get st k) as [b| |] eqn:G; try discriminate.
    exists (b :: bs). now constructor.
Qed.

Lemma collect_blocks place secs bs :
  forall d,
    Forall2 (fun k b => good_bucket place k b /\ plain_bucket b = true)
      secs bs ->
    NoDup secs ->
    (forall k, In k secs ->
               dict_get section_key_eqb k d = Some empty_bucket) ->
    exists d',
      collect place (flat_map (section_statements config) bs) d = Ok d'
      /\ Forall2
           (fun k b => dict_get section_key_eqb k d'
                       = Some (norm config b))
           secs bs
      /\ (forall k, ~ In k secs ->
                    dict_get section_key_eqb k d'
                    = dict_get section_key_eqb k d).
Proof.
  intros d F. revert d.
  induction F as [|k b secs bs [G P] F IH]; intros d D E.
  - exists d. repeat split; auto.
  - inversion D as [|? ? N D']; subst.
    cbn [flat_map]. rewrite collect_app.
    rewrite (collect_section config place k b d G P)
      by (apply E; now left).
    cbn [bind].
    destruct (IH (dict_set section_key_eqb k (norm config b) d) D')
      as (d' & C & R & O).
    { intros k' I.
      rewrite (dict_get_set_other _ section_key_eqb_spec).
      - apply E. now right.
      - intros ->. contradiction. }
    exists d'. split; [exact C|]. split.
    + constructor; [|exact R].
      rewrite (O k N). apply (dict_get_set_same _ section_key_eqb_spec).
    + intros k' I. rewrite O by (intros H; apply I; now right).
      apply (dict_get_set_other _ section_key_eqb_spec).
      intros ->. apply I. now left.
Qed.

End Blocks.

(** *** The dictionary [__init__] starts from *)

Lemma all_sections_NoDup config :
  NoDup (forced_separate config) -> NoDup (all_sections config).
Proof.
  intros D. unfold all_sections. apply NoDup_app.
  - unfold SECTIONS, FUTURE, STDLIB, THIRDPARTY, FIRSTPARTY, LOCALFOLDER.
    repeat constructor; simpl; intuition discriminate.
  - induction D as [|x l N D IH]; simpl; constructor; auto.
    intros H. apply in_map_iff in H. destruct H as (y & [= ->] & H).
    contradiction.
  - intros k H1 H2. apply in_map_iff in H2. destruct H2 as (y & <- & _).
    simpl in H1. unfold FUTURE, STDLIB, THIRDPARTY, FIRSTPARTY, LOCALFOLDER
      in H1. intuition discriminate.
Qed.

Section InitialImports.

Local Abbreviation fresh :=
  (fun d section => dict_set section_key_eqb section empty_bucket d).

Lemma fresh_keeps secs :
  forall d k,
    dict_get section_key_eqb k d = Some empty_bucket ->
    dict_get section_key_eqb k (fold_left fresh secs d) = Some empty_bucket.
Proof.
  induction secs as [|s secs IH]; intros d k H; [exact H|].
  simpl. apply IH. destruct (section_key_eqb s k) eqn:E.
  - apply section_key_eqb_spec in E. subst s.
    apply (dict_get_set_same _ section_key_eqb_spec).
  - rewrite (dict_get_set_other _ section_key_eqb_spec); [exact H|].
    intros ->. rewrite (proj2 (section_key_eqb_spec s s)) in E;
      [discriminate | reflexivity].
Qed.

Lemma fresh_in secs :
  forall d k,
    In k secs ->
    dict_get section_key_eqb k (fold_left fresh secs d) = Some empty_bucket.
Proof.
  induction secs as [|s secs IH]; intros d k I; [contradiction|].
  simpl. destruct I as [->|I]; [|now apply IH].
  apply fresh_keeps. apply (dict_get_set_same _ section_key_eqb_spec).
Qed.

Lemma fresh_empty secs :
  forall d,
    (forall k b, dict_get section_key_eqb k d = Some b -> b = empty_bucket) ->
    forall k b,
      dict_get section_key_eqb k (fold_left fresh secs d) = Some b ->
      b = empty_bucket.
Proof.
  induction secs as [|s secs IH]; intros d H; [exact H|].
  simpl. apply IH. intros k b. destruct (section_key_eqb s k) eqn:E.
  - apply section_key_eqb_spec in E. subst s.
    rewrite (dict_get_set_same _ section_key_eqb_spec). congruence.
  - rewrite (dict_get_set_other _ section_key_eqb_spec); [apply H|].
    intros ->. rewrite (proj2 (section_key_eqb_spec s s)) in E;
      [discriminate | reflexivity].
Qed.

End InitialImports.

Lemma initial_imports_get config k :
  In k (all_sections config) ->
  dict_get section_key_eqb k (initial_imports config) = Some empty_bucket.
Proof. apply fresh_in. Qed.

Lemma initial_imports_good config place :
  good_dict place (initial_imports config).
Proof.
  intros k b H. apply fresh_empty in H; [|discriminate]. subst b.
  repeat split; simpl; try constructor; contradiction.
Qed.

(** *** Lines without the marker of a skipped file *)

Lemma import_line_unmarked line :
  is_none (_import_type line) = false ->
  contains line "isort:skip_file" = false.
Proof.
  unfold _import_type. intros H.
  destruct (contains line "isort:skip_file") eqn:C; [|reflexivity].
  apply (contains_shorter "isort:skip" "_file") in C.
  rewrite C in H. discriminate.
Qed.

Lemma lines_unmarked l :
  Forall (fun x => x = "") (other_lines l) ->
  Forall (fun x => contains x "isort:skip_file" = false) l.
Proof.
  induction l as [|x l IH]; intros F; [constructor|].
  unfold other_lines in *. simpl in F.
  destruct (is_none (_import_type x)) eqn:K.
  - inversion F; subst. constructor; [reflexivity | auto].
  - constructor; [now apply import_line_unmarked | auto].
Qed.

(** *** The engine on lines it copies and simple lines *)

Section Rerun.

Variable config : Config.
Variable fs : FileSystem.
Hypothesis no_additions : add_imports config = [].

Local Abbreviation place := (place_module config fs).

(** [_parse] on lines it copies, then simple lines, then lines it copies. *)
Lemma scan_three pre mid post :
  copy_trace None pre = true ->
  quote_after None pre = None ->
  Forall (fun l => simple_line l = true) mid ->
  copy_trace None post = true ->
  parse_loop place (List.length (pre ++ mid ++ post)) None
    {| in_lines := pre ++ mid ++ post;
       index := 0;
       number_of_lines := List.length (pre ++ mid ++ post);
       out_lines := [];
       imports := initial_imports config;
       as_map := [];
       import_index := None |}
  = (d <- collect place (statements mid) (initial_imports config) ;;
     Ok (scanned pre mid post d)).
Proof.
  intros T1 Q1 S T3.
  replace (List.length (pre ++ mid ++ post))
    with (List.length pre + (List.length mid + (List.length post + 0)))
    at 1 by (rewrite !length_app; lia).
  rewrite (parse_copied place pre None [] (mid ++ post)); auto.
  rewrite Q1.
  rewrite (parse_simple place mid pre post); auto.
  rewrite run_lines_spec.
  cbn [imports index out_lines import_index in_lines number_of_lines
         as_map set_out_lines set_index app Nat.add].
  destruct (collect place (statements mid) (initial_imports config))
    as [d| |]; cbn [bind]; try reflexivity.
  rewrite (parse_copied place post None (pre ++ mid) []); auto.
  - unfold scanned, set_out_lines, set_index.
    cbn [parse_loop in_lines index number_of_lines out_lines imports as_map
           import_index].
    rewrite !length_app, <- !app_assoc. unfold _at_end.
    cbn [index number_of_lines].
    rewrite (proj2 (Nat.eqb_eq _ _)) by lia.
    f_equal. f_equal. lia.
  - cbn [in_lines]. now rewrite app_nil_r, <- app_assoc.
  - cbn [index]. now rewrite length_app.
Qed.

Lemma rerun3 pre mid post :
  pre ++ mid ++ post <> [] ->
  copy_trace None pre = true ->
  quote_after None pre = None ->
  Forall (fun l => simple_line l = true) mid ->
  copy_trace None post = true ->
  Forall (fun l => clean_line l = true) (pre ++ mid ++ post) ->
  SortImports config fs (join nl (pre ++ mid ++ post))
  = (d <- collect place (statements mid) (initial_imports config) ;;
     finish config (scanned pre mid post d)).
Proof.
  intros N T1 Q1 S T3 C. destruct (clean_lines _ C) as [L M].
  unfold SortImports, SortImports_with.
  rewrite (contains_join_none "isort:skip_file" _ eq_refl N M).
  unfold _parse_with, initial_state.
  rewrite (split_join _ N L), no_additions, app_nil_r.
  cbn [in_lines]. rewrite scan_three by assumption.
  destruct (collect place (statements mid) (initial_imports config));
    reflexivity.
Qed.

(** Lines the scanner only copies come back without the blank lines at
    their end. *)
Lemma rerun_copy X :
  copy_trace None X = true ->
  Forall (fun l => clean_line l = true) X ->
  SortImports config fs (join nl (rstrip_blank X ++ [""]))
  = Ok (Some (join nl (rstrip_blank X ++ [""]))).
Proof.
  intros T C.
  pose proof (rerun3 [] [] (rstrip_blank X ++ [""])) as H.
  cbn [app] in H. rewrite H; clear H.
  - cbn [statements flat_map collect bind]. unfold finish, scanned.
    cbn [first_import option_map import_index bind out_lines other_lines
           filter app].
    rewrite rstrip_blank_app. cbn [rstrip_blank is_blank].
    change (String.eqb (strip "") "") with true. cbn iota.
    now rewrite rstrip_blank_idem.
  - now destruct (rstrip_blank X).
  - reflexivity.
  - reflexivity.
  - constructor.
  - rewrite copy_trace_app, (copy_trace_rstrip _ _ T).
    cbn [copy_trace andb]. unfold copied.
    change (_import_type "") with (@None import_kind).
    cbn [is_none]. now rewrite orb_true_r.
  - apply Forall_app. split; [now apply rstrip_blank_Forall|].
    repeat constructor.
Qed.

End Rerun.

(** *** The block without the blank lines at its end *)

Section TrimmedBlock.

Variable config : Config.

Lemma section_entries_nonblank b e :
  In e (section_entries config b) -> is_blank e = false.
Proof.
  unfold section_entries. intros H. apply in_app_or in H.
  destruct H as [H|H].
  - apply in_map_iff in H. destruct H as (m & <- & _).
    apply (is_blank_nonspace "i"). reflexivity.
  - apply in_flat_map in H. destruct H as (m & _ & H).
    unfold from_entries, from_lines in H.
    destruct (shown_symbols config (symbols_of b m)) as [|s r];
      [contradiction|].
    destruct H as [<-|[]]. cbn [map]. unfold from_line at 1.
    cbn [append]. rewrite join_cons_char.
    apply (is_blank_nonspace "f"). reflexivity.
Qed.

Lemma blocks_blank_entries bs e :
  In e (blocks config bs) -> is_blank e = true -> e = "".
Proof.
  unfold blocks. intros H B. apply in_flat_map in H.
  destruct H as (b & _ & H). apply in_app_or in H. destruct H as [H|H].
  - apply section_entries_nonblank in H. congruence.
  - destruct (separator_lines b) as (_ & _ & _ & Z & _).
    rewrite Forall_forall in Z. now apply Z.
Qed.

Lemma flat_no_newline l :
  Forall (fun x => has_char newline x = false) (flat l).
Proof.
  induction l as [|e l IH]; [constructor|].
  unfold flat in *. simpl. apply Forall_app. split; [|exact IH].
  apply split_lines.
Qed.

Lemma empty_lines Z :
  Forall (fun e => e = "") Z ->
  flat Z = Z /\ statements Z = [] /\ other_lines Z = Z.
Proof.
  induction 1 as [|z Z -> F (I1 & I2 & I3)]; [repeat split|].
  unfold flat, statements, other_lines in *. simpl.
  now rewrite I1, I2, I3.
Qed.

Lemma trimmed_block bs :
  Forall (fun b => plain_bucket b = true) bs ->
  let B := rstrip_blank (blocks config bs) in
  statements (flat B) = flat_map (section_statements config) bs
  /\ Forall (fun l => l = "") (other_lines (flat B))
  /\ Forall (fun l => simple_line l = true) (flat B)
  /\ (B <> [] -> forall rest, first_import (flat B ++ rest) = Some 0).
Proof.
  intros P B. destruct (blocks_read config bs P) as (R1 & R2 & R3 & R4 & R5).
  destruct (rstrip_blank_prefix (blocks config bs)) as (Z & E & FZ).
  fold B in E.
  assert (ZE : Forall (fun e => e = "") Z).
  { rewrite Forall_forall in *. intros z Hz.
    apply (blocks_blank_entries bs); [|now apply FZ].
    rewrite E. apply in_or_app. now right. }
  destruct (empty_lines Z ZE) as (Z1 & Z3 & Z4).
  rewrite E, flat_app, Z1 in R1. rewrite <- R1 in R2, R3, R4, R5.
  rewrite statements_app, Z3, app_nil_r in R2.
  rewrite other_lines_app in R3. apply Forall_app in R3, R4.
  repeat split; try tauto.
  intros N rest. destruct B as [|e B']; [congruence|].
  unfold flat in *. cbn [flat_map] in *.
  destruct (split newline e) as [|l r] eqn:S;
    [now apply split_not_nil in S|].
  cbn [app] in *. simpl.
  destruct (_import_type l); [reflexivity | discriminate].
Qed.

End TrimmedBlock.

(** *** The engine on its own output *)

Lemma pad_clean T : Forall (fun l => clean_line l = true) (pad T).
Proof.
  unfold pad. destruct T as [|x T]; [constructor|].
  destruct (_ || _); repeat constructor.
Qed.

Lemma dict_get_In_section {V : Type} k (d : list (section_key * V)) v :
  dict_get section_key_eqb k d = Some v -> In (k, v) d.
Proof.
  induction d as [|[k' u] d IH]; simpl; [discriminate|].
  destruct (section_key_eqb k' k) eqn:E.
  - apply section_key_eqb_spec in E. subst k'. intros [= ->]. now left.
  - auto.
Qed.

Section Idempotence.

Variable config : Config.
Variable fs : FileSystem.
Hypothesis no_additions : add_imports config = [].
Hypothesis no_removals : remove_imports config = [].
Hypothesis separate_once : NoDup (forced_separate config).

Local Abbreviation place := (place_module config fs).

Lemma rerun_block pre post bs :
  copy_trace None pre = true ->
  quote_after None pre = None ->
  copy_trace None post = true ->
  Forall (fun l => clean_line l = true) pre ->
  Forall (fun l => clean_line l = true) post ->
  Forall2 (fun k b => good_bucket place k b /\ plain_bucket b = true)
    (all_sections config) bs ->
  let B := rstrip_blank (blocks config bs) in
  let T := lstrip_blank post in
  SortImports config fs
    (join nl (rstrip_blank (pre ++ B ++ pad T ++ T) ++ [""]))
  = Ok (Some (join nl (rstrip_blank (pre ++ B ++ pad T ++ T) ++ [""]))).
Proof.
  intros Tpre Qpre Tpost Cpre Cpost F B T.
  assert (TT : copy_trace None (pad T ++ T) = true).
  { rewrite copy_trace_pad. now apply copy_trace_lstrip. }
  assert (CT : Forall (fun l => clean_line l = true) (pad T ++ T)).
  { apply Forall_app. split; [apply pad_clean|].
    now apply lstrip_blank_Forall. }
  destruct B as [|e0 B0] eqn:EB.
  { apply (rerun_copy config fs no_additions).
    - cbn [app]. now rewrite copy_trace_app, Tpre, Qpre.
    - apply Forall_app. now split. }
  rewrite <- EB. assert (NB : B <> []) by (rewrite EB; discriminate).
  clear e0 B0 EB.
  assert (P : Forall (fun b => plain_bucket b = true) bs).
  { clear - F. induction F as [|k b ks bs [_ H] F IH]; constructor; auto. }
  destruct (trimmed_block config bs P) as (S1 & S2 & S3 & S4).
  fold B in S1, S2, S3, S4. specialize (S4 NB []).
  rewrite app_nil_r in S4.
  set (R := rstrip_blank (pad T ++ T)).
  assert (TR : copy_trace None R = true) by now apply copy_trace_rstrip.
  assert (CR : Forall (fun l => clean_line l = true) R)
    by now apply rstrip_blank_Forall.
  assert (H1 : rstrip_blank (pre ++ B ++ pad T ++ T) = pre ++ B ++ R).
  { assert (H0 : rstrip_blank (B ++ pad T ++ T) = B ++ R).
    { rewrite rstrip_blank_app. fold R. destruct R; [|reflexivity].
      unfold B. now rewrite rstrip_blank_idem, app_nil_r. }
    rewrite rstrip_blank_app, H0.
    destruct (B ++ R) eqn:E; [|reflexivity].
    apply app_eq_nil in E. tauto. }
  set (post2 := R ++ [""]).
  assert (EL : flat ((pre ++ B ++ R) ++ [""]) = pre ++ flat B ++ post2).
  { rewrite !flat_app.
    rewrite (flat_lines pre), (flat_lines R) by
      (apply clean_lines; assumption).
    unfold post2. now rewrite <- !app_assoc. }
  assert (EJ : join nl ((pre ++ B ++ R) ++ [""])
               = join nl (pre ++ flat B ++ post2)).
  { rewrite <- (join_split (join nl ((pre ++ B ++ R) ++ [""]))).
    rewrite split_join_flat, EL; [reflexivity|].
    now destruct (pre ++ B ++ R). }
  rewrite H1, EJ.
  assert (T2 : copy_trace None post2 = true).
  { unfold post2. rewrite copy_trace_app, TR. cbn [copy_trace andb].
    unfold copied. change (_import_type "") with (@None import_kind).
    cbn [is_none]. now rewrite orb_true_r. }
  assert (C2 : Forall (fun l => clean_line l = true)
                 (pre ++ flat B ++ post2)).
  { apply Forall_app. split; [exact Cpre|]. apply Forall_app. split.
    - pose proof (flat_no_newline B) as L.
      pose proof (lines_unmarked _ S2) as M.
      rewrite Forall_forall in *. intros x Hx. apply clean_line_spec.
      split; [now apply L | now apply M].
    - unfold post2. apply Forall_app. split; [exact CR|].
      repeat constructor. }
  rewrite (rerun3 config fs no_additions pre (flat B) post2); auto.
  - rewrite S1.
    destruct (collect_blocks config place (all_sections config) bs
                (initial_imports config) F
                (all_sections_NoDup config separate_once)
                (initial_imports_get config))
      as (d & C & G & _).
    rewrite C. cbn [bind].
    unfold finish, scanned, _add_formatted_imports, formatted_output.
    rewrite S4. cbn [option_map import_index imports as_map out_lines].
    rewrite (render_sections_plain config no_removals _ _
               (map (norm config) bs)); [|reflexivity|].
    + rewrite blocks_norm. change (rstrip_blank (blocks config bs)) with B.
      cbn [bind set_out_lines out_lines]. rewrite Nat.add_0_r.
      rewrite splice_spec, <- EJ, <- H1. unfold post2, R, T.
      rewrite splice_again; [reflexivity|].
      clear - S2. induction S2 as [|x l E F IH]; constructor; auto.
      now rewrite E.
    + clear - G. induction G as [|k b ks bs H G IH]; constructor; auto.
      unfold imports_get. cbn [imports]. now rewrite H.
  - intros E. apply (f_equal (@List.length _)) in E.
    unfold post2 in E. rewrite !length_app in E. simpl in E. lia.
Qed.

End Idempotence.

(** C2 (as amended): on a text in which every line that starts like an
    import leaves no quotation open, no import is given an alias, every
    module and symbol that was collected is rendered to a line the scanner
    reads back as that module or symbol, and no two names collected in one
    set have the same sort key (they would differ in letter case only, and
    their order would be that of the set, see [untied_order_free]), with
    nothing to add or remove and no section separated twice, the output of
    the engine is a fixed point: the engine applied to it returns it
    unchanged. *)
Theorem C2_output_is_fixed_point (config : Config) (fs : FileSystem)
  (file_contents out : string) (st : State) :
  add_imports config = [] ->
  remove_imports config = [] ->
  NoDup (forced_separate config) ->
  forallb (fun line => is_none (_import_type line)
                       || is_none (update_in_quote None line))
    (split newline file_contents) = true ->
  _parse config fs (initial_state config file_contents) = Ok st ->
  as_map st = [] ->
  plain_imports (imports st) = true ->
  untied_imports config (imports st) = true ->
  SortImports config fs file_contents = Ok (Some out) ->
  SortImports config fs out = Ok (Some out).
Proof.
  intros A1 A2 A3 A4 A5 A6 A7 _ A8.
  unfold SortImports, SortImports_with in A8.
  destruct (contains file_contents "isort:skip_file") eqn:Sk;
    [discriminate|].
  unfold _parse in A5. rewrite A5 in A8. cbn [bind] in A8.
  unfold _parse_with in A5.
  destruct (parse_loop_trace _ _ _ _ _ A5) as (G & T & O & I).
  { cbn [in_lines initial_state]. rewrite A1, app_nil_r.
    rewrite forallb_forall in A4. now apply Forall_forall. }
  { cbn [in_lines initial_state]. rewrite A1, app_nil_r.
    apply Forall_forall. intros l Hl. apply clean_line_spec. split.
    - pose proof (split_lines newline file_contents) as L.
      rewrite Forall_forall in L. now apply L.
    - now apply (contains_line _ file_contents). }
  { apply initial_imports_good. }
  { reflexivity. }
  { reflexivity. }
  { constructor. }
  { reflexivity. }
  { discriminate. }
  destruct (import_index st) as [i|] eqn:Ii.
  - unfold _add_formatted_imports, formatted_output in A8.
    destruct (render_sections config st (all_sections config) [])
      as [r| |] eqn:Rs; cbn [bind] in A8; try discriminate.
    rewrite Ii in A8. cbn [bind out_lines set_out_lines] in A8.
    injection A8 as <-.
    destruct (render_sections_buckets config st _ _ _ Rs) as [bs F].
    rewrite (render_sections_plain config A2 st _ bs A6 F) in Rs.
    injection Rs as <-.
    destruct (I i eq_refl) as [Le Qi].
    set (pre := firstn i (out_lines st)) in *.
    set (post := skipn i (out_lines st)).
    assert (EO : out_lines st = pre ++ post)
      by (symmetry; apply firstn_skipn).
    assert (Ei : i = List.length pre)
      by (unfold pre; rewrite length_firstn; lia).
    replace (splice i (rstrip_blank (blocks config bs)) (out_lines st))
      with (splice (List.length pre) (rstrip_blank (blocks config bs))
              (pre ++ post))
      by (rewrite <- Ei, <- EO; reflexivity).
    rewrite splice_spec. rewrite EO in O, T. apply Forall_app in O.
    rewrite copy_trace_app, Qi in T. apply andb_true_iff in T.
    apply rerun_block; try tauto.
    clear - F G A7. induction F as [|k b ks bs H F IH]; constructor; auto.
    unfold imports_get in H.
    destruct (dict_get section_key_eqb k (imports st)) as [b'|] eqn:E;
      [|discriminate].
    injection H as ->. split; [now apply G|].
    apply dict_get_In_section in E. unfold plain_imports in A7.
    rewrite forallb_forall in A7. apply (A7 _ E).
  - cbn [bind] in A8. injection A8 as <-. now apply rerun_copy.
Qed.

Lemma C2_output_is_fixed_point_witness :
  exists out,
    SortImports default empty_fs C2_text = Ok (Some out)
    /\ SortImports default empty_fs out = Ok (Some out).
Proof.
  eexists. split; [vm_compute; reflexivity|].
  eapply (C2_output_is_fixed_point default empty_fs C2_text);
    [ reflexivity | reflexivity | constructor | vm_compute; reflexivity
    | vm_compute; reflexivity | reflexivity | vm_compute; reflexivity
    | vm_compute; reflexivity | vm_compute; reflexivity ].
Defined.

(** C2 (as stated) fails: everything after [import] on the line is read
    as module names; in the output the line [import 'a] opens a quotation,
    so the second run copies the two lines after it instead of sorting
    them, and its output differs from the first. *)
Lemma C2_counterexample :
  SortImports default empty_fs C2_compound_line = Ok (Some C2_first_output)
  /\ SortImports default empty_fs C2_first_output
     = Ok (Some C2_second_output)
  /\ C2_first_output <> C2_second_output.
Proof.
  split; [vm_compute; reflexivity|].
  split; [vm_compute; reflexivity|]. discriminate.
Qed.

(** * Further properties *)

(** ** The other wrap styles *)

Lemma join_continued white_space closing rest :
  forall first,
    (join ("," ++ nl ++ white_space) (first :: rest) ++ closing)%string
    = (first ++ continued white_space closing rest)%string.
Proof.
  induction rest as [|x rest IH]; intros first; [reflexivity|].
  rewrite join_cons_nonempty by discriminate.
  cbn [continued]. rewrite !str_app_assoc, IH. reflexivity.
Qed.

Lemma column_continued white_space closing rest :
  forall cur,
    join nl (column cur white_space closing rest)
    = (cur ++ continued white_space closing rest)%string.
Proof.
  induction rest as [|x rest IH]; intros cur; [reflexivity|].
  cbn [column continued].
  rewrite join_cons_nonempty by (destruct rest; discriminate).
  rewrite IH, !str_app_assoc. reflexivity.
Qed.

Lemma column_lines white_space closing rest :
  no_newline white_space -> no_newline closing -> Forall no_newline rest ->
  forall cur,
    no_newline cur ->
    Forall no_newline (column cur white_space closing rest)
    /\ column cur white_space closing rest <> [].
Proof.
  intros W C F. induction F as [|x rest X F IH]; intros cur N.
  - split; [|discriminate]. repeat constructor. now apply no_newline_app.
  - cbn [column]. split; [|discriminate]. constructor.
    + apply no_newline_app; [exact N | reflexivity].
    + apply IH. now apply no_newline_app.
Qed.

(** X1: The vertical styles put each symbol on a line of its own, whatever
    [line_length] is: [_output_vertical] opens with [statement(symbol] and
    closes the last symbol with a parenthesis; the vertical hanging indent
    gives [statement(] and the closing parenthesis lines of their own. *)
Theorem vertical_styles_one_symbol_per_line (statement first : string)
  (rest : list string) (white_space indent : string) (line_length : nat) :
  no_newline statement -> no_newline white_space -> no_newline indent ->
  Forall no_newline (first :: rest) ->
  (exists out,
     _output_vertical statement (first :: rest) white_space indent line_length
     = Ok out
     /\ split newline out
        = column (statement ++ "(" ++ first) white_space ")" rest)
  /\ (exists out,
        _output_vertical_hanging_indent statement (first :: rest) white_space
          indent line_length = Ok out
        /\ split newline out
           = [(statement ++ "(")%string]
               ++ column (indent ++ first) indent "" rest ++ [")"]).
Proof.
  intros S W I F. inversion F as [|? ? F1 Fr]; subst. split.
  - eexists. split; [reflexivity|].
    rewrite join_continued.
    replace (statement ++ "(" ++ first ++ continued white_space ")" rest)%string
      with (join nl (column (statement ++ "(" ++ first) white_space ")" rest))
      by (rewrite column_continued, !str_app_assoc; reflexivity).
    destruct (column_lines white_space ")" rest W eq_refl Fr
                (statement ++ "(" ++ first)) as [L N].
    { repeat apply no_newline_app; auto; reflexivity. }
    now apply split_join.
  - eexists. split; [reflexivity|].
    destruct (column_lines indent "" rest I eq_refl Fr (indent ++ first))
      as [L N]; [now apply no_newline_app|].
    replace (statement ++ "(" ++ nl ++ indent
             ++ join ("," ++ nl ++ indent) (first :: rest) ++ nl ++ ")")%string
      with (join nl ([(statement ++ "(")%string]
                       ++ column (indent ++ first) indent "" rest ++ [")"])).
    + apply split_join; [discriminate|].
      apply Forall_app. split.
      * repeat constructor. apply no_newline_app; auto. reflexivity.
      * apply Forall_app. split; [exact L | repeat constructor].
    + cbn [app]. rewrite join_cons_nonempty
        by (destruct (column (indent ++ first) indent "" rest); discriminate).
      rewrite <- join_snoc_line by exact N.
      rewrite column_continued, !str_app_assoc.
      pose proof (join_continued indent "" rest first) as J.
      rewrite str_app_nil_r in J. rewrite J, !str_app_assoc. reflexivity.
Qed.

Lemma vertical_styles_one_symbol_per_line_witness :
  exists out,
    _output_vertical "from a import " ["b"; "c"] "    " "  " 80 = Ok out
    /\ split newline out = ["from a import (b,"; "    c)"].
Proof.
  destruct (vertical_styles_one_symbol_per_line "from a import " "b" ["c"]
              "    " "  " 80) as [H _];
    [reflexivity | reflexivity | reflexivity | repeat constructor | exact H].
Defined.

Lemma hanging_loop_rows indent line_length imports :
  no_newline indent ->
  Forall no_newline imports ->
  forall done cur,
    Forall no_newline done -> no_newline cur ->
    let r := hanging_rows done cur imports indent line_length in
    hanging_loop (join nl (done ++ [cur])) imports indent line_length
    = join nl (fst r ++ [snd r])
    /\ Forall no_newline (fst r) /\ no_newline (snd r).
Proof.
  intros W F. induction F as [|x imports X F IH]; intros done cur D C.
  - simpl. auto.
  - cbn [hanging_loop hanging_rows].
    rewrite (join_snoc_app done cur (", " ++ x)).
    rewrite last_line_join; auto.
    2:{ repeat apply no_newline_app; auto; reflexivity. }
    destruct (line_length <? _)%nat.
    + replace (join nl (done ++ [cur]) ++ ", " ++ String backslash "" ++ nl
               ++ indent ++ x)%string
        with (join nl ((done ++ [cur ++ ", " ++ String backslash ""]%string)
                         ++ [indent ++ x]%string)).
      * apply IH.
        -- apply Forall_app. split; auto. repeat constructor.
           apply no_newline_app; auto. reflexivity.
        -- now apply no_newline_app.
      * rewrite <- join_snoc_line by now destruct done.
        rewrite <- join_snoc_app, !str_app_assoc. reflexivity.
    + apply IH; auto.
      repeat apply no_newline_app; auto; reflexivity.
Qed.

Lemma hanging_rows_bound line_length all head0 indent imports :
  incl imports all ->
  forall done cur,
    Forall (closed_row line_length all head0 indent
              (", " ++ String backslash "")) done ->
    hanging_row line_length all head0 indent cur ->
    let r := hanging_rows done cur imports indent line_length in
    Forall (closed_row line_length all head0 indent
              (", " ++ String backslash "")) (fst r)
    /\ hanging_row line_length all head0 indent (snd r).
Proof.
  induction imports as [|x imports IH]; intros I done cur D C.
  - simpl. auto.
  - cbn [hanging_rows].
    destruct (line_length <? _)%nat eqn:E.
    + apply IH.
      * intros y Hy. apply I. now right.
      * apply Forall_app. split; [exact D|]. constructor; [|constructor].
        destruct C as [L|(head & s & Is & H & ->)].
        -- left. rewrite str_length_app. simpl. lia.
        -- right. exists head, s. repeat split; auto.
           now rewrite !str_app_assoc.
      * right. exists indent, x. repeat split; auto; [apply I; now left|].
        now rewrite str_app_nil_r.
    + apply IH; auto.
      * intros y Hy. apply I. now right.
      * left. apply Nat.ltb_ge in E. lia.
Qed.

(** X3: In the text [_output_hanging_indent] returns for a non-empty list of
    symbols, a line is at most [line_length] long unless it holds a single
    symbol, after [statement] and a space or after [indent], with or
    without the comma, space and backslash that continue it. *)
Theorem hanging_indent_line_bound (statement : string)
  (imports : list string) (white_space indent : string) (line_length : nat) :
  imports <> [] ->
  no_newline statement -> no_newline indent -> Forall no_newline imports ->
  exists out,
    _output_hanging_indent statement imports white_space indent line_length
    = Ok out
    /\ forall line,
        In line (split newline out) ->
        String.length line <= line_length
        \/ exists s tail,
            In s imports
            /\ (tail = (", " ++ String backslash "")%string \/ tail = "")
            /\ (line = (statement ++ " " ++ s ++ tail)%string
                \/ line = (indent ++ s ++ tail)%string).
Proof.
  intros N S I F. destruct imports as [|first rest]; [congruence|].
  inversion F as [|? ? F1 Fr]; subst.
  set (cur0 := (statement ++ " " ++ first)%string).
  assert (C0 : no_newline cur0).
  { repeat apply no_newline_app; auto; reflexivity. }
  destruct (hanging_loop_rows indent line_length rest I Fr [] cur0
              (Forall_nil _) C0) as (E & D & C).
  destruct (hanging_rows_bound line_length (first :: rest)
              (statement ++ " ")%string indent rest
              (fun y Hy => or_intror Hy) [] cur0 (Forall_nil _)) as (B & O).
  { right. exists (statement ++ " ")%string, first.
    repeat split; auto; [now left|].
    unfold cur0. now rewrite !str_app_assoc, str_app_nil_r. }
  set (r := hanging_rows [] cur0 rest indent line_length) in *.
  eexists. split; [reflexivity|].
  fold cur0. change cur0 with (join nl ([] ++ [cur0])).
  rewrite E, split_join.
  2:{ now destruct (fst r). }
  2:{ apply Forall_app. split; auto. }
  intros line L. apply in_app_or in L.
  assert (Conv : forall tail,
             (tail = (", " ++ String backslash "")%string \/ tail = "") ->
             single_symbol (first :: rest) (statement ++ " ")%string indent
               tail line ->
             exists s tail,
               In s (first :: rest)
               /\ (tail = (", " ++ String backslash "")%string \/ tail = "")
               /\ (line = (statement ++ " " ++ s ++ tail)%string
                   \/ line = (indent ++ s ++ tail)%string)).
  { intros tail T (head & s & Is & [->| ->] & ->);
      exists s, tail; repeat split; auto.
    left. now rewrite !str_app_assoc. }
  destruct L as [L|[<-|[]]].
  - rewrite Forall_forall in B. destruct (B line L) as [Le|Si]; auto.
    right. apply (Conv (", " ++ String backslash "")%string); auto.
  - destruct O as [Le|Si]; [left; lia|].
    right. apply (Conv ""); auto.
Qed.

Lemma hanging_indent_line_bound_witness :
  exists out,
    _output_hanging_indent "from a import" ["b"; "c"; "d"] "" "    " 20
    = Ok out
    /\ forall line,
        In line (split newline out) ->
        String.length line <= 20
        \/ exists s tail,
            In s ["b"; "c"; "d"]
            /\ (tail = (", " ++ String backslash "")%string \/ tail = "")
            /\ (line = ("from a import" ++ " " ++ s ++ tail)%string
                \/ line = ("    " ++ s ++ tail)%string).
Proof.
  apply (hanging_indent_line_bound "from a import" ["b"; "c"; "d"] ""
           "    " 20);
    [discriminate | reflexivity | reflexivity | repeat constructor].
Defined.

(** X4: The grouped vertical grid is the vertical grid with the closing
    parenthesis on a line of its own: the lines before it are those of
    [_output_vertical_grid_common], and each of them is at most
    [line_length] long unless it is the opening line [statement(] or holds
    a single symbol after [indent]. *)
Theorem vertical_grid_grouped_lines (statement : string)
  (imports : list string) (white_space indent : string) (line_length : nat) :
  imports <> [] ->
  no_newline statement -> no_newline indent -> Forall no_newline imports ->
  exists common,
    _output_vertical_grid_common statement imports white_space indent
      line_length = Ok common
    /\ _output_vertical_grid statement imports white_space indent line_length
       = Ok (common ++ ")")%string
    /\ _output_vertical_grid_grouped statement imports white_space indent
         line_length = Ok (common ++ nl ++ ")")%string
    /\ split newline (common ++ nl ++ ")") = split newline common ++ [")"]
    /\ forall line,
        In line (split newline common) ->
        String.length line <= line_length
        \/ line = (statement ++ "(")%string
        \/ exists s tail,
            In s imports /\ (tail = "," \/ tail = "")
            /\ line = (indent ++ s ++ tail)%string.
Proof.
  intros N S I F. destruct imports as [|first rest]; [congruence|].
  inversion F as [|? ? F1 Fr]; subst.
  exists (grid_loop (statement ++ "(" ++ nl ++ indent ++ first) rest indent
            line_length).
  split; [reflexivity|]. split; [reflexivity|].
  split; [reflexivity|]. split.
  { change (?c ++ nl ++ ")")%string
      with (c ++ String newline ")")%string.
    now rewrite split_app_sep. }
  set (cur0 := (indent ++ first)%string).
  assert (C0 : no_newline cur0) by now apply no_newline_app.
  assert (D0 : Forall no_newline [(statement ++ "(")%string]).
  { repeat constructor. apply no_newline_app; auto. reflexivity. }
  destruct (grid_loop_rows indent line_length rest I Fr
              [(statement ++ "(")%string] cur0 D0 C0) as (E & D & C).
  destruct (grid_rows_bound line_length (first :: rest) indent indent rest
              (fun y Hy => or_intror Hy) [(statement ++ "(")%string] cur0
              (fun l => l = (statement ++ "(")%string))
    as (B & O).
  { repeat constructor. }
  { right. exists indent, first. repeat split; auto; [now left|].
    unfold cur0. now rewrite str_app_nil_r. }
  set (r := grid_rows [(statement ++ "(")%string] cur0 rest indent
              line_length) in *.
  replace (statement ++ "(" ++ nl ++ cur0)%string
    with (join nl ([(statement ++ "(")%string] ++ [cur0])).
  2:{ simpl. now rewrite !str_app_assoc. }
  rewrite E, split_join.
  2:{ now destruct (fst r). }
  2:{ apply Forall_app. split; auto. }
  intros line L. apply in_app_or in L.
  destruct L as [L|[<-|[]]].
  - rewrite Forall_forall in B.
    destruct (B line L) as [He|[Le|(head & s & Is & Hh & ->)]]; auto.
    right. right. exists s, ",". repeat split; auto.
    now destruct Hh as [->| ->].
  - destruct O as [Le|(head & s & Is & Hh & ->)]; [left; lia|].
    right. right. exists s, "". repeat split; auto.
    now destruct Hh as [->| ->].
Qed.

Lemma vertical_grid_grouped_lines_witness :
  exists common,
    _output_vertical_grid_grouped "from a import " ["b"; "c"; "d"] "" "    "
      12 = Ok (common ++ nl ++ ")")%string
    /\ split newline (common ++ nl ++ ")") = split newline common ++ [")"].
Proof.
  destruct (vertical_grid_grouped_lines "from a import " ["b"; "c"; "d"] ""
              "    " 12) as (common & _ & _ & G & L & _);
    [discriminate | reflexivity | reflexivity | repeat constructor|].
  exists common. split; [exact G | exact L].
Defined.

(** ** The first occurrence of a character *)

Lemma prefix_char c s :
  prefix (String c "") s = true -> exists r, s = String c r.
Proof.
  destruct s as [|d s]; simpl; [discriminate|].
  destruct (ascii_dec c d) as [->|]; [eauto | discriminate].
Qed.

Lemma prefix_char_head c r : prefix (String c "") (String c r) = true.
Proof.
  simpl. destruct (ascii_dec c c); [apply prefix_nil | congruence].
Qed.

(** [find] with a pattern of one character: [-1] when the character does
    not occur, the length of the text before its first occurrence
    otherwise. *)
Lemma find_char c s :
  (has_char c s = false /\ find s (String c "") = (-1)%Z)
  \/ exists a b,
      s = (a ++ String c b)%string /\ has_char c a = false
      /\ find s (String c "") = Z.of_nat (String.length a).
Proof.
  induction s as [|d s IH].
  - left. split; reflexivity.
  - cbn [find has_char].
    destruct (prefix (String c "") (String d s)) eqn:P.
    + right. apply prefix_char in P. destruct P as [r [= -> ->]].
      exists "", r. repeat split.
    + assert (N : Ascii.eqb d c = false).
      { destruct (Ascii.eqb_spec d c) as [->|]; [|reflexivity].
        now rewrite prefix_char_head in P. }
      rewrite N. cbn [orb].
      destruct IH as [[H F]|(a & b & -> & H & F)].
      * left. rewrite F. split; [exact H | reflexivity].
      * right. exists (String d a), b. rewrite F. repeat split.
        -- simpl. now rewrite N.
        -- destruct (Z.ltb_spec (Z.of_nat (String.length a)) 0); [lia|].
           cbn [String.length]. lia.
Qed.

Lemma substring_app_length a b :
  String.substring 0 (String.length a) (a ++ b) = a.
Proof. induction a as [|c a IH]; simpl; [now destruct b | now rewrite IH]. Qed.

(** ** [_strip_comments] *)

(** X5: [_strip_comments] returns the part of the line before its first [#]:
    the line is the result followed by nothing or by a text that starts
    with [#], and the result holds no [#]. *)
Theorem strip_comments_cuts_at_first_hash (line : string) :
  has_char hash (_strip_comments line) = false
  /\ exists rest,
      line = (_strip_comments line ++ rest)%string
      /\ (rest = "" \/ exists r, rest = String hash r).
Proof.
  unfold _strip_comments.
  destruct (find_char hash line) as [[H F]|(a & b & E & H & F)].
  - change (String hash "") with "#" in F. rewrite F. cbn [Z.eqb negb].
    split; [exact H|]. exists "". rewrite str_app_nil_r. auto.
  - change (String hash "") with "#" in F. rewrite F.
    destruct (Z.eqb_spec (Z.of_nat (String.length a)) (-1)); [lia|].
    cbn [negb]. unfold slice_to.
    destruct (Z.ltb_spec (Z.of_nat (String.length a)) 0); [lia|].
    rewrite Nat2Z.id, E, substring_app_length.
    split; [exact H|]. exists (String hash b). eauto.
Qed.

(** ** The classifier, rule by rule *)

Lemma find_first c a b :
  has_char c a = false ->
  find (a ++ String c b) (String c "") = Z.of_nat (String.length a).
Proof.
  induction a as [|d a IH]; intros H.
  - cbn [append find]. now rewrite prefix_char_head.
  - cbn [has_char] in H. apply orb_false_iff in H. destruct H as [N H].
    cbn [append find].
    destruct (prefix (String c "") (String d (a ++ String c b))) eqn:P.
    + apply prefix_char in P. destruct P as [r [= -> _]].
      now rewrite Ascii.eqb_refl in N.
    + rewrite (IH H).
      destruct (Z.ltb_spec (Z.of_nat (String.length a)) 0); [lia|].
      cbn [String.length]. lia.
Qed.

Lemma forced_separate_match_In m l p :
  forced_separate_match m l = Some p -> In p l /\ startswith m p = true.
Proof.
  induction l as [|q l IH]; simpl; [discriminate|].
  destruct (startswith m q) eqn:E.
  - intros [= <-]. auto.
  - intros H. destruct (IH H). auto.
Qed.

Lemma forced_separate_match_first m l1 p l2 :
  Forall (fun q => startswith m q = false) l1 ->
  startswith m p = true ->
  forced_separate_match m (l1 ++ p :: l2) = Some p.
Proof.
  intros F P. induction F as [|q l1 Q F IH]; simpl.
  - now rewrite P.
  - now rewrite Q.
Qed.

Lemma list_index_range name l i :
  list_index name l = Ok i -> i < List.length l.
Proof.
  revert i. induction l as [|x l IH]; intros i; simpl; [discriminate|].
  destruct (String.eqb x name).
  - intros [= <-]. lia.
  - destruct (list_index name l) as [j| |]; simpl; try discriminate.
    intros [= <-]. specialize (IH j eq_refl). lia.
Qed.

Lemma place_module_In config fs moduleName key :
  place_module config fs moduleName = Ok key -> In key (all_sections config).
Proof.
  intros H. unfold all_sections. apply in_or_app.
  assert (S5 : forall i, i < 5 -> In (Std i) SECTIONS).
  { intros i L. unfold SECTIONS, FUTURE, STDLIB, THIRDPARTY, FIRSTPARTY,
      LOCALFOLDER.
    destruct i as [|[|[|[|[|i]]]]]; simpl; auto 6. lia. }
  unfold place_module in H.
  destruct (startswith moduleName ".");
    [injection H as <-; left; apply (S5 4); lia|].
  destruct (forced_separate_match _ _) as [p|] eqn:M.
  { injection H as <-. right. apply in_map.
    now apply forced_separate_match_In in M. }
  left.
  destruct (_ || _); [injection H as <-; apply (S5 0); lia|].
  destruct (_ || _); [injection H as <-; apply (S5 1); lia|].
  destruct (_ || _); [injection H as <-; apply (S5 2); lia|].
  destruct (_ || _); [injection H as <-; apply (S5 3); lia|].
  destruct (probe_paths fs moduleName (PYTHONPATH fs)) as [s|] eqn:P.
  - injection H as <-. apply probe_paths_range in P.
    destruct P as [->|[->| ->]];
      [apply (S5 2) | apply (S5 1) | apply (S5 3)]; lia.
  - destruct (list_index _ _) as [i| |] eqn:L; simpl in H;
      try discriminate.
    injection H as <-. apply S5.
    apply list_index_range in L. exact L.
Qed.

(** X6: Whatever [place_module] returns is a key of [self.imports]: one of the
    five sections or an entry of [forced_separate], for which [__init__]
    has made an empty record. *)
Theorem place_module_key_has_record (config : Config) (fs : FileSystem)
  (moduleName file_contents : string) (key : section_key) :
  place_module config fs moduleName = Ok key ->
  In key (all_sections config)
  /\ imports_get (initial_state config file_contents) key = Ok empty_bucket.
Proof.
  intros H. apply place_module_In in H. split; [exact H|].
  unfold imports_get. cbn [imports initial_state].
  now rewrite initial_imports_get.
Qed.

Lemma place_module_key_has_record_witness :
  In STDLIB (all_sections default)
  /\ imports_get (initial_state default "") STDLIB = Ok empty_bucket.
Proof.
  apply (place_module_key_has_record default empty_fs "os" "" STDLIB).
  reflexivity.
Defined.

(** X7: A name that does not start with a dot and starts with an entry of
    [forced_separate] goes to the section of the first such entry, before
    [__future__] and the tables of known modules are looked at. *)
Theorem forced_separate_first_match_wins (config : Config) (fs : FileSystem)
  (moduleName forced : string) (before after : list string) :
  startswith moduleName "." = false ->
  forced_separate config = before ++ forced :: after ->
  Forall (fun entry => startswith moduleName entry = false) before ->
  startswith moduleName forced = true ->
  place_module config fs moduleName = Ok (Forced forced).
Proof.
  intros D E F P. unfold place_module.
  now rewrite D, E, (forced_separate_match_first _ _ _ _ F P).
Qed.

Lemma forced_separate_first_match_wins_witness :
  place_module (with_forced_separate default ["django"; "__future__"])
    empty_fs "__future__" = Ok (Forced "__future__").
Proof.
  apply (forced_separate_first_match_wins
           (with_forced_separate default ["django"; "__future__"])
           empty_fs "__future__" "__future__" ["django"] []);
    [reflexivity | reflexivity | repeat constructor | reflexivity].
Defined.

(** X8: For a dotted name [a.rest] that no [forced_separate] entry claims, the
    first component decides: [__future__.rest] is in [FUTURE], and a name
    whose first component is in [known_standard_library] is in [STDLIB]. *)
Theorem dotted_name_first_component (config : Config) (fs : FileSystem)
  (a rest : string) :
  a <> "" -> has_char "." a = false ->
  forced_separate_match (a ++ "." ++ rest) (forced_separate config) = None ->
  (a = "__future__" ->
   place_module config fs (a ++ "." ++ rest) = Ok FUTURE)
  /\ (a <> "__future__" ->
      mem a (known_standard_library config) = true ->
      place_module config fs (a ++ "." ++ rest) = Ok STDLIB).
Proof.
  intros N H M.
  assert (D : startswith (a ++ "." ++ rest) "." = false).
  { destruct a as [|c a]; [congruence|]. cbn [has_char] in H.
    apply orb_false_iff in H. destruct H as [H _].
    unfold startswith. cbn [append prefix].
    destruct (ascii_dec "." c) as [<-|]; [|reflexivity].
    now rewrite Ascii.eqb_refl in H. }
  assert (F : find (a ++ "." ++ rest) "." = Z.of_nat (String.length a))
    by apply (find_first "." a rest H).
  assert (L : String.length a <> 0) by (destruct a; [congruence | discriminate]).
  assert (S1 : slice_to (a ++ "." ++ rest) (Z.of_nat (String.length a)) = a).
  { unfold slice_to.
    destruct (Z.ltb_spec (Z.of_nat (String.length a)) 0); [lia|].
    now rewrite Nat2Z.id, substring_app_length. }
  assert (W : String.eqb (a ++ "." ++ rest) "__future__" = false).
  { destruct (String.eqb_spec (a ++ "." ++ rest) "__future__") as [E|];
      [|reflexivity].
    apply (f_equal (has_char ".")) in E.
    rewrite has_char_app in E. simpl in E. now rewrite orb_true_r in E. }
  unfold place_module. rewrite D, F, M, S1, W.
  destruct (Z.eqb_spec (Z.of_nat (String.length a)) 0); [lia|].
  cbn [opt_eqb opt_mem orb]. split.
  - intros ->. reflexivity.
  - intros Nf K. destruct (String.eqb_spec a "__future__"); [congruence|].
    now rewrite K, orb_true_r.
Qed.

Lemma dotted_name_first_component_witness :
  place_module default empty_fs "os.path" = Ok STDLIB.
Proof.
  apply (dotted_name_first_component default empty_fs "os" "path");
    [discriminate | reflexivity | reflexivity | discriminate | reflexivity].
Defined.

(** ** The outcomes of a run *)

Lemma list_index_outcome name l :
  (exists i, list_index name l = Ok i)
  \/ (list_index name l = Raise ValueError /\ ~ In name l).
Proof.
  induction l as [|x l IH]; simpl.
  - right. split; [reflexivity | tauto].
  - destruct (String.eqb_spec x name) as [->|N]; [left; eauto|].
    destruct IH as [[i ->]|[-> I]]; simpl; [left; eauto|].
    right. split; [reflexivity|]. intros [E|E]; auto.
Qed.

(** X9: [place_module] returns a section for every name, except that it raises
    [ValueError] for a name no rule decides when [default_section] is not
    one of the five section names. *)
Theorem place_module_fails_on_default_section_only (config : Config)
  (fs : FileSystem) (moduleName : string) :
  (exists key, place_module config fs moduleName = Ok key)
  \/ (place_module config fs moduleName = Raise ValueError
      /\ ~ In (default_section config) SECTION_NAMES).
Proof.
  unfold place_module.
  destruct (startswith moduleName "."); [left; eauto|].
  destruct (forced_separate_match _ _); [left; eauto|].
  repeat (destruct (_ || _); [left; eauto|]).
  destruct (probe_paths _ _ _); [left; eauto|].
  destruct (list_index_outcome (default_section config) SECTION_NAMES)
    as [[i ->]|[-> N]]; simpl; [left; eauto | right; auto].
Qed.

Section Outcomes.

Variable value_error : Prop.

Local Abbreviation fine := (outcome value_error).

Lemma outcome_bind {A B : Type} (m : result A) (k : A -> result B) :
  fine m -> (forall a, m = Ok a -> fine (k a)) -> fine (bind m k).
Proof.
  destruct m as [a|e|]; simpl; auto.
Qed.

Lemma py_nth_fine l i : fine (py_nth l i).
Proof.
  unfold py_nth. destruct (_ <? 0)%Z; simpl; auto.
  destruct (nth_error _ _); simpl; auto.
Qed.

Lemma _get_line_fine st : fine (_get_line st).
Proof. unfold _get_line. destruct (nth_error _ _); simpl; auto. Qed.

Lemma index_of_lt x l : mem x l = true -> index_of x l < List.length l.
Proof.
  induction l as [|y l IH]; simpl; [discriminate|].
  rewrite (String.eqb_sym x y). destruct (String.eqb y x); simpl; [lia|].
  intros H. specialize (IH H). lia.
Qed.

Lemma as_loop_fine fuel :
  forall kind imports as_map,
    List.length imports <= fuel -> fine (as_loop fuel kind imports as_map).
Proof.
  induction fuel as [|fuel IH]; intros kind imports as_map L.
  - destruct imports; [exact I | simpl in L; lia].
  - cbn [as_loop]. destruct (mem "as" imports) eqn:M; [|exact I].
    pose proof (index_of_lt _ _ M) as Lt.
    apply outcome_bind.
    { destruct kind; [apply py_nth_fine|].
      apply outcome_bind; [apply py_nth_fine|]. intros first _.
      apply outcome_bind; [apply py_nth_fine|]. intros prev _. exact I. }
    intros key _. apply outcome_bind; [apply py_nth_fine|]. intros alias _.
    apply IH. rewrite length_app, length_firstn, length_skipn. lia.
Qed.

Lemma record_aliases_fine kind imports as_map :
  fine (record_aliases kind imports as_map).
Proof.
  unfold record_aliases. destruct (_ && _); [|exact I].
  now apply as_loop_fine.
Qed.

Lemma _get_line_ready st r :
  _get_line st = Ok r ->
  in_lines (snd r) = in_lines st
  /\ number_of_lines (snd r) = number_of_lines st
  /\ index (snd r) = S (index st)
  /\ index st < List.length (in_lines st)
  /\ imports (snd r) = imports st.
Proof.
  intros G. apply _get_line_spec in G. destruct G as [N ->]. simpl.
  repeat split; [lia|]. apply nth_error_Some. congruence.
Qed.

Lemma paren_loop_fine fuel :
  forall line s st,
    number_of_lines st = List.length (in_lines st) ->
    index st <= List.length (in_lines st) ->
    List.length (in_lines st) - index st < fuel ->
    fine (paren_loop fuel line s st).
Proof.
  induction fuel as [|fuel IH]; intros line s st N B F; [lia|].
  cbn [paren_loop]. destruct (negb _ && negb _) eqn:C; [|exact I].
  apply outcome_bind; [apply _get_line_fine|]. intros r G.
  apply _get_line_ready in G. destruct G as (G1 & G2 & G3 & G4 & _).
  apply IH; rewrite ?G1, ?G2, ?G3; auto; lia.
Qed.

Lemma backslash_loop_fine fuel :
  forall line s st,
    index st <= List.length (in_lines st) ->
    List.length (in_lines st) - index st < fuel ->
    fine (backslash_loop fuel line s st).
Proof.
  induction fuel as [|fuel IH]; intros line s st B F; [lia|].
  cbn [backslash_loop]. destruct (endswith _ _); [|exact I].
  apply outcome_bind; [apply _get_line_fine|]. intros r G.
  apply _get_line_ready in G. destruct G as (G1 & G2 & G3 & G4 & _).
  apply IH; rewrite ?G1, ?G3; lia.
Qed.

Lemma read_statement_fine line st :
  number_of_lines st = List.length (in_lines st) ->
  index st <= List.length (in_lines st) ->
  fine (read_statement line st).
Proof.
  intros N B. unfold read_statement. destruct (_ && _).
  - apply paren_loop_fine; auto; lia.
  - apply backslash_loop_fine; auto; lia.
Qed.

Lemma paren_loop_bound fuel :
  forall line s st r,
    paren_loop fuel line s st = Ok r ->
    index st <= List.length (in_lines st) ->
    index (snd r) <= List.length (in_lines st).
Proof.
  induction fuel as [|fuel IH]; intros line s st r; cbn [paren_loop];
    destruct (negb _ && negb _); try discriminate;
    try (intros [= <-]; auto).
  intros H B. inv_bind H.
  apply _get_line_ready in E. destruct E as (G1 & G2 & G3 & G4 & _).
  rewrite <- G1. apply (IH _ _ _ _ H). rewrite G1, G3. lia.
Qed.

Lemma backslash_loop_bound fuel :
  forall line s st r,
    backslash_loop fuel line s st = Ok r ->
    index st <= List.length (in_lines st) ->
    index (snd r) <= List.length (in_lines st).
Proof.
  induction fuel as [|fuel IH]; intros line s st r; cbn [backslash_loop];
    destruct (endswith _ _); try discriminate;
    try (intros [= <-]; auto).
  intros H B. inv_bind H.
  apply _get_line_ready in E. destruct E as (G1 & G2 & G3 & G4 & _).
  rewrite <- G1. apply (IH _ _ _ _ H). rewrite G1, G3. lia.
Qed.

Lemma read_statement_bound line st r :
  read_statement line st = Ok r ->
  index st <= List.length (in_lines st) ->
  index (snd r) <= List.length (in_lines st).
Proof.
  unfold read_statement. destruct (_ && _).
  - apply paren_loop_bound.
  - apply backslash_loop_bound.
Qed.

Variable config : Config.
Variable place : string -> result section_key.

Hypothesis place_fine : forall m, fine (place m).
Hypothesis place_key :
  forall m k, place m = Ok k -> In k (all_sections config).

Local Abbreviation has_keys := (has_keys config).
Local Abbreviation ready := (ready config).

Lemma has_keys_set k b d :
  has_keys d -> has_keys (dict_set section_key_eqb k b d).
Proof.
  intros H k' I'. destruct (section_key_eqb k k') eqn:E.
  - apply section_key_eqb_spec in E. subst k'.
    rewrite (dict_get_set_same _ section_key_eqb_spec). discriminate.
  - rewrite (dict_get_set_other _ section_key_eqb_spec); [now apply H|].
    intros N. subst k'.
    rewrite (proj2 (section_key_eqb_spec k k)) in E;
      [discriminate | reflexivity].
Qed.

Lemma lookup_fine d k : has_keys d -> In k (all_sections config) ->
  exists b, lookup d k = Ok b.
Proof.
  intros H I'. unfold lookup. specialize (H k I').
  destruct (dict_get section_key_eqb k d); [eauto | congruence].
Qed.

Lemma store_straight_dict_fine tokens :
  forall d, has_keys d ->
            fine (store_straight_dict place tokens d)
            /\ forall d', store_straight_dict place tokens d = Ok d' ->
                          has_keys d'.
Proof.
  induction tokens as [|m tokens IH]; intros d H; cbn [store_straight_dict].
  - split; [exact I|]. now intros d' [= <-].
  - pose proof (place_fine m) as Pf. pose proof (place_key m) as Pk.
    destruct (place m) as [k| |]; cbn [bind]; try (split; [exact Pf|]);
      try discriminate.
    destruct (lookup_fine d k H (Pk k eq_refl)) as [b ->]. cbn [bind].
    apply IH. now apply has_keys_set.
Qed.

Lemma store_dict_fine kind tokens d :
  has_keys d ->
  fine (store_dict place kind tokens d)
  /\ forall d', store_dict place kind tokens d = Ok d' -> has_keys d'.
Proof.
  intros H. destruct kind; [now apply store_straight_dict_fine|].
  destruct tokens as [|m symbols]; cbn [store_dict store_from_dict].
  - split; [exact I | discriminate].
  - pose proof (place_fine m) as Pf. pose proof (place_key m) as Pk.
    destruct (place m) as [k| |]; cbn [bind]; try (split; [exact Pf|]);
      try discriminate.
    destruct (lookup_fine d k H (Pk k eq_refl)) as [b ->]. cbn [bind].
    split; [exact I|]. intros d' [= <-]. now apply has_keys_set.
Qed.

Lemma imports_mark_import st : imports (mark_import st) = imports st.
Proof. unfold mark_import. now destruct (import_index st). Qed.

Lemma parse_statement_fine kind line st :
  ready st -> fine (parse_statement place kind line st).
Proof.
  intros (N & B & K). unfold parse_statement. fold (mark_import st).
  assert (M : in_lines (mark_import st) = in_lines st
              /\ number_of_lines (mark_import st) = number_of_lines st
              /\ index (mark_import st) = index st)
    by (unfold mark_import; destruct (import_index st); auto).
  destruct M as (M1 & M2 & M3).
  apply outcome_bind.
  { apply read_statement_fine; rewrite ?M1, ?M2, ?M3; auto. }
  intros r E. apply outcome_bind; [apply record_aliases_fine|].
  intros a _.
  apply read_statement_frame in E. destruct E as (_ & _ & _ & E & _).
  assert (S : fine (store place kind (fst a) (set_as_map (snd r) (snd a)))).
  { rewrite store_dict_spec. apply outcome_bind; [|intros; exact I].
    apply store_dict_fine. cbn [imports set_as_map].
    now rewrite E, imports_mark_import. }
  destruct kind; exact S.
Qed.

Lemma parse_statement_ready kind line st st' :
  parse_statement place kind line st = Ok st' -> ready st ->
  ready st' /\ index st <= index st'.
Proof.
  intros H (N & B & K).
  destruct (parse_statement_dict _ _ _ _ _ H) as [tokens Tk].
  pose proof (parse_statement_frame _ _ _ _ _ H) as (F1 & F2 & F3 & F4 & _).
  split; [|exact F4]. split; [congruence|]. split.
  - unfold parse_statement in H. fold (mark_import st) in H.
    inv_bind H. inv_bind H.
    assert (S : store place kind (fst r0) (set_as_map (snd r) (snd r0))
                = Ok st') by (destruct kind; exact H).
    rewrite store_dict_spec in S. inv_bind S. injection S as <-.
    cbn [index set_imports set_as_map in_lines].
    apply read_statement_bound in E.
    + replace (in_lines (mark_import st)) with (in_lines st) in E
        by (unfold mark_import; now destruct (import_index st)).
      pose proof (f_equal (@List.length string) F1) as L.
      cbn [in_lines set_imports set_as_map] in L. lia.
    + unfold mark_import. now destruct (import_index st).
  - apply (proj2 (store_dict_fine kind tokens (imports st) K) _ Tk).
Qed.

(** The lines still to read are iterations enough for [_parse], which
    raises no [KeyError] and leaves a record for every section. *)
Lemma parse_fuel_enough fuel :
  forall q st,
    ready st -> List.length (in_lines st) - index st <= fuel ->
    fine (parse_loop place fuel q st)
    /\ forall st', parse_loop place fuel q st = Ok st' ->
                   has_keys (imports st').
Proof.
  induction fuel as [|fuel IH]; intros q st R F; cbn [parse_loop];
    pose proof R as (N & B & K); destruct (_at_end st) eqn:A;
    try (split; [exact I | now intros st' [= <-]]).
  - unfold _at_end in A. apply Nat.eqb_neq in A. lia.
  - unfold _at_end in A. apply Nat.eqb_neq in A.
    pose proof (_get_line_fine st) as Gf.
    destruct (_get_line st) as [r| |] eqn:G; cbn [bind];
      try (split; [exact Gf | discriminate]).
    apply _get_line_ready in G. destruct G as (G1 & G2 & G3 & G4 & G5).
    assert (Rr : ready (snd r)).
    { unfold ready. rewrite G1, G2, G3, G5. repeat split; auto. }
    assert (Copy : forall q',
               fine (parse_loop place fuel q'
                       (set_out_lines (snd r)
                          (out_lines (snd r) ++ [fst r])))
               /\ forall st',
                    parse_loop place fuel q'
                      (set_out_lines (snd r) (out_lines (snd r) ++ [fst r]))
                    = Ok st' -> has_keys (imports st')).
    { intros q'. apply IH.
      - destruct Rr as (R1 & R2 & R3). repeat split; auto.
      - cbn [in_lines index set_out_lines]. rewrite G1, G3. lia. }
    destruct (_import_type (fst r)) as [kind|]; [destruct q|];
      try apply Copy.
    pose proof (parse_statement_fine kind (fst r) (snd r) Rr) as Pf.
    destruct (parse_statement place kind (fst r) (snd r)) as [st1| |] eqn:P;
      cbn [bind]; try (split; [exact Pf | discriminate]).
    pose proof (parse_statement_frame _ _ _ _ _ P) as (F1 & _).
    apply parse_statement_ready in P; [|exact Rr].
    destruct P as [R1 Le].
    apply IH; [exact R1|]. rewrite F1, G1. lia.
Qed.

End Outcomes.

Lemma place_module_fine config fs moduleName :
  outcome (~ In (default_section config) SECTION_NAMES)
    (place_module config fs moduleName).
Proof.
  unfold place_module.
  destruct (startswith moduleName "."); [exact I|].
  destruct (forced_separate_match _ _); [exact I|].
  repeat (destruct (_ || _); [exact I|]).
  destruct (probe_paths _ _ _); [exact I|].
  destruct (list_index_outcome (default_section config) SECTION_NAMES)
    as [[i ->]|[-> N]]; simpl; auto.
Qed.

Lemma initial_state_ready config file_contents :
  ready config (initial_state config file_contents).
Proof.
  split; [reflexivity|]. split; [cbn [index initial_state]; lia|].
  intros k K. cbn [imports initial_state].
  rewrite (initial_imports_get _ _ K). discriminate.
Qed.

Lemma formatted_output_ok config st :
  has_keys config (imports st) ->
  exists output, formatted_output config st = Ok output.
Proof.
  intros K.
  destruct (render_sections_blocks config st (all_sections config))
    as (blocks & R & _).
  - intros k I. specialize (K k I). unfold imports_get.
    destruct (dict_get section_key_eqb k (imports st)); [eauto|congruence].
  - unfold formatted_output. rewrite R. cbn [bind]. eauto.
Qed.

Lemma SortImports_fine config fs file_contents :
  outcome (~ In (default_section config) SECTION_NAMES)
    (SortImports config fs file_contents).
Proof.
  unfold SortImports, SortImports_with.
  destruct (contains file_contents "isort:skip_file"); [exact I|].
  destruct (parse_fuel_enough _ config (place_module config fs)
              (place_module_fine config fs) (place_module_In config fs)
              (List.length (in_lines (initial_state config file_contents)))
              None _ (initial_state_ready config file_contents))
    as [F K]; [cbn [index initial_state]; lia|].
  apply outcome_bind; [exact F|]. intros st P. specialize (K st P).
  apply outcome_bind; [|intros; exact I].
  unfold _add_formatted_imports.
  destruct (formatted_output_ok config st K) as [output ->]. cbn [bind].
  destruct (import_index st); exact I.
Qed.

(** X10: A run of [SortImports] on a text ends: it gives its output (or returns
    early for a skipped file), or raises [IndexError], or raises
    [ValueError], which needs a [default_section] that is not one of the
    five section names. It raises no [KeyError], and its loops end within
    the lines of the text. *)
Theorem SortImports_outcomes (config : Config) (fs : FileSystem)
  (file_contents : string) :
  (exists output, SortImports config fs file_contents = Ok output)
  \/ SortImports config fs file_contents = Raise IndexError
  \/ (SortImports config fs file_contents = Raise ValueError
      /\ ~ In (default_section config) SECTION_NAMES).
Proof.
  pose proof (SortImports_fine config fs file_contents) as F.
  destruct (SortImports config fs file_contents) as [o|[]|]; simpl in F;
    eauto; contradiction.
Qed.

(** ** The sections of the modules [_parse] records *)

Lemma parse_loop_good place fuel :
  forall q st st',
    parse_loop place fuel q st = Ok st' ->
    good_dict place (imports st) -> good_dict place (imports st').
Proof.
  induction fuel as [|fuel IH]; intros q st st'; cbn [parse_loop];
    destruct (_at_end st); try discriminate;
    try (intros [= <-]; auto).
  intros H G. inv_bind H.
  apply _get_line_spec in E. destruct E as [_ E].
  assert (Gr : good_dict place (imports (snd r))) by (now rewrite E).
  destruct (_import_type (fst r)) as [kind|]; [destruct q|];
    try (apply (IH _ _ _ H); exact Gr).
  inv_bind H. destruct (parse_statement_dict _ _ _ _ _ E0) as [tokens Tk].
  apply (IH _ _ _ H). eapply store_dict_good; eauto.
Qed.

(** X11: After [_parse], every module recorded in a section is one that
    [place_module] puts there, as a straight import and as the module of a
    [from] import. *)
Theorem parsed_modules_are_in_their_sections (config : Config)
  (fs : FileSystem) (file_contents : string) (st : State)
  (key : section_key) (bucket : Bucket) :
  _parse config fs (initial_state config file_contents) = Ok st ->
  imports_get st key = Ok bucket ->
  (forall module, In module (straight bucket) ->
                  place_module config fs module = Ok key)
  /\ (forall module symbols, In (module, symbols) (from bucket) ->
                             place_module config fs module = Ok key).
Proof.
  intros P G. unfold _parse, _parse_with in P.
  apply parse_loop_good in P; [|apply initial_imports_good].
  unfold imports_get in G.
  destruct (dict_get section_key_eqb key (imports st)) as [b|] eqn:D;
    [|discriminate].
  injection G as <-. destruct (P key b D) as (_ & S & _ & F).
  split; [exact S|]. intros module symbols H. apply (F _ _ H).
Qed.

Lemma parsed_modules_are_in_their_sections_witness :
  place_module default empty_fs "os" = Ok STDLIB.
Proof.
  refine (proj1 (parsed_modules_are_in_their_sections default empty_fs
                   "import os, sys" _ STDLIB
                   {| straight := ["os"; "sys"]; from := [] |} _ _)
            "os" _).
  - vm_compute. reflexivity.
  - vm_compute. reflexivity.
  - left. reflexivity.
Defined.

(** ** The first import statement and the end of the text *)

Lemma join_head_app (a b : string) l :
  join nl ((a ++ b)%string :: l) = (a ++ join nl (b :: l))%string.
Proof.
  destruct l as [|x l]; [reflexivity|].
  rewrite !join_cons. now rewrite str_app_assoc.
Qed.

Lemma fold_lines_join (f : string -> string) rest :
  forall s,
    fold_left (fun acc l => (acc ++ nl ++ f l)%string) rest s
    = join nl (s :: map f rest).
Proof.
  induction rest as [|l rest IH]; intros s; [reflexivity|].
  cbn [fold_left map]. rewrite IH, join_cons, join_head_app.
  f_equal. change (nl ++ f l)%string with (String newline (f l)).
  destruct (map f rest); reflexivity.
Qed.

(** With no line that closes it, the loop of a parenthesised statement
    reads every line that is left. *)
Lemma paren_loop_rest rest :
  forall fuel line s st done,
    in_lines st = done ++ rest ->
    index st = List.length done ->
    number_of_lines st = List.length (in_lines st) ->
    endswith (strip line) ")" = false ->
    Forall (fun l => leaves_open l = true) rest ->
    List.length rest <= fuel ->
    paren_loop fuel line s st
    = Ok (fold_left (fun acc l => (acc ++ nl ++ _strip_comments l)%string)
            rest s,
          set_index st (number_of_lines st)).
Proof.
  induction rest as [|l rest IH]; intros fuel line s st done I X N E F L.
  - assert (A : _at_end st = true).
    { unfold _at_end. rewrite N, I, X, app_nil_r. apply Nat.eqb_refl. }
    assert (S : set_index st (number_of_lines st) = st).
    { unfold _at_end in A. apply Nat.eqb_eq in A. rewrite <- A.
      now destruct st. }
    rewrite S. destruct fuel; cbn [paren_loop fold_left];
      now rewrite A, andb_false_r.
  - destruct fuel as [|fuel]; [simpl in L; lia|].
    destruct (_get_line_next done l rest st I X N) as [A G].
    inversion F as [|? ? Fl Fr]; subst.
    unfold leaves_open in Fl. apply negb_true_iff in Fl.
    cbn [paren_loop fold_left]. rewrite E, A, G. cbn [negb andb bind fst snd].
    rewrite (IH fuel _ _ _ (done ++ [l])); auto.
    + cbn [in_lines set_index]. now rewrite I, <- app_assoc.
    + cbn [index set_index]. rewrite X, length_app. reflexivity.
    + simpl in L. lia.
Qed.

Lemma parse_loop_at_end place fuel q st :
  _at_end st = true -> parse_loop place fuel q st = Ok st.
Proof. intros A. destruct fuel; cbn [parse_loop]; now rewrite A. Qed.

Section FirstImport.

Variable config : Config.
Variable fs : FileSystem.
Hypothesis no_additions : add_imports config = [].

Local Abbreviation place := (place_module config fs).
Local Abbreviation at_first_import := (at_first_import config).

(** A run up to the first import statement. *)
Lemma first_import_reached pre line rest kind :
  Forall (fun l => clean_line l = true) (pre ++ line :: rest) ->
  copy_trace None pre = true ->
  quote_after None pre = None ->
  _import_type line = Some kind ->
  SortImports config fs (join nl (pre ++ line :: rest))
  = (st <- parse_statement place kind line (at_first_import pre line rest) ;;
     st <- parse_loop place (List.length rest) (update_in_quote None line)
             st ;;
     finish config st).
Proof.
  intros C T Q K. destruct (clean_lines _ C) as [L M].
  assert (N : pre ++ line :: rest <> []) by now destruct pre.
  unfold SortImports, SortImports_with.
  rewrite (contains_join_none "isort:skip_file" _ eq_refl N M).
  unfold _parse_with, initial_state.
  rewrite (split_join _ N L), no_additions, app_nil_r.
  cbn [in_lines].
  replace (List.length (pre ++ line :: rest))
    with (List.length pre + S (List.length rest)) at 1
    by (rewrite length_app; reflexivity).
  rewrite (parse_copied place pre None [] (line :: rest)); auto.
  rewrite Q.
  cbn [index out_lines set_index set_out_lines in_lines number_of_lines
         imports as_map import_index app Nat.add].
  match goal with
  | |- context [parse_loop _ _ _ ?st] =>
      destruct (_get_line_next pre line rest st) as [A G];
        [reflexivity | reflexivity | reflexivity |]
  end.
  cbn [parse_loop]. rewrite A, G. cbn [bind fst snd]. rewrite K.
  unfold at_first_import, set_index.
  cbn [index out_lines set_index set_out_lines in_lines number_of_lines
         imports as_map import_index].
  destruct (parse_statement _ _ _ _) as [st1| |]; cbn [bind];
    reflexivity.
Qed.

Lemma parse_statement_on_last_line pre line kind :
  endswith (strip line) (String backslash "") = true ->
  parse_statement place kind line (at_first_import pre line [])
  = Raise IndexError.
Proof.
  intros E. unfold parse_statement, read_statement, at_first_import.
  cbn [import_index set_import_index index in_lines number_of_lines _at_end].
  unfold _at_end. cbn [index number_of_lines].
  rewrite length_app. cbn [List.length].
  rewrite Nat.eqb_refl, andb_false_r.
  cbn [backslash_loop]. rewrite E.
  unfold _get_line. cbn [in_lines index set_import_index].
  replace (nth_error (pre ++ [line]) (List.length pre + 1))
    with (@None string); [reflexivity|].
  symmetry. apply nth_error_None. rewrite length_app. simpl. lia.
Qed.

Lemma parse_statement_unclosed pre line rest kind :
  rest <> [] ->
  contains line "(" = true ->
  endswith (strip line) ")" = false ->
  Forall (fun l => leaves_open l = true) rest ->
  parse_statement place kind line (at_first_import pre line rest)
  = (a <- record_aliases kind
            (tokenize (join nl (map _strip_comments (line :: rest)))) [] ;;
     d <- store_dict place kind (fst a) (initial_imports config) ;;
     Ok {| in_lines := pre ++ line :: rest;
           index := List.length (pre ++ line :: rest);
           number_of_lines := List.length (pre ++ line :: rest);
           out_lines := pre;
           imports := d;
           as_map := snd a;
           import_index := Some (List.length pre) |}).
Proof.
  intros N P E F. unfold parse_statement, read_statement.
  set (st := match import_index (at_first_import pre line rest) with
             | None => set_import_index (at_first_import pre line rest)
                         (Some (index (at_first_import pre line rest) - 1))
             | Some _ => at_first_import pre line rest
             end).
  assert (A : _at_end st = false).
  { unfold _at_end, st, at_first_import.
    cbn [import_index set_import_index index number_of_lines].
    rewrite length_app. apply Nat.eqb_neq.
    destruct rest; [congruence | simpl; lia]. }
  rewrite P, A. cbn [negb andb].
  rewrite (paren_loop_rest rest _ line _ st (pre ++ [line])); auto.
  - rewrite fold_lines_join. cbn [bind fst snd map].
    destruct (record_aliases _ _ _) as [a| |]; cbn [bind]; try reflexivity.
    assert (S : forall st0,
               match kind with
               | Straight => store_straight place (fst a) st0
               | From => store_from place (fst a) st0
               end = store place kind (fst a) st0) by now destruct kind.
    rewrite S, store_dict_spec.
    unfold st, at_first_import.
    cbn [import_index set_import_index set_as_map set_index imports index
           number_of_lines in_lines out_lines as_map].
    destruct (store_dict _ _ _ _) as [d| |]; cbn [bind]; try reflexivity.
    unfold set_imports, set_as_map, set_index, set_import_index.
    cbn [import_index imports index number_of_lines in_lines out_lines
           as_map].
    replace (List.length pre + 1 - 1) with (List.length pre) by lia.
    reflexivity.
  - unfold st, at_first_import. cbn [import_index set_import_index in_lines].
    now rewrite <- app_assoc.
  - unfold st, at_first_import. cbn [import_index set_import_index index].
    rewrite length_app. reflexivity.
  - unfold st, at_first_import. cbn [import_index set_import_index in_lines].
    rewrite length_app. simpl. lia.
Qed.

End FirstImport.

(** X12: When the first import statement of a text starts on its last line and
    that line ends with a backslash, the run raises [IndexError]: the
    scanner asks for a line after the last. *)
Theorem continuation_on_last_line_raises (config : Config) (fs : FileSystem)
  (pre : list string) (line : string) (kind : import_kind) :
  add_imports config = [] ->
  Forall (fun l => clean_line l = true) (pre ++ [line]) ->
  copy_trace None pre = true ->
  quote_after None pre = None ->
  _import_type line = Some kind ->
  endswith (strip line) (String backslash "") = true ->
  SortImports config fs (join nl (pre ++ [line])) = Raise IndexError.
Proof.
  intros A C T Q K E.
  rewrite (first_import_reached config fs A pre line [] kind C T Q K).
  now rewrite parse_statement_on_last_line.
Qed.

Lemma continuation_on_last_line_raises_witness :
  SortImports default empty_fs
    (join nl ["x = 1"; ("import os, " ++ String backslash "")%string])
  = Raise IndexError.
Proof.
  apply (continuation_on_last_line_raises default empty_fs ["x = 1"]
           ("import os, " ++ String backslash "")%string Straight);
    try reflexivity.
  repeat constructor.
Defined.

Lemma render_sections_same config st st' sections :
  imports st = imports st' -> as_map st = as_map st' ->
  forall output,
    render_sections config st sections output
    = render_sections config st' sections output.
Proof.
  intros I A. induction sections as [|k sections IH]; intros output;
    [reflexivity|].
  cbn [render_sections].
  assert (E : render_section config st k output
              = render_section config st' k output)
    by (unfold render_section, imports_get; now rewrite I, A).
  rewrite E. destruct (render_section config st' k output); cbn [bind];
    auto.
Qed.

(** X13: An import statement with an opening parenthesis that no line closes
    takes every line after it: their words are stored as names of the
    statement, and the output is the lines before the statement followed
    by the rendered imports. *)
Theorem unclosed_parenthesis_takes_every_line (config : Config)
  (fs : FileSystem) (pre : list string) (line : string) (rest : list string)
  (kind : import_kind) :
  add_imports config = [] ->
  Forall (fun l => clean_line l = true) (pre ++ line :: rest) ->
  copy_trace None pre = true ->
  quote_after None pre = None ->
  _import_type line = Some kind ->
  contains line "(" = true ->
  endswith (strip line) ")" = false ->
  rest <> [] ->
  Forall (fun l => leaves_open l = true) rest ->
  SortImports config fs (join nl (pre ++ line :: rest))
  = (a <- record_aliases kind
            (tokenize (join nl (map _strip_comments (line :: rest)))) [] ;;
     d <- store_dict (place_module config fs) kind (fst a)
            (initial_imports config) ;;
     block <- formatted_output config
                (set_as_map (set_imports (at_first_import config pre line rest)
                               d) (snd a)) ;;
     Ok (Some (join nl (rstrip_blank (pre ++ block) ++ [""])))).
Proof.
  intros A C T Q K P E N F.
  rewrite (first_import_reached config fs A pre line rest kind C T Q K).
  rewrite (parse_statement_unclosed config fs pre line rest kind N P E F).
  destruct (record_aliases _ _ _) as [a| |]; cbn [bind]; try reflexivity.
  destruct (store_dict _ _ _ _) as [d| |]; cbn [bind]; try reflexivity.
  rewrite parse_loop_at_end by (unfold _at_end; apply Nat.eqb_refl).
  cbn [bind]. unfold finish, _add_formatted_imports, formatted_output.
  cbn [import_index out_lines].
  rewrite (render_sections_same config _
             (set_as_map (set_imports (at_first_import config pre line rest)
                            d) (snd a)))
    by reflexivity.
  destruct (render_sections _ _ _ _) as [output| |]; cbn [bind];
    try reflexivity.
  cbn [out_lines set_out_lines].
  pose proof (splice_spec pre (rstrip_blank output) []) as S.
  rewrite app_nil_r in S. rewrite S. cbn [lstrip_blank pad].
  now rewrite !app_nil_r.
Qed.

Lemma unclosed_parenthesis_takes_every_line_witness :
  SortImports default empty_fs
    (join nl ["# tools"; "from os import (path,"; "sep"; "x = 1"])
  = Ok (Some (join nl ["# tools"; "from os import 1";
                       "from os import =";
                       "from os import path";
                       "from os import sep";
                       "from os import x"; ""])).
Proof.
  refine (eq_trans
            (unclosed_parenthesis_takes_every_line default empty_fs
               ["# tools"] "from os import (path," ["sep"; "x = 1"] From
               _ _ _ _ _ _ _ _ _) _);
    try reflexivity; try discriminate; repeat constructor.
Defined.

(** ** The option [add_imports] *)

(** X15: The entries of [add_imports] are read as lines after the last line of
    the text: a run with them is the run without them on the text with the
    entries appended, as long as the longer text is not marked as skipped
    (the mark is looked for in the text alone). *)
Theorem add_imports_are_last_lines (config : Config) (fs : FileSystem)
  (file_contents : string) :
  add_imports config <> [] ->
  Forall (fun l => has_char newline l = false) (add_imports config) ->
  contains (file_contents ++ nl ++ join nl (add_imports config))
    "isort:skip_file" = false ->
  SortImports config fs file_contents
  = SortImports (with_add_imports config []) fs
      (file_contents ++ nl ++ join nl (add_imports config)).
Proof.
  intros N F M.
  assert (M0 : contains file_contents "isort:skip_file" = false).
  { destruct (contains file_contents "isort:skip_file") eqn:E;
      [|reflexivity].
    apply (contains_app_l _ (nl ++ join nl (add_imports config))) in E.
    congruence. }
  unfold SortImports, SortImports_with. rewrite M, M0.
  assert (E : initial_state (with_add_imports config [])
                (file_contents ++ nl ++ join nl (add_imports config))
              = initial_state config file_contents).
  { unfold initial_state. cbn [add_imports with_add_imports].
    rewrite app_nil_r.
    change (file_contents ++ nl ++ join nl (add_imports config))%string
      with (file_contents
            ++ String newline (join nl (add_imports config)))%string.
    rewrite split_app_sep, (split_join _ N F). reflexivity. }
  rewrite E. reflexivity.
Qed.

Lemma add_imports_are_last_lines_witness :
  SortImports (with_add_imports default ["import os"]) empty_fs "import sys"
  = SortImports (with_add_imports (with_add_imports default ["import os"]) [])
      empty_fs ("import sys" ++ nl ++ join nl ["import os"]).
Proof.
  apply (add_imports_are_last_lines
           (with_add_imports default ["import os"]) empty_fs "import sys");
    [discriminate | repeat constructor | reflexivity].
Defined.

(** ** A statement stored twice *)

Lemma set_update_In l :
  forall acc x, In x (set_update l acc) <-> In x l \/ In x acc.
Proof.
  unfold set_update.
  induction l as [|y l IH]; intros acc x; cbn [fold_left]; [simpl; tauto|].
  rewrite IH, set_add_In. simpl. intuition congruence.
Qed.

Lemma set_update_absorb l :
  forall acc, (forall x, In x l -> In x acc) -> set_update l acc = acc.
Proof.
  unfold set_update.
  induction l as [|y l IH]; intros acc H; cbn [fold_left]; [reflexivity|].
  assert (S : set_add y acc = acc).
  { unfold set_add. rewrite (proj2 (mem_In y acc)); [reflexivity|].
    apply H. now left. }
  rewrite S. apply IH. intros x Hx. apply H. now right.
Qed.

Lemma set_imports_same st : set_imports st (imports st) = st.
Proof. now destruct st. Qed.

Section StoredTwice.

Variable place : string -> result section_key.

Lemma store_straight_present tokens :
  forall st,
    (forall m, In m tokens ->
               exists key bucket,
                 place m = Ok key
                 /\ imports_get st key = Ok bucket
                 /\ In m (straight bucket)) ->
    store_straight place tokens st = Ok st.
Proof.
  induction tokens as [|m tokens IH]; intros st H; cbn [store_straight];
    [reflexivity|].
  destruct (H m (or_introl eq_refl)) as (k & b & P & G & I).
  rewrite P. cbn [bind]. rewrite G. cbn [bind].
  assert (S : set_add m (straight b) = straight b).
  { unfold set_add. now rewrite (proj2 (mem_In _ _) I). }
  rewrite S.
  replace {| straight := straight b; from := from b |} with b
    by now destruct b.
  unfold imports_get in G.
  destruct (dict_get section_key_eqb k (imports st)) as [b0|] eqn:D;
    [|discriminate].
  injection G as ->.
  rewrite (dict_set_same_value _ _ _ _ section_key_eqb_spec D).
  rewrite set_imports_same. apply IH. intros x Hx. apply H. now right.
Qed.

Lemma store_from_again tokens st st' :
  store_from place tokens st = Ok st' ->
  store_from place tokens st' = Ok st'.
Proof.
  destruct tokens as [|m symbols]; cbn [store_from]; [discriminate|].
  intros H. inv_bind H. inv_bind H. injection H as <-.
  cbn [bind]. unfold imports_get in *.
  cbn [imports set_imports].
  rewrite (dict_get_set_same _ section_key_eqb_spec). cbn [bind from straight].
  rewrite (dict_get_set_same _ string_eqb_spec).
  set (merged := match dict_get String.eqb m (from r0) with
                 | Some (x :: existing) => set_update symbols (x :: existing)
                 | _ => set_update symbols []
                 end).
  assert (A : forall x, In x symbols -> In x merged).
  { intros x Hx. unfold merged.
    destruct (dict_get String.eqb m (from r0)) as [[|y existing]|];
      apply set_update_In; now left. }
  assert (M : match merged with
              | x :: existing => set_update symbols (x :: existing)
              | [] => set_update symbols []
              end = merged).
  { destruct merged as [|x existing] eqn:Em.
    - destruct symbols as [|s symbols']; [reflexivity|].
      destruct (A s (or_introl eq_refl)).
    - now apply set_update_absorb. }
  rewrite M.
  rewrite (dict_set_twice _ string_eqb_spec).
  rewrite (dict_set_twice _ section_key_eqb_spec). reflexivity.
Qed.

End StoredTwice.

(** X16: Storing the names of a statement a second time changes nothing: a
    repeated import statement leaves [self.imports] as the first one made
    it. *)
Theorem repeated_statement_stores_nothing_new
  (place : string -> result section_key) (kind : import_kind)
  (tokens : list string) (st st' : State) :
  store place kind tokens st = Ok st' ->
  store place kind tokens st' = Ok st'.
Proof.
  destruct kind; cbn [store]; [|apply store_from_again].
  intros H. apply store_straight_present. intros m I.
  apply (store_straight_adds place tokens st st' m H I).
Qed.

Lemma repeated_statement_stores_nothing_new_witness :
  exists st',
    store (place_module default empty_fs) From ["os"; "path"; "sep"]
      (initial_state default "") = Ok st'
    /\ store (place_module default empty_fs) From ["os"; "path"; "sep"] st'
       = Ok st'.
Proof.
  eexists. split; [reflexivity|].
  apply (repeated_statement_stores_nothing_new
           (place_module default empty_fs) From ["os"; "path"; "sep"]
           (initial_state default "")).
  reflexivity.
Defined.

(** ** The lines [_parse] copies *)

Lemma kept_refl l : kept_in_order l l.
Proof. induction l; [apply kept_nil | now apply kept_keep]. Qed.

Lemma kept_app a b c d :
  kept_in_order a b -> kept_in_order c d -> kept_in_order (a ++ c) (b ++ d).
Proof.
  induction 1; simpl; intros; auto;
    [apply kept_drop | apply kept_keep]; auto.
Qed.

Lemma kept_app_r a b c : kept_in_order a b -> kept_in_order a (b ++ c).
Proof.
  intros H. rewrite <- (app_nil_r a). apply kept_app; [exact H|].
  induction c; constructor; auto.
Qed.

Lemma firstn_le_app {A : Type} (l : list A) n m :
  n <= m -> exists t, firstn m l = firstn n l ++ t.
Proof.
  revert n m. induction l as [|x l IH]; intros n m L.
  - exists []. now rewrite !firstn_nil.
  - destruct n as [|n]; [now exists (firstn m (x :: l))|].
    destruct m as [|m]; [lia|].
    destruct (IH n m) as [t E]; [lia|]. exists t. simpl. now rewrite E.
Qed.

Lemma firstn_snoc {A : Type} (l : list A) n x :
  nth_error l n = Some x -> firstn (S n) l = firstn n l ++ [x].
Proof.
  revert n. induction l as [|y l IH]; intros [|n] H; simpl in *;
    try discriminate.
  - now injection H as ->.
  - f_equal. now apply IH.
Qed.

Lemma parse_statement_bound place kind line st st' :
  parse_statement place kind line st = Ok st' ->
  index st <= List.length (in_lines st) ->
  index st' <= List.length (in_lines st).
Proof.
  intros H B. unfold parse_statement in H. fold (mark_import st) in H.
  inv_bind H. inv_bind H.
  assert (S : store place kind (fst r0) (set_as_map (snd r) (snd r0))
              = Ok st') by (destruct kind; exact H).
  apply store_frame in S. rewrite S. cbn [index set_imports set_as_map].
  apply read_statement_bound in E.
  - replace (in_lines (mark_import st)) with (in_lines st) in E; [exact E|].
    unfold mark_import. now destruct (import_index st).
  - unfold mark_import. now destruct (import_index st).
Qed.

(** What [_parse] keeps true of [out_lines] and [import_index]. *)
Lemma parse_loop_order place fuel :
  forall q st st',
    parse_loop place fuel q st = Ok st' ->
    number_of_lines st = List.length (in_lines st) ->
    index st <= List.length (in_lines st) ->
    kept_in_order (out_lines st) (firstn (index st) (in_lines st)) ->
    (import_index st = None ->
     out_lines st = firstn (index st) (in_lines st)) ->
    (forall i, import_index st = Some i ->
               i <= List.length (out_lines st)
               /\ firstn i (out_lines st) = firstn i (in_lines st)
               /\ is_none (_import_type (nth i (in_lines st) "")) = false) ->
    kept_in_order (out_lines st') (in_lines st)
    /\ (import_index st' = None -> out_lines st' = in_lines st)
    /\ (forall i, import_index st' = Some i ->
                  i <= List.length (out_lines st')
                  /\ firstn i (out_lines st') = firstn i (in_lines st)
                  /\ is_none (_import_type (nth i (in_lines st) "")) = false).
Proof.
  induction fuel as [|fuel IH]; intros q st st'; cbn [parse_loop];
    destruct (_at_end st) eqn:A; try discriminate.
  - intros [= <-] N B K I0 I1. unfold _at_end in A. apply Nat.eqb_eq in A.
    rewrite A, N, firstn_all in *. auto.
  - intros [= <-] N B K I0 I1. unfold _at_end in A. apply Nat.eqb_eq in A.
    rewrite A, N, firstn_all in *. auto.
  - intros H N B K I0 I1. inv_bind H.
    pose proof (_get_line_spec _ _ E) as [G S].
    pose proof (firstn_snoc _ _ _ G) as Sn.
    assert (Lt : index st < List.length (in_lines st))
      by (apply nth_error_Some; congruence).
    assert (Copy : forall q',
               parse_loop place fuel q'
                 (set_out_lines (snd r) (out_lines (snd r) ++ [fst r]))
               = Ok st' ->
               kept_in_order (out_lines st') (in_lines st)
               /\ (import_index st' = None -> out_lines st' = in_lines st)
               /\ (forall i, import_index st' = Some i ->
                     i <= List.length (out_lines st')
                     /\ firstn i (out_lines st') = firstn i (in_lines st)
                     /\ is_none (_import_type (nth i (in_lines st) ""))
                        = false)).
    { intros q' Hq. rewrite S in Hq.
      apply IH in Hq;
        cbn [in_lines number_of_lines index out_lines import_index
               set_out_lines set_index] in *; auto.
      - lia.
      - rewrite Nat.add_1_r, Sn. apply kept_app; [exact K | apply kept_refl].
      - intros J. rewrite Nat.add_1_r, Sn, (I0 J). reflexivity.
      - intros i J. destruct (I1 i J) as (L1 & L2 & L3).
        rewrite length_app. split; [lia|]. split; [|exact L3].
        rewrite firstn_app. replace (i - List.length (out_lines st)) with 0
          by lia.
        now rewrite firstn_0, app_nil_r. }
    destruct (_import_type (fst r)) as [kind|] eqn:T; [destruct q|];
      try (eapply Copy; eauto; fail).
    inv_bind H.
    pose proof (parse_statement_frame _ _ _ _ _ E0) as (F1 & F2 & F3 & F4 & F5).
    pose proof (parse_statement_bound _ _ _ _ _ E0) as Bd.
    rewrite S in F1, F2, F3, F4, F5, Bd.
    cbn [in_lines number_of_lines index out_lines import_index set_index]
      in F1, F2, F3, F4, F5, Bd.
    specialize (Bd ltac:(lia)).
    apply IH in H; rewrite ?F1, ?F2, ?F3 in *; auto.
    + destruct (firstn_le_app (in_lines st) (index st) (index r0))
        as [t Et]; [lia|].
      rewrite Et. now apply kept_app_r.
    + rewrite F5. destruct (import_index st); discriminate.
    + rewrite F5. intros i. destruct (import_index st) as [j|] eqn:J.
      * intros [= <-]. now apply I1.
      * intros [= <-]. replace (index st + 1 - 1) with (index st) by lia.
        rewrite (I0 eq_refl), length_firstn, firstn_firstn.
        rewrite !Nat.min_l by lia. split; [lia|]. split; [reflexivity|].
        rewrite (nth_error_nth _ _ "" G), T. reflexivity.
Qed.

(** X17: [_parse] copies lines of the text in their order and changes none.
    When it finds no import it copies them all. When it finds one,
    [import_index] is the place of the line the first import statement
    starts on, and the lines before it are the first lines of
    [out_lines]. *)
Theorem scanner_copies_lines_in_order (config : Config) (fs : FileSystem)
  (file_contents : string) (st : State) :
  _parse config fs (initial_state config file_contents) = Ok st ->
  let lines := split newline file_contents ++ add_imports config in
  kept_in_order (out_lines st) lines
  /\ (import_index st = None -> out_lines st = lines)
  /\ (forall i, import_index st = Some i ->
                i <= List.length (out_lines st)
                /\ firstn i (out_lines st) = firstn i lines
                /\ is_none (_import_type (nth i lines "")) = false).
Proof.
  intros P lines. unfold _parse, _parse_with in P.
  apply parse_loop_order in P; cbn [initial_state in_lines index out_lines
                                     number_of_lines import_index] in *;
    auto.
  - lia.
  - constructor.
  - discriminate.
Qed.

Lemma scanner_copies_lines_in_order_witness :
  exists st,
    _parse default empty_fs (initial_state default C2_text) = Ok st
    /\ kept_in_order (out_lines st)
         (split newline C2_text ++ add_imports default).
Proof.
  eexists. split; [vm_compute; reflexivity|].
  refine (proj1 (scanner_copies_lines_in_order default empty_fs C2_text _ _)).
  vm_compute. reflexivity.
Defined.

(** ** The blank lines after the imports *)

(** X18: [_add_formatted_imports] puts the rendered block where the first
    import was, drops the blank lines that follow it, and puts two empty
    lines before a line starting with [def], [class] or [@], one empty line
    before another line, and none when no line follows. *)
Theorem imports_are_followed_by_blank_lines (config : Config) (st : State)
  (i : nat) (block : list string) :
  import_index st = Some i ->
  i <= List.length (out_lines st) ->
  formatted_output config st = Ok block ->
  let before := firstn i (out_lines st) in
  let after := lstrip_blank (skipn i (out_lines st)) in
  _add_formatted_imports config st
  = Ok (set_out_lines st (before ++ block ++ pad after ++ after)).
Proof.
  intros I L F before after. unfold _add_formatted_imports.
  rewrite F, I. cbn [bind]. do 2 f_equal.
  rewrite <- (firstn_skipn i (out_lines st)) at 1.
  replace i with (List.length (firstn i (out_lines st))) at 1
    by (rewrite length_firstn; lia).
  apply splice_spec.
Qed.

Lemma imports_are_followed_by_blank_lines_witness :
  _add_formatted_imports default state_before_def
  = Ok (set_out_lines state_before_def
          (["# tools"] ++ ["import os"; ""; "from a import b"]
           ++ [""; ""] ++ ["def f():"])).
Proof.
  apply (imports_are_followed_by_blank_lines default state_before_def 1
           ["import os"; ""; "from a import b"]);
    [reflexivity | simpl; lia | reflexivity].
Defined.

(** ** The tokens of a statement *)

Lemma as_loop_no_as fuel :
  forall kind imports as_map r,
    as_loop fuel kind imports as_map = Ok r -> mem "as" (fst r) = false.
Proof.
  induction fuel as [|fuel IH]; intros kind imports as_map r;
    cbn [as_loop]; destruct (mem "as" imports) eqn:M; try discriminate;
    try (intros [= <-]; exact M).
  intros H. inv_bind H. inv_bind H. apply (IH _ _ _ _ H).
Qed.

(** X19: When [as] is still among the tokens after the aliases are recorded,
    the first [as] was the last token of the statement, and the tokens and
    [as_map] are as they were: [as] is then stored as a name. *)
Theorem as_stays_only_as_last_token (kind : import_kind)
  (imports : list string) (as_map : list (string * string))
  (r : list string * list (string * string)) :
  record_aliases kind imports as_map = Ok r ->
  mem "as" (fst r) = true ->
  r = (imports, as_map)
  /\ index_of "as" imports + 1 = List.length imports.
Proof.
  unfold record_aliases. destruct (mem "as" imports) eqn:M; cbn [andb].
  - destruct (Nat.ltb_spec (index_of "as" imports + 1)
                (List.length imports)) as [L|L].
    + intros H A. apply as_loop_no_as in H. congruence.
    + intros [= <-] _. split; [reflexivity|].
      pose proof (index_of_lt _ _ M). lia.
  - intros [= <-] A. cbn [fst] in A. congruence.
Qed.

Lemma as_stays_only_as_last_token_witness :
  (["os"; "as"], @nil (string * string)) = (["os"; "as"], [])
  /\ index_of "as" ["os"; "as"] + 1 = List.length ["os"; "as"].
Proof.
  apply (as_stays_only_as_last_token Straight ["os"; "as"] []
           (["os"; "as"], [])); reflexivity.
Defined.

Lemma replace_from_keeps_out c old new :
  has_char c new = false ->
  forall s skip,
    has_char c s = false -> has_char c (replace_from skip old new s) = false.
Proof.
  intros N. induction s as [|d s IH]; intros skip H; [reflexivity|].
  cbn [has_char] in H. apply orb_false_iff in H. destruct H as [H1 H2].
  cbn [replace_from]. destruct skip as [|k]; [|now apply IH].
  destruct (prefix old (String d s)).
  - rewrite has_char_app, N. now apply IH.
  - cbn [has_char]. rewrite H1. now apply IH.
Qed.

Lemma replace_from_removes c new :
  has_char c new = false ->
  forall s, has_char c (replace_from 0 (String c "") new s) = false.
Proof.
  intros N. induction s as [|d s IH]; [reflexivity|].
  cbn [replace_from String.length Nat.sub].
  destruct (prefix (String c "") (String d s)) eqn:P.
  - rewrite has_char_app, N. exact IH.
  - cbn [has_char]. rewrite IH, orb_false_r.
    destruct (Ascii.eqb_spec d c) as [->|]; [|reflexivity].
    now rewrite prefix_char_head in P.
Qed.

Lemma split_ws_chars c s :
  has_char c s = false ->
  Forall (fun t => has_char c t = false) (split_ws s).
Proof.
  induction s as [|d s IH]; intros H; [constructor|].
  cbn [has_char] in H. apply orb_false_iff in H. destruct H as [H1 H2].
  specialize (IH H2). cbn [split_ws].
  destruct (isspace d); [exact IH|].
  destruct s as [|e s'].
  - repeat constructor. cbn [has_char]. now rewrite H1.
  - destruct (isspace e).
    + constructor; [cbn [has_char]; now rewrite H1 | exact IH].
    + destruct (split_ws (String e s')) as [|h t].
      * repeat constructor. cbn [has_char]. now rewrite H1.
      * inversion IH; subst. constructor; [|assumption].
        cbn [has_char]. now rewrite H1.
Qed.

Lemma split_ws_words s :
  Forall (fun t => t <> "" /\ forall c, isspace c = true ->
                                        has_char c t = false)
    (split_ws s).
Proof.
  induction s as [|d s IH]; [constructor|].
  cbn [split_ws]. destruct (isspace d) eqn:D; [exact IH|].
  assert (W : forall c, isspace c = true -> Ascii.eqb d c = false).
  { intros c C. destruct (Ascii.eqb_spec d c); [congruence | reflexivity]. }
  assert (One : String d "" <> ""
                /\ forall c, isspace c = true ->
                             has_char c (String d "") = false).
  { split; [discriminate|]. intros c C. cbn [has_char]. now rewrite W. }
  destruct s as [|e s'].
  - repeat constructor; apply One.
  - destruct (isspace e).
    + constructor; [exact One | exact IH].
    + destruct (split_ws (String e s')) as [|h t].
      * repeat constructor; apply One.
      * inversion IH as [|? ? [_ Hh] Ht]; subst. constructor; [|assumption].
        split; [discriminate|]. intros c C. cbn [has_char].
        now rewrite W, Hh.
Qed.

(** X20: The names [_parse] takes from a statement are not empty and hold no
    white space, no comma, no parenthesis and no backslash. *)
Theorem tokens_hold_no_syntax (import_string token : string) :
  In token (tokenize import_string) ->
  token <> ""
  /\ (forall c, isspace c = true -> has_char c token = false)
  /\ has_char "," token = false
  /\ has_char "(" token = false
  /\ has_char ")" token = false
  /\ has_char backslash token = false.
Proof.
  intros I. unfold tokenize in I. cbn [fold_left] in I.
  set (s0 := replace import_string "_import" "[[i]]") in I.
  pose proof (proj1 (Forall_forall _ _) (split_ws_words _) _ I) as [N W].
  split; [exact N|]. split; [exact W|].
  assert (K : forall c s,
             has_char c "_import" = false -> has_char c s = false ->
             has_char c (replace s "[[i]]" "_import") = false)
    by (intros; now apply replace_from_keeps_out).
  assert (R : forall c old s,
             has_char c " " = false -> has_char c s = false ->
             has_char c (replace s old " ") = false)
    by (intros; now apply replace_from_keeps_out).
  assert (D : forall c s,
             has_char c " " = false ->
             has_char c (replace s (String c "") " ") = false)
    by (intros; now apply replace_from_removes).
  repeat split;
    refine (proj1 (Forall_forall _ _) (split_ws_chars _ _ _) _ I);
    (apply K; [reflexivity|]).
  - do 2 (apply R; [reflexivity|]). now apply D.
  - do 4 (apply R; [reflexivity|]). now apply (D "("%char).
  - do 3 (apply R; [reflexivity|]). now apply (D ")"%char).
  - do 5 (apply R; [reflexivity|]). now apply (D backslash).
Qed.

Lemma tokens_hold_no_syntax_witness :
  "path" <> ""
  /\ (forall c, isspace c = true -> has_char c "path" = false)
  /\ has_char "," "path" = false
  /\ has_char "(" "path" = false
  /\ has_char ")" "path" = false
  /\ has_char backslash "path" = false.
Proof.
  apply (tokens_hold_no_syntax "from os import (path, sep)" "path").
  vm_compute. auto.
Defined.

(** ** The name of the file *)

Lemma rfind_char_last c s t :
  has_char c t = false ->
  rfind_char c (s ++ String c t) = Z.of_nat (String.length s).
Proof.
  intros H.
  assert (T : rfind_char c t = (-1)%Z).
  { clear s. induction t as [|d t IH]; [reflexivity|].
    cbn [has_char] in H. apply orb_false_iff in H. destruct H as [H1 H2].
    cbn [rfind_char]. rewrite (IH H2), H1. reflexivity. }
  induction s as [|d s IH].
  - cbn [append rfind_char String.length]. rewrite T, Ascii.eqb_refl.
    reflexivity.
  - cbn [append rfind_char String.length]. rewrite IH.
    destruct (Z.leb_spec 0 (Z.of_nat (String.length s))); lia.
Qed.

Lemma slice_from_app s t : slice_from (s ++ t) (String.length s) = t.
Proof.
  induction s as [|c s IH]; [now destruct t|]. exact IH.
Qed.

(** X21: The name looked up in [skip] is what follows the last slash of the
    path, so a file is skipped by its name whatever directory it is in. *)
Theorem skip_looks_at_the_last_component (config : Config)
  (directory name : string) :
  has_char "/" name = false ->
  file_name_of (directory ++ "/" ++ name) = name
  /\ skipped config (directory ++ "/" ++ name) = mem name (skip config).
Proof.
  intros H.
  assert (E : file_name_of (directory ++ "/" ++ name) = name).
  { unfold file_name_of.
    rewrite (contains_app_r directory ("/" ++ name) "/")
      by (cbn [append contains prefix]; now destruct name).
    change (directory ++ "/" ++ name)%string
      with (directory ++ String "/" name)%string.
    rewrite (rfind_char_last _ _ _ H).
    replace (Z.to_nat (Z.of_nat (String.length directory) + 1))
      with (String.length (directory ++ "/")).
    - change (String "/" name) with ("/" ++ name)%string.
      rewrite <- str_app_assoc. apply slice_from_app.
    - rewrite str_length_app. simpl. lia. }
  split; [exact E|]. unfold skipped. now rewrite E.
Qed.

Lemma skip_looks_at_the_last_component_witness :
  file_name_of ("pkg/sub" ++ "/" ++ "__init__.py") = "__init__.py"
  /\ skipped default ("pkg/sub" ++ "/" ++ "__init__.py")
     = mem "__init__.py" (skip default).
Proof.
  apply (skip_looks_at_the_last_component default "pkg/sub" "__init__.py").
  reflexivity.
Defined.

(** ** The option [remove_imports] *)

Lemma render_straight_lines config as_map modules :
  forall output line,
    In line (render_straight config as_map modules output) ->
    In line output
    \/ exists m,
        In m modules
        /\ mem m (remove_imports config) = false
        /\ line = match dict_get String.eqb m as_map with
                  | Some alias => ("import " ++ m ++ " as " ++ alias)%string
                  | None => ("import " ++ m)%string
                  end.
Proof.
  unfold render_straight.
  induction modules as [|x modules IH]; intros output line H; cbn [fold_left] in H;
    [now left|].
  apply IH in H. destruct H as [H|(m & I & R & E)].
  - destruct (mem x (remove_imports config)) eqn:R; [now left|].
    assert (C : In line output
                \/ line = match dict_get String.eqb x as_map with
                          | Some alias =>
                              ("import " ++ x ++ " as " ++ alias)%string
                          | None => ("import " ++ x)%string
                          end).
    { destruct (dict_get String.eqb x as_map); apply in_app_or in H;
        destruct H as [H|[H|[]]]; auto. }
    destruct C as [C|C]; [now left|].
    right. exists x. split; [now left | auto].
  - right. exists m. split; [now right | auto].
Qed.

(** X22: Every line of the straight imports of a section comes from a module
    that is not in [remove_imports]; it is [import m as alias] when
    [as_map] has an alias for the module and [import m] otherwise. *)
Theorem straight_lines_come_from_kept_modules (config : Config)
  (as_map : list (string * string)) (modules : list string) (line : string) :
  In line (render_straight config as_map modules []) ->
  exists m,
    In m modules
    /\ mem m (remove_imports config) = false
    /\ line = match dict_get String.eqb m as_map with
              | Some alias => ("import " ++ m ++ " as " ++ alias)%string
              | None => ("import " ++ m)%string
              end.
Proof.
  intros H. apply render_straight_lines in H. destruct H as [[]|H]. exact H.
Qed.

Lemma straight_lines_come_from_kept_modules_witness :
  exists m,
    In m ["os"; "sys"]
    /\ mem m (remove_imports default) = false
    /\ "import os as o"
       = match dict_get String.eqb m [("os", "o")] with
         | Some alias => ("import " ++ m ++ " as " ++ alias)%string
         | None => ("import " ++ m)%string
         end.
Proof.
  apply (straight_lines_come_from_kept_modules default [("os", "o")]
           ["os"; "sys"] "import os as o").
  left. reflexivity.
Defined.

(** ** The star import *)

Lemma remove_first_keeps x y l :
  x <> y -> In x l -> In x (remove_first y l).
Proof.
  intros N. induction l as [|z l IH]; [contradiction|].
  cbn [remove_first]. destruct (String.eqb_spec z y) as [->|D].
  - intros [E|I]; [congruence | exact I].
  - intros [E|I]; [now left | right; auto].
Qed.

Lemma render_aliased_star as_map module import_start symbols :
  match dict_get String.eqb (module ++ ".*")%string as_map with
  | Some (String _ _) => False
  | _ => True
  end ->
  forall remaining output,
    In "*" remaining ->
    exists aliased,
      fst (render_aliased as_map module import_start symbols remaining output)
      = output ++ aliased
      /\ In "*" (snd (render_aliased as_map module import_start symbols
                        remaining output))
      /\ Forall
           (fun line =>
              exists symbol alias,
                In symbol symbols
                /\ dict_get String.eqb (module ++ "." ++ symbol)%string as_map
                   = Some alias
                /\ line = (import_start ++ symbol ++ " as " ++ alias)%string)
           aliased.
Proof.
  intros S. induction symbols as [|x symbols IH]; intros remaining output I.
  - exists []. cbn [render_aliased fst snd]. rewrite app_nil_r. auto.
  - cbn [render_aliased].
    destruct (dict_get String.eqb (module ++ "." ++ x)%string as_map)
      as [[|c a]|] eqn:D.
    + destruct (IH remaining output I) as (al & E & K & F).
      exists al. split; [exact E|]. split; [exact K|].
      eapply Forall_impl; [|exact F].
      intros l (sy & ali & H1 & H2 & H3). exists sy, ali. simpl. auto.
    + assert (N : "*" <> x).
      { intros <-. change (module ++ "." ++ "*")%string
          with (module ++ ".*")%string in D. now rewrite D in S. }
      destruct (IH (remove_first x remaining)
                  (output ++ [(import_start ++ x ++ " as " ++ String c a)%string])
                  (remove_first_keeps _ _ _ N I))
        as (al & E & K & F).
      exists ((import_start ++ x ++ " as " ++ String c a)%string :: al).
      split; [rewrite E, <- app_assoc; reflexivity|]. split; [exact K|].
      constructor.
      * exists x, (String c a). simpl. auto.
      * eapply Forall_impl; [|exact F].
        intros l (sy & ali & H1 & H2 & H3). exists sy, ali. simpl. auto.
    + destruct (IH remaining output I) as (al & E & K & F).
      exists al. split; [exact E|]. split; [exact K|].
      eapply Forall_impl; [|exact F].
      intros l (sy & ali & H1 & H2 & H3). exists sy, ali. simpl. auto.
Qed.

(** X23: When the symbols of a [from] import hold the star, the module gets the
    one statement [from module import *] after the lines of its aliased
    symbols: the symbols without an alias are not written. *)
Theorem star_import_hides_other_symbols (config : Config)
  (as_map : list (string * string)) (from_dict : list (string * list string))
  (module : string) (symbols output : list string) :
  mem module (remove_imports config) = false ->
  mem (module ++ ".*")%string (remove_imports config) = false ->
  dict_get String.eqb (module ++ ".*")%string as_map = None ->
  dict_get String.eqb module from_dict = Some symbols ->
  In "*" symbols ->
  exists aliased,
    render_from_module config as_map from_dict module output
    = Ok (output ++ aliased ++ [("from " ++ module ++ " import *")%string])
    /\ Forall
         (fun line =>
            exists symbol alias,
              In symbol symbols
              /\ dict_get String.eqb (module ++ "." ++ symbol)%string as_map
                 = Some alias
              /\ line = ("from " ++ module ++ " import " ++ symbol ++ " as "
                         ++ alias)%string)
         aliased.
Proof.
  intros R Rs A D I. unfold render_from_module. rewrite R, D.
  set (from_imports :=
         match remove_imports config with
         | [] => sorted (key_of config) symbols
         | _ :: _ =>
             filter
               (fun line =>
                  negb (mem (module ++ "." ++ line)%string
                          (remove_imports config)))
               (sorted (key_of config) symbols)
         end).
  assert (In1 : In "*" from_imports).
  { unfold from_imports. destruct (remove_imports config) eqn:Er.
    - now apply sorted_In.
    - apply filter_In. split; [now apply sorted_In|].
      change (module ++ "." ++ "*")%string with (module ++ ".*")%string.
      now rewrite Rs. }
  assert (Sub : forall x, In x from_imports -> In x symbols).
  { intros x. unfold from_imports. destruct (remove_imports config).
    - apply sorted_In.
    - intros H. apply filter_In in H. destruct H as [H _].
      now apply sorted_In in H. }
  destruct (render_aliased_star as_map module
              ("from " ++ module ++ " import ")%string from_imports
              ltac:(now rewrite A) from_imports output In1)
    as (aliased & E & K & F).
  exists aliased. split.
  - f_equal. unfold render_plain.
    destruct (snd (render_aliased as_map module _ from_imports from_imports
                     output)) as [|first others] eqn:Sn; [destruct K|].
    rewrite (proj2 (mem_In _ _) K), E, <- app_assoc, !str_app_assoc.
    reflexivity.
  - eapply Forall_impl; [|exact F].
    intros l (sy & ali & H1 & H2 & H3). exists sy, ali.
    split; [now apply Sub|]. split; [exact H2|].
    now rewrite H3, !str_app_assoc.
Qed.

Lemma star_import_hides_other_symbols_witness :
  exists aliased,
    render_from_module default [("os.path", "p")]
      [("os", ["sep"; "*"; "path"])] "os" []
    = Ok ([] ++ aliased ++ ["from os import *"])
    /\ Forall
         (fun line =>
            exists symbol alias,
              In symbol ["sep"; "*"; "path"]
              /\ dict_get String.eqb ("os" ++ "." ++ symbol)%string
                   [("os.path", "p")] = Some alias
              /\ line = ("from " ++ "os" ++ " import " ++ symbol ++ " as "
                         ++ alias)%string)
         aliased.
Proof.
  apply (star_import_hides_other_symbols default [("os.path", "p")]
           [("os", ["sep"; "*"; "path"])] "os" ["sep"; "*"; "path"] []);
    try reflexivity.
  right. left. reflexivity.
Defined.

(** A [default_section] that is not a section name makes the classifier
    raise for a module no rule decides. *)
Example unknown_default_section_raises :
  place_module (with_default_section default "OTHER") empty_fs "requests"
  = Raise ValueError.
Proof. reflexivity. Qed.

(** ** The end of the output *)

Lemma last_app_nonempty {A : Type} (X Y : list A) d :
  Y <> [] -> last (X ++ Y) d = last Y d.
Proof.
  intros N. induction X as [|x X IH]; [reflexivity|].
  cbn [app last]. rewrite IH. destruct (X ++ Y) eqn:E; [|reflexivity].
  apply app_eq_nil in E. destruct E as [_ ->]. congruence.
Qed.

Lemma last_line_after_nl a b : last_line (a ++ nl ++ b) = last_line b.
Proof.
  unfold last_line.
  change (a ++ nl ++ b)%string with (a ++ String newline b)%string.
  rewrite split_app_sep. apply last_app_nonempty, split_not_nil.
Qed.

Lemma last_line_no_newline e : no_newline e -> last_line e = e.
Proof. intros N. unfold last_line. now rewrite split_no_sep. Qed.

Lemma closed_no_newline e : no_newline e -> closed_entry e.
Proof. intros N B. now rewrite last_line_no_newline. Qed.

Lemma closed_empty : closed_entry "".
Proof. intros B. discriminate B. Qed.

Lemma remove_first_In x y l : In x (remove_first y l) -> In x l.
Proof.
  induction l as [|z l IH]; cbn [remove_first]; [tauto|].
  destruct (String.eqb z y); simpl; tauto.
Qed.

Section ClosedEntries.

Variable config : Config.

Lemma render_straight_closed as_map modules :
  Forall no_newline modules -> tidy_map as_map ->
  forall output,
    Forall closed_entry output ->
    Forall closed_entry (render_straight config as_map modules output).
Proof.
  intros M A. unfold render_straight.
  induction M as [|m modules Nm M IH]; intros output H; cbn [fold_left];
    [exact H|].
  apply IH. destruct (mem m (remove_imports config)); [exact H|].
  destruct (dict_get String.eqb m as_map) as [alias|] eqn:D;
    apply Forall_app; (split; [exact H|]); repeat constructor;
    apply closed_no_newline; repeat apply no_newline_app;
    try reflexivity; try exact Nm.
  apply dict_get_In in D. apply (A _ _ D).
Qed.

Lemma render_aliased_closed as_map module import_start symbols :
  no_newline import_start -> Forall no_newline symbols -> tidy_map as_map ->
  forall remaining output,
    Forall closed_entry output ->
    Forall closed_entry
      (fst (render_aliased as_map module import_start symbols remaining
              output)).
Proof.
  intros S F A. induction F as [|x symbols Nx F IH]; intros remaining output H;
    cbn [render_aliased fst]; [exact H|].
  destruct (dict_get String.eqb (module ++ "." ++ x)%string as_map)
    as [[|c a]|] eqn:D; try (apply IH; exact H).
  apply IH. apply Forall_app. split; [exact H|]. repeat constructor.
  apply closed_no_newline. repeat apply no_newline_app;
    try reflexivity; try assumption.
  apply dict_get_In in D. apply (A _ _ D).
Qed.

Lemma render_aliased_remaining as_map module import_start symbols :
  forall remaining output x,
    In x (snd (render_aliased as_map module import_start symbols remaining
                 output)) ->
    In x remaining.
Proof.
  induction symbols as [|y symbols IH]; intros remaining output x;
    cbn [render_aliased snd]; [tauto|].
  destruct (dict_get String.eqb (module ++ "." ++ y)%string as_map)
    as [[|c a]|]; try apply IH.
  intros H. apply IH in H. now apply remove_first_In in H.
Qed.

Lemma fold_statement_last c r others :
  isspace c = false -> no_newline (String c r) -> Forall no_newline others ->
  forall acc,
    is_blank (last_line acc) = false ->
    is_blank
      (last_line
         (fold_left
            (fun import_statement from_import =>
               (import_statement ++ nl ++ String c r ++ from_import)%string)
            others acc)) = false.
Proof.
  intros C S F. induction F as [|o others No F IH]; intros acc H;
    cbn [fold_left]; [exact H|].
  apply IH. rewrite last_line_after_nl, last_line_no_newline
    by now apply no_newline_app.
  exact (is_blank_nonspace c (r ++ o) C).
Qed.

Lemma render_plain_closed c r from_imports output :
  isspace c = false -> no_newline (String c r) ->
  Forall no_newline from_imports ->
  Forall closed_entry output ->
  Forall closed_entry (render_plain (String c r) from_imports output).
Proof.
  intros C S F H. unfold render_plain.
  destruct from_imports as [|first others]; [exact H|].
  inversion F as [|? ? N1 Fo]; subst.
  destruct (mem "*" (first :: others)); apply Forall_app;
    (split; [exact H|]); repeat constructor.
  - apply closed_no_newline. now apply no_newline_app.
  - intros _. apply fold_statement_last; auto.
    rewrite last_line_no_newline by now apply no_newline_app.
    exact (is_blank_nonspace c (r ++ first) C).
Qed.

Lemma render_from_module_closed as_map from_dict module output output' :
  tidy_map as_map ->
  (forall m symbols, In (m, symbols) from_dict ->
                     no_newline m /\ Forall no_newline symbols) ->
  render_from_module config as_map from_dict module output = Ok output' ->
  Forall closed_entry output -> Forall closed_entry output'.
Proof.
  intros A T. unfold render_from_module.
  destruct (mem module (remove_imports config)); [now intros [= <-]|].
  destruct (dict_get String.eqb module from_dict) as [symbols|] eqn:D;
    [|discriminate].
  apply dict_get_In in D. destruct (T _ _ D) as [Nm Ns].
  set (from_imports :=
         match remove_imports config with
         | [] => sorted (key_of config) symbols
         | _ :: _ =>
             filter
               (fun line =>
                  negb (mem (module ++ "." ++ line)%string
                          (remove_imports config)))
               (sorted (key_of config) symbols)
         end).
  assert (Fi : Forall no_newline from_imports).
  { apply Forall_forall. intros x Hx. rewrite Forall_forall in Ns.
    apply Ns. unfold from_imports in Hx.
    destruct (remove_imports config).
    - now apply sorted_In in Hx.
    - apply filter_In in Hx. destruct Hx as [Hx _].
      now apply sorted_In in Hx. }
  assert (Si : no_newline ("from " ++ module ++ " import ")%string).
  { repeat apply no_newline_app; try reflexivity; exact Nm. }
  intros [= <-] H.
  apply (render_plain_closed "f"); [reflexivity | exact Si | |].
  - apply Forall_forall. intros x Hx.
    apply render_aliased_remaining in Hx.
    rewrite Forall_forall in Fi. now apply Fi.
  - now apply render_aliased_closed.
Qed.

Lemma render_from_closed as_map from_dict modules :
  tidy_map as_map ->
  (forall m symbols, In (m, symbols) from_dict ->
                     no_newline m /\ Forall no_newline symbols) ->
  forall output output',
    render_from config as_map from_dict modules output = Ok output' ->
    Forall closed_entry output -> Forall closed_entry output'.
Proof.
  intros A T. induction modules as [|m modules IH]; intros output output';
    cbn [render_from].
  - now intros [= <-].
  - intros H F. inv_bind H.
    apply (IH _ _ H). eapply render_from_module_closed; eauto.
Qed.

Lemma render_sections_closed st sections :
  tidy_dict (imports st) -> tidy_map (as_map st) ->
  forall output output',
    render_sections config st sections output = Ok output' ->
    Forall closed_entry output -> Forall closed_entry output'.
Proof.
  intros T A. induction sections as [|k sections IH]; intros output output';
    cbn [render_sections].
  - now intros [= <-].
  - intros H F. inv_bind H. apply (IH _ _ H). clear H IH.
    unfold render_section in E. inv_bind E. inv_bind E.
    unfold imports_get in E0.
    destruct (dict_get section_key_eqb k (imports st)) as [b|] eqn:D;
      [|discriminate].
    injection E0 as <-. destruct (T _ _ D) as [Ts Tf].
    assert (C : Forall closed_entry r1).
    { eapply render_from_closed; eauto.
      apply render_straight_closed; auto.
      apply Forall_forall. intros x Hx. apply sorted_In in Hx.
      rewrite Forall_forall in Ts. now apply Ts. }
    destruct (sorted (key_of config) (straight b)),
      (sorted (key_of config) (map fst (from b)));
      injection E as <-; auto;
      apply Forall_app; split; auto; repeat constructor;
      apply closed_empty.
Qed.

End ClosedEntries.

Lemma Forall_firstn_skipn {A : Type} (P : A -> Prop) n (l : list A) :
  Forall P l -> Forall P (firstn n l) /\ Forall P (skipn n l).
Proof.
  intros H. rewrite <- (firstn_skipn n l) in H. now apply Forall_app in H.
Qed.

Lemma splice_closed i block out_lines :
  Forall closed_entry out_lines -> Forall closed_entry block ->
  Forall closed_entry (splice i block out_lines).
Proof.
  intros O B. unfold splice.
  set (out1 := firstn i out_lines ++ block ++ skipn i out_lines).
  assert (C1 : Forall closed_entry out1).
  { destruct (Forall_firstn_skipn _ i _ O).
    unfold out1. repeat (apply Forall_app; split); auto. }
  set (tail := i + List.length block).
  set (out2 := firstn tail out1 ++ lstrip_blank (skipn tail out1)).
  assert (C2 : Forall closed_entry out2).
  { destruct (Forall_firstn_skipn _ tail _ C1).
    unfold out2. apply Forall_app. split; auto.
    now apply lstrip_blank_Forall. }
  destruct (Forall_firstn_skipn _ tail _ C2).
  destruct (nth_error out2 tail); [|exact C2].
  destruct (_ || _); repeat (apply Forall_app; split); auto;
    repeat constructor; apply closed_empty.
Qed.

Lemma tokenize_tidy import_string : Forall no_newline (tokenize import_string).
Proof.
  unfold tokenize. eapply Forall_impl; [|apply split_ws_words].
  intros t [_ W]. now apply W.
Qed.

Lemma py_nth_In l i x : py_nth l i = Ok x -> In x l.
Proof.
  unfold py_nth. destruct (_ <? 0)%Z; [discriminate|].
  destruct (nth_error l _) eqn:E; [|discriminate].
  intros [= <-]. eapply nth_error_In; eauto.
Qed.

Lemma as_loop_tidy fuel :
  forall kind imports as_map r,
    as_loop fuel kind imports as_map = Ok r ->
    Forall no_newline imports -> tidy_map as_map ->
    Forall no_newline (fst r) /\ tidy_map (snd r).
Proof.
  induction fuel as [|fuel IH]; intros kind imports as_map r;
    cbn [as_loop]; destruct (mem "as" imports); try discriminate;
    try (intros [= <-]; auto).
  intros H F A. inv_bind H. inv_bind H. apply (IH _ _ _ _ H).
  - destruct (Forall_firstn_skipn _ (index_of "as" imports) _ F) as [F1 _].
    destruct (Forall_firstn_skipn _ (index_of "as" imports + 2) _ F)
      as [_ F2].
    apply Forall_app. auto.
  - intros k v I. apply dict_set_In in I. destruct I as [[_ ->]|I].
    + apply py_nth_In in E0. rewrite Forall_forall in F. now apply F.
    + apply (A _ _ I).
Qed.

Lemma record_aliases_tidy kind imports as_map r :
  record_aliases kind imports as_map = Ok r ->
  Forall no_newline imports -> tidy_map as_map ->
  Forall no_newline (fst r) /\ tidy_map (snd r).
Proof.
  unfold record_aliases. destruct (_ && _).
  - apply as_loop_tidy.
  - intros [= <-]. auto.
Qed.

Lemma tidy_dict_set k b d :
  tidy_dict d -> tidy_bucket b ->
  tidy_dict (dict_set section_key_eqb k b d).
Proof.
  intros G B k' b'. destruct (section_key_eqb k k') eqn:E.
  - apply section_key_eqb_spec in E. subst k'.
    rewrite (dict_get_set_same _ section_key_eqb_spec). now intros [= <-].
  - rewrite (dict_get_set_other _ section_key_eqb_spec).
    + apply G.
    + intros N. subst k'.
      rewrite (proj2 (section_key_eqb_spec k k)) in E;
        [discriminate | reflexivity].
Qed.

Lemma tidy_bucket_straight m b :
  no_newline m -> tidy_bucket b -> tidy_bucket (bucket_straight m b).
Proof.
  intros N [S F]. split; [|exact F]. cbn [straight bucket_straight].
  apply Forall_forall. intros x Hx. apply set_add_In in Hx.
  destruct Hx as [->|Hx]; [exact N|].
  rewrite Forall_forall in S. now apply S.
Qed.

Lemma tidy_bucket_from m symbols b :
  no_newline m -> Forall no_newline symbols -> tidy_bucket b ->
  tidy_bucket (bucket_from m symbols b).
Proof.
  intros N Ns [S F]. split; [exact S|]. cbn [from bucket_from].
  intros m' symbols' I. apply dict_set_In in I.
  destruct I as [[-> ->]|I]; [|apply (F _ _ I)].
  split; [exact N|]. apply Forall_forall. intros x Hx.
  rewrite Forall_forall in Ns.
  destruct (dict_get String.eqb m (from b)) as [[|y existing]|] eqn:D;
    apply set_update_In in Hx; destruct Hx as [Hx|Hx]; auto;
    try contradiction.
  apply dict_get_In in D. destruct (F _ _ D) as [_ Fe].
  rewrite Forall_forall in Fe. now apply Fe.
Qed.

Section TidyNames.

Variable place : string -> result section_key.

Lemma lookup_get d k b :
  lookup d k = Ok b -> dict_get section_key_eqb k d = Some b.
Proof.
  unfold lookup. destruct (dict_get section_key_eqb k d); congruence.
Qed.

Lemma store_dict_tidy kind tokens :
  Forall no_newline tokens ->
  forall d d',
    store_dict place kind tokens d = Ok d' -> tidy_dict d -> tidy_dict d'.
Proof.
  intros F. destruct kind.
  - induction F as [|m tokens N F IH]; intros d d';
      cbn [store_dict store_straight_dict].
    + now intros [= <-].
    + intros H T. inv_bind H. inv_bind H. apply (IH _ _ H).
      apply tidy_dict_set; [exact T|].
      apply tidy_bucket_straight; [exact N|].
      apply (T _ _ (lookup_get _ _ _ E0)).
  - intros d d'. destruct F as [|m symbols N F];
      cbn [store_dict store_from_dict]; [discriminate|].
    intros H T. inv_bind H. inv_bind H. injection H as <-.
    apply tidy_dict_set; [exact T|].
    apply tidy_bucket_from; auto.
    apply (T _ _ (lookup_get _ _ _ E0)).
Qed.

Lemma parse_statement_tidy kind line st st' :
  parse_statement place kind line st = Ok st' ->
  tidy_dict (imports st) -> tidy_map (as_map st) ->
  tidy_dict (imports st') /\ tidy_map (as_map st').
Proof.
  unfold parse_statement. fold (mark_import st). intros H T A.
  inv_bind H. inv_bind H.
  apply read_statement_frame in E.
  destruct E as (_ & _ & _ & Ei & Ea & _).
  assert (S : store place kind (fst r0) (set_as_map (snd r) (snd r0))
              = Ok st') by (destruct kind; exact H).
  clear H. rewrite store_dict_spec in S. inv_bind S. injection S as <-.
  cbn [imports as_map set_imports set_as_map] in *.
  assert (Em : as_map (mark_import st) = as_map st)
    by (unfold mark_import; now destruct (import_index st)).
  rewrite Ea, Em in E0. rewrite Ei, imports_mark_import in E.
  destruct (record_aliases_tidy _ _ _ _ E0 (tokenize_tidy _) A) as [F A'].
  split; [|exact A']. eapply store_dict_tidy; eauto.
Qed.

Lemma parse_loop_tidy fuel :
  forall q st st',
    parse_loop place fuel q st = Ok st' ->
    tidy_dict (imports st) -> tidy_map (as_map st) ->
    tidy_dict (imports st') /\ tidy_map (as_map st').
Proof.
  induction fuel as [|fuel IH]; intros q st st'; cbn [parse_loop];
    destruct (_at_end st); try discriminate;
    try (intros [= <-]; auto).
  intros H T A. inv_bind H.
  apply _get_line_spec in E. destruct E as [_ E].
  assert (Tr : tidy_dict (imports (snd r))) by (now rewrite E).
  assert (Ar : tidy_map (as_map (snd r))) by (now rewrite E).
  destruct (_import_type (fst r)) as [kind|]; [destruct q|];
    try (apply (IH _ _ _ H); assumption).
  inv_bind H. destruct (parse_statement_tidy _ _ _ _ E0 Tr Ar).
  apply (IH _ _ _ H); assumption.
Qed.

End TidyNames.

Lemma initial_imports_tidy config : tidy_dict (initial_imports config).
Proof.
  intros k b H. apply fresh_empty in H; [|discriminate]. subst b.
  split; [constructor | intros m symbols []].
Qed.

Lemma kept_Forall (P : string -> Prop) kept lines :
  kept_in_order kept lines -> Forall P lines -> Forall P kept.
Proof.
  induction 1 as [|x kept lines K IH|x kept lines K IH]; intros F; auto;
    inversion F; subst; auto.
Qed.

Lemma closed_lines_end L :
  Forall closed_entry L ->
  let output := join nl (rstrip_blank L ++ [""]) in
  output = ""
  \/ exists lines last,
      split newline output = lines ++ [last; ""]
      /\ is_blank last = false.
Proof.
  intros C output. unfold output.
  destruct (rstrip_blank L) as [|x l] eqn:R; [now left|]. right.
  assert (N : x :: l <> []) by discriminate.
  set (e := last (x :: l) "").
  assert (Be : is_blank e = false).
  { unfold e. rewrite <- R. apply rstrip_blank_last. now rewrite R. }
  assert (Ce : closed_entry e).
  { pose proof (rstrip_blank_Forall _ _ C) as F. rewrite R in F.
    rewrite Forall_forall in F. apply F.
    rewrite (app_removelast_last "" N). apply in_or_app. right. now left. }
  exists (flat (removelast (x :: l)) ++ removelast (split newline e)),
    (last_line e).
  split; [|now apply Ce].
  rewrite split_join_flat by (intros E; destruct (x :: l); discriminate).
  rewrite (app_removelast_last "" N) at 1. fold e.
  rewrite !flat_app. unfold flat at 2 3. cbn [flat_map split].
  rewrite !app_nil_r, <- !app_assoc. f_equal.
  rewrite (app_removelast_last "" (split_not_nil newline e)) at 1.
  rewrite <- app_assoc. reflexivity.
Qed.

(** X14: When no entry of [add_imports] holds a newline, the output of a run
    is empty, or it ends with exactly one newline after a line that is not
    blank: its lines are some lines, a last line that is not blank, and
    the empty text after the closing newline. *)
Theorem output_ends_with_one_newline (config : Config) (fs : FileSystem)
  (file_contents output : string) :
  Forall no_newline (add_imports config) ->
  SortImports config fs file_contents = Ok (Some output) ->
  output = ""
  \/ exists lines last,
      split newline output = lines ++ [last; ""]
      /\ is_blank last = false.
Proof.
  intros Na. unfold SortImports, SortImports_with.
  destruct (contains file_contents "isort:skip_file"); [discriminate|].
  intros H. inv_bind H. inv_bind H. injection H as <-.
  apply closed_lines_end.
  unfold _parse_with in E.
  destruct (parse_loop_tidy _ _ _ _ _ E (initial_imports_tidy config))
    as [T A]; [intros k v []|].
  assert (Ci : Forall closed_entry
                 (split newline file_contents ++ add_imports config)).
  { apply Forall_app. split.
    - eapply Forall_impl; [|apply (split_lines newline)].
      intros l. apply closed_no_newline.
    - eapply Forall_impl; [|exact Na]. intros l. apply closed_no_newline. }
  apply parse_loop_order in E;
    cbn [initial_state in_lines index out_lines number_of_lines
           import_index] in *;
    try lia; try discriminate; try constructor; try reflexivity.
  destruct E as (K & _ & _).
  pose proof (kept_Forall _ _ _ K Ci) as Co.
  destruct (import_index r) as [i|] eqn:Ii.
  - unfold _add_formatted_imports, formatted_output in E0.
    inv_bind E0. inv_bind E. injection E as <-.
    rewrite Ii in E0. injection E0 as <-.
    cbn [out_lines set_out_lines]. apply splice_closed; [exact Co|].
    apply rstrip_blank_Forall.
    eapply render_sections_closed; eauto.
  - injection E0 as <-. exact Co.
Qed.

Lemma output_ends_with_one_newline_witness :
  ("x = 1" ++ nl)%string = ""
  \/ exists lines last,
      split newline ("x = 1" ++ nl) = lines ++ [last; ""]
      /\ is_blank last = false.
Proof.
  apply (output_ends_with_one_newline default empty_fs
           ("x = 1" ++ nl ++ "  " ++ nl ++ nl)%string);
    [constructor | reflexivity].
Defined.
